(** * IP-locator: the geolocation lookups of [locator.py]

    A shallow embedding of the two [IPLocationTracker] classes of
    [src/locator.py] and of their console programs: the single-provider
    class (lines 1-138) and the multi-provider, "robust" class (lines
    141-349), together with the pieces of the Python runtime they call,
    and the properties stated and proved over that embedding.

    Layout:
    - [Py]        the Python values, strings, floats and exceptions the code uses;
    - [Ipaddress] the standard library's [ipaddress.ip_address] parser;
    - [Urllib]    [urllib.parse.quote];
    - [Effects]   the external world (DNS, HTTP, clock) and the effect monad;
    - [Tracker]   the multi-provider class [IPLocationTracker];
    - [Console]   the [str] methods of the console, its events and the loop
                  of [main];
    - [Simple]    the single-provider class and its program;
    - [Cli]       the program of the multi-provider class;
    - [Spec]      the vocabulary in which the properties are stated;
    - [Grammar]   the IPv4 and IPv6 address literals, written declaratively;
    - [Worlds]    sample responses and worlds;
    - [Behaviour] the vocabulary of the further properties;
    - the lemmas on strings, on the two address parsers, on the effect monad,
      on the normalizers and on the provider loop;
    - the properties of the specification (section [Properties]);
    - the further properties of the lookups, of the validator, of the
      normalizers and of the console programs.

    Conventions of the model:
    - text is ASCII: a Python [str] is a [string], one [ascii] per character;
    - a decoded JSON document is an object, a finite map from keys to
      scalars ([None], booleans, integers, floats, strings), which is what
      the three providers send under the keys the normalizers read, or it
      is something else (a list, a string, a number, ...), on which
      [geo_info.get] raises [AttributeError];
    - a Python [float] is a binary64 number of [SpecFloat]; [float(s)] and
      [repr(x)] are the correctly rounded conversions CPython performs;
    - the collaborators fail the way their libraries do:
      [socket.gethostbyaddr] refuses an argument that the [idna] codec
      rejects with [UnicodeError] and one that holds a NUL with
      [TypeError], and reports a name it does not find with [herror] or
      [gaierror]; [requests.get] and [response.json()] fail with a
      [requests.RequestException];
    - a console session reads its lines from a finite input, after which
      [input] raises [EOFError]; what it prints is the list of the texts
      given to [print]. *)

From Stdlib Require Import ZArith NArith List String Ascii Bool Lia SpecFloat.
From stdpp Require Import base option list gmap strings pretty.
Import ListNotations.

Local Open Scope string_scope.
Local Open Scope list_scope.
Local Open Scope Z_scope.

(* ===================================================================== *)
(** * Python runtime *)
(* ===================================================================== *)

Module Py.

(** ** Exceptions

    The exception classes that occur in the code: the two [socket] errors
    caught around the reverse lookup, [requests.RequestException] caught
    around each provider attempt, the built-in errors that [str.split],
    indexing, [float] and a missing method raise inside the normalizers,
    and the two errors with which [socket.gethostbyaddr] refuses its
    argument before any resolution: [UnicodeError] and [TypeError].
    ([UnicodeError] is a subclass of [ValueError]; the one clause of the
    code that names [ValueError], in [validate_ip_address], guards a call
    that does not raise it.) *)
Inductive exn : Type :=
  | herror
  | gaierror
  | RequestException
  | ValueError
  | IndexError
  | AttributeError
  | UnicodeError
  | TypeError.

Definition exn_eqb (a b : exn) : bool :=
  match a, b with
  | herror, herror | gaierror, gaierror
  | RequestException, RequestException
  | ValueError, ValueError | IndexError, IndexError
  | AttributeError, AttributeError
  | UnicodeError, UnicodeError | TypeError, TypeError => true
  | _, _ => false
  end.

(** The outcome of evaluating a Python expression: an exception or a value. *)
Definition outcome (A : Type) : Type := exn + A.
Definition Raise {A : Type} (e : exn) : outcome A := inl e.
Definition Return {A : Type} (a : A) : outcome A := inr a.

(** ** Characters and strings *)

Definition ascii_in (lo hi : ascii) (c : ascii) : bool :=
  ((nat_of_ascii lo <=? nat_of_ascii c)%nat && (nat_of_ascii c <=? nat_of_ascii hi)%nat)%bool.

Definition is_digit (c : ascii) : bool := ascii_in "0" "9" c.

Definition digit_val (c : ascii) : Z := Z.of_nat (nat_of_ascii c) - 48.

(** [Py_ISSPACE]: the ASCII white space [float] strips. *)
Definition is_space (c : ascii) : bool :=
  let n := nat_of_ascii c in
  ((n =? 32)%nat || ((9 <=? n)%nat && (n <=? 13)%nat))%bool.

Definition lower (c : ascii) : ascii :=
  if ascii_in "A" "Z" c then ascii_of_nat (nat_of_ascii c + 32) else c.

Definition chars (s : string) : list ascii := list_ascii_of_string s.
Definition str (l : list ascii) : string := string_of_list_ascii l.

(** [s.split(sep)] for a one-character separator: the pieces between the
    occurrences of [sep]; always at least one piece. *)
Fixpoint split_chars (sep : ascii) (l : list ascii) : list (list ascii) :=
  match l with
  | [] => [[]]
  | c :: l' =>
      if Ascii.eqb c sep then [] :: split_chars sep l'
      else match split_chars sep l' with
           | [] => [[c]]
           | p :: ps => (c :: p) :: ps
           end
  end.

Definition split (sep : ascii) (s : string) : list string :=
  map str (split_chars sep (chars s)).

(** [sep.join(parts)]. *)
Fixpoint join (sep : string) (parts : list string) : string :=
  match parts with
  | [] => ""
  | [p] => p
  | p :: ps => p +:+ sep +:+ join sep ps
  end.

(** [template.format(arg)] for a template whose replacement fields are all
    the empty field [{}] and which has at most one of them (every endpoint
    template of the tracker is of that form). *)
Fixpoint format_chars (template : list ascii) (arg : list ascii) : list ascii :=
  match template with
  | "{"%char :: "}"%char :: rest => arg ++ rest
  | c :: rest => c :: format_chars rest arg
  | [] => []
  end.

Definition format (template arg : string) : string :=
  str (format_chars (chars template) (chars arg)).

(** ** Floats: IEEE 754 binary64, as [SpecFloat] *)

Definition prec : Z := 53.
Definition emax : Z := 1024.

Definition float : Type := spec_float.

Definition zero : float := S754_zero false.

(** [x == y] on floats. *)
Definition float_eqb (x y : float) : bool := SFeqb x y.

(** The binary64 nearest (ties to even) to [(-1)^neg * m * 10^e]. *)
Definition float_of_decimal (neg : bool) (m : N) (e : Z) : float :=
  match m with
  | N0 => S754_zero neg
  | Npos p =>
      match e with
      | Zneg k =>
          let '(q, e', l) := SFdiv_core_binary prec emax (Zpos p) 0 (10 ^ Zpos k) 0 in
          binary_round_aux prec emax neg q e' l
      | _ =>
          match Zpos p * 10 ^ e with
          | Zpos n => binary_round prec emax neg n 0
          | _ => S754_zero neg
          end
      end
  end.

(** *** [float(s)] on a string

    CPython first removes underscores (which may only stand between two
    digits), then strips ASCII white space, then reads an optional sign
    followed by [inf], [infinity] or [nan] (in any case) or by a decimal
    number with an optional exponent; the whole string must be consumed,
    otherwise [ValueError] is raised. *)

Fixpoint strip_underscores (prev : ascii) (l : list ascii) : option (list ascii) :=
  match l with
  | [] => if Ascii.eqb prev "_" then None else Some []
  | c :: l' =>
      if Ascii.eqb c "_" then
        if is_digit prev then strip_underscores c l' else None
      else if (Ascii.eqb prev "_" && negb (is_digit c))%bool then None
      else option_map (cons c) (strip_underscores c l')
  end.

Fixpoint lstrip (l : list ascii) : list ascii :=
  match l with
  | c :: l' => if is_space c then lstrip l' else l
  | [] => []
  end.

Definition strip (l : list ascii) : list ascii := rev (lstrip (rev (lstrip l))).

Fixpoint span_digits (l : list ascii) : list ascii * list ascii :=
  match l with
  | c :: l' =>
      if is_digit c then let '(ds, r) := span_digits l' in (c :: ds, r)
      else ([], l)
  | [] => ([], [])
  end.

Definition digits_val (ds : list ascii) : Z :=
  fold_left (fun acc c => 10 * acc + digit_val c) ds 0.

Definition parse_sign (l : list ascii) : bool * list ascii :=
  match l with
  | "-"%char :: r => (true, r)
  | "+"%char :: r => (false, r)
  | _ => (false, l)
  end.

Definition is_word (w : string) (l : list ascii) : bool :=
  String.eqb (str (map lower l)) w.

Definition parse_float (l : list ascii) : option float :=
  let '(neg, l1) := parse_sign l in
  if (is_word "inf" l1 || is_word "infinity" l1)%bool then Some (S754_infinity neg)
  else if is_word "nan" l1 then Some S754_nan
  else
    let '(ip, l2) := span_digits l1 in
    let '(fp, l3) := match l2 with
                     | "."%char :: r => span_digits r
                     | _ => ([], l2)
                     end in
    let mant := Z.to_N (digits_val (ip ++ fp)) in
    let scale := Z.of_nat (length fp) in
    match ip ++ fp, l3 with
    | [], _ => None
    | _, [] => Some (float_of_decimal neg mant (- scale))
    | _, c :: r =>
        if Ascii.eqb (lower c) "e" then
          let '(eneg, l4) := parse_sign r in
          match span_digits l4 with
          | ((_ :: _) as ed, []) =>
              let e := digits_val ed in
              Some (float_of_decimal neg mant ((if eneg then - e else e) - scale))
          | _ => None
          end
        else None
    end.

Definition float_of_string (s : string) : outcome float :=
  match strip_underscores "000" (chars s) with
  | None => Raise ValueError
  | Some l =>
      match parse_float (strip l) with
      | Some x => Return x
      | None => Raise ValueError
      end
  end.

(** *** [repr(x)] of a float

    The shortest decimal string that reads back as [x] (David Gay's mode 0,
    [float_repr_style = 'short']), printed in positional notation when the
    decimal point falls within [-4 < decpt <= 16] and in exponent notation
    otherwise. *)

(** The decimal exponent of [num/den]: the [k] with
    [10^k <= num/den < 10^(k+1)], searched upwards from a lower estimate
    obtained from the binary logarithms. *)
Fixpoint decimal_exponent_from (fuel : nat) (num den : Z) (k : Z) : Z :=
  match fuel with
  | O => k
  | S fuel' =>
      let below := if 0 <=? k + 1 then num <? den * 10 ^ (k + 1)
                   else num * 10 ^ (- (k + 1)) <? den in
      if below then k else decimal_exponent_from fuel' num den (k + 1)
  end.

Definition decimal_exponent (num den : Z) : Z :=
  let l := Z.log2 num - Z.log2 den in
  decimal_exponent_from 8 num den ((l - 1) * 30103 / 100000 - 1).

(** [num/den * 10^s] rounded to the nearest integer, ties to even. *)
Definition round_scaled (num den s : Z) : Z :=
  let n := if 0 <=? s then num * 10 ^ s else num in
  let d := if 0 <=? s then den else den * 10 ^ (- s) in
  let q := n / d in
  let r := n mod d in
  match 2 * r ?= d with
  | Lt => q
  | Gt => q + 1
  | Eq => if Z.even q then q else q + 1
  end.

Definition float_same (x y : float) : bool :=
  match x, y with
  | S754_finite sx mx ex, S754_finite sy my ey =>
      (Bool.eqb sx sy && Pos.eqb mx my && Z.eqb ex ey)%bool
  | _, _ => false
  end.

(** The integer next to [num/den * 10^s] on the other side of it than
    [round_scaled] (the same integer when the product is one). *)
Definition other_neighbour (num den s : Z) : Z :=
  let n := if 0 <=? s then num * 10 ^ s else num in
  let d := if 0 <=? s then den else den * 10 ^ (- s) in
  let lo := n / d in
  if n mod d =? 0 then lo
  else if round_scaled num den s =? lo then lo + 1 else lo.

(** The digits [q] (with [n] significant digits unless a carry made them
    [10^n]) of the shortest decimal [q * 10^(k - n + 1)] reading back as
    the positive float [x = num/den]: of the two decimals of [n] digits
    next to [x], the nearer one if it reads back as [x], else the other
    one if that one does (the two differ next to a power of two, where
    the floats below [x] lie closer than those above), else one digit
    more is tried. *)
Fixpoint shortest_digits (fuel : nat) (x : float) (num den k : Z) (n : Z) : Z * Z :=
  let q := round_scaled num den (n - 1 - k) in
  match fuel with
  | O => (q, n)
  | S fuel' =>
      let q' := other_neighbour num den (n - 1 - k) in
      if float_same (float_of_decimal false (Z.to_N q) (k - n + 1)) x then (q, n)
      else if float_same (float_of_decimal false (Z.to_N q') (k - n + 1)) x then (q', n)
      else shortest_digits fuel' x num den k (n + 1)
  end.

Fixpoint rstrip_zeros_rev (l : list ascii) : list ascii :=
  match l with
  | "0"%char :: l' => rstrip_zeros_rev l'
  | _ => l
  end.

Definition rstrip_zeros (l : list ascii) : list ascii := rev (rstrip_zeros_rev (rev l)).

Definition zeros (n : Z) : list ascii := repeat "0"%char (Z.to_nat n).

Definition format_exponent (e : Z) : list ascii :=
  let ds := chars (pretty (Z.abs e)) in
  "e"%char :: (if e <? 0 then "-"%char else "+"%char)
    :: (if (length ds <? 2)%nat then "0"%char :: ds else ds).

Definition format_digits (ds : list ascii) (decpt : Z) : list ascii :=
  let n := Z.of_nat (length ds) in
  if ((decpt <=? -4) || (16 <? decpt))%bool then
    match ds with
    | d :: [] => d :: format_exponent (decpt - 1)
    | d :: rest => d :: "."%char :: rest ++ format_exponent (decpt - 1)
    | [] => []
    end
  else if decpt <=? 0 then
    "0"%char :: "."%char :: zeros (- decpt) ++ ds
  else if n <=? decpt then
    ds ++ zeros (decpt - n) ++ ["."%char; "0"%char]
  else
    firstn (Z.to_nat decpt) ds ++ "."%char :: skipn (Z.to_nat decpt) ds.

Definition float_repr (x : float) : string :=
  match x with
  | S754_nan => "nan"
  | S754_infinity s => if s then "-inf" else "inf"
  | S754_zero s => if s then "-0.0" else "0.0"
  | S754_finite s m e =>
      let x' := binary_round prec emax false m e in
      let num := if 0 <=? e then Zpos m * 2 ^ e else Zpos m in
      let den := if 0 <=? e then 1 else 2 ^ (- e) in
      let k := decimal_exponent num den in
      let '(q, n) := shortest_digits 16 x' num den k 1 in
      let ds0 := chars (pretty q) in
      let decpt := k + 1 + (Z.of_nat (length ds0) - n) in
      str ((if s then ["-"%char] else []) ++ format_digits (rstrip_zeros ds0) decpt)
  end.

(** ** Values

    The values a provider's JSON object holds under the keys the
    normalizers read, as [json.loads] yields them: [None], booleans,
    integers, floats and strings. *)
Inductive value : Type :=
  | VNone
  | VBool (b : bool)
  | VInt (z : Z)
  | VFloat (x : float)
  | VStr (s : string).

(** [v == 0.0]: numbers compare by value ([bool] is a subclass of [int]),
    everything else is unequal to a float. *)
Definition eq_zero (v : value) : bool :=
  match v with
  | VFloat x => float_eqb x zero
  | VInt z => z =? 0
  | VBool b => negb b
  | VNone | VStr _ => false
  end.

(** [format(v, '')], what an f-string field [{v}] expands to. *)
Definition to_str (v : value) : string :=
  match v with
  | VNone => "None"
  | VBool b => if b then "True" else "False"
  | VInt z => pretty z
  | VFloat x => float_repr x
  | VStr s => s
  end.

(** A JSON object, and [d.get(key, default)]. *)
Definition dict : Type := gmap string value.

Definition get (d : gmap string value) (key : string) (default : value) : value :=
  match d !! key with
  | Some v => v
  | None => default
  end.

(** What [response.json()] yields: the [dict] of a JSON object, or the
    value of any other JSON document ([None], a boolean, a number, a
    string, a list). *)
Inductive json : Type :=
  | JObject (d : gmap string value)
  | JOther.

(** [geo_info.get(key, default)]: of the values [response.json()] yields
    only a [dict] has the method. *)
Definition json_get (geo_info : Py.json) (key : string) (default : value) : outcome value :=
  match geo_info with
  | JObject d => Return (get d key default)
  | JOther => Raise AttributeError
  end.

(** Sequencing of expressions that may raise. *)
Definition bind {A B : Type} (o : outcome A) (k : A -> outcome B) : outcome B :=
  match o with
  | inl e => inl e
  | inr a => k a
  end.

(** [l[i]] on a list. *)
Definition index {A : Type} (l : list A) (i : nat) : outcome A :=
  match nth_error l i with
  | Some a => Return a
  | None => Raise IndexError
  end.

End Py.

Declare Scope outcome_scope.
Delimit Scope outcome_scope with outcome.
Notation "x <- e1 ;; e2" := (Py.bind e1 (fun x => e2))
  (at level 100, e1 at next level, right associativity) : outcome_scope.

(* ===================================================================== *)
(** * The standard library's [ipaddress.ip_address]

    The string branch of CPython 3.11's [Lib/ipaddress.py];
    [AddressValueError] is a subclass of [ValueError] and is rendered as
    such. *)
(* ===================================================================== *)

Module Ipaddress.
Import Py.
Local Open Scope outcome_scope.

Inductive address : Type :=
  | IPv4Address (_ip : Z)
  | IPv6Address (_ip : Z) (_scope_id : option string).

Definition contains (c : ascii) (s : string) : bool :=
  existsb (Ascii.eqb c) (chars s).

Definition strlen (s : string) : Z := Z.of_nat (String.length s).

Definition is_empty (s : string) : bool :=
  match s with
  | EmptyString => true
  | String _ _ => false
  end.

(** [IPv4Address._parse_octet] *)
Definition _parse_octet (octet_str : string) : outcome Z :=
  if is_empty octet_str then Raise ValueError
  else if negb (forallb is_digit (chars octet_str)) then Raise ValueError
  else if 3 <? strlen octet_str then Raise ValueError
  else if (negb (String.eqb octet_str "0")
           && match octet_str with
              | String c _ => Ascii.eqb c "0"
              | EmptyString => false
              end)%bool then Raise ValueError
  else
    let octet_int := digits_val (chars octet_str) in
    if 255 <? octet_int then Raise ValueError
    else Return octet_int.

(** [map(f, xs)] consumed to the end, stopping at the first exception. *)
Fixpoint map_outcome {A B : Type} (f : A -> outcome B) (xs : list A) : outcome (list B) :=
  match xs with
  | [] => Return []
  | x :: xs' => y <- f x ;; ys <- map_outcome f xs' ;; Return (y :: ys)
  end.

(** [int.from_bytes(bs, 'big')] *)
Definition from_bytes (bs : list Z) : Z :=
  fold_left (fun acc b => Z.lor (Z.shiftl acc 8) b) bs 0.

(** [IPv4Address._ip_int_from_string] *)
Definition v4_ip_int_from_string (ip_str : string) : outcome Z :=
  if is_empty ip_str then Raise ValueError
  else
    let octets := split "." ip_str in
    if negb (length octets =? 4)%nat then Raise ValueError
    else bs <- map_outcome _parse_octet octets ;; Return (from_bytes bs).

(** [IPv4Address(address)] for a string. *)
Definition new_IPv4Address (addr_str : string) : outcome Z :=
  if contains "/" addr_str then Raise ValueError
  else v4_ip_int_from_string addr_str.

(** [IPv6Address._HEX_DIGITS], and [_HEX_DIGITS.issuperset(c)]. *)
Definition _HEX_DIGITS : list ascii := chars "0123456789ABCDEFabcdef".

Definition is_hex_digit (c : ascii) : bool := existsb (Ascii.eqb c) _HEX_DIGITS.

Definition hex_digit_val (c : ascii) : Z :=
  if is_digit c then digit_val c
  else if ascii_in "A" "F" c then Z.of_nat (nat_of_ascii c) - 55
  else Z.of_nat (nat_of_ascii c) - 87.

(** [IPv6Address._parse_hextet]; [int('', 16)] raises [ValueError]. *)
Definition _parse_hextet (hextet_str : string) : outcome Z :=
  if negb (forallb is_hex_digit (chars hextet_str)) then Raise ValueError
  else if 4 <? strlen hextet_str then Raise ValueError
  else if is_empty hextet_str then Raise ValueError
  else Return (fold_left (fun acc c => 16 * acc + hex_digit_val c) (chars hextet_str) 0).

(** ['%x' % n] *)
Definition hex_char (d : Z) : ascii :=
  ascii_of_nat (Z.to_nat (if d <? 10 then 48 + d else 87 + d)).

Fixpoint hex_chars (fuel : nat) (n : Z) (acc : list ascii) : list ascii :=
  match fuel with
  | O => acc
  | S fuel' =>
      let acc' := hex_char (n mod 16) :: acc in
      if n / 16 =? 0 then acc' else hex_chars fuel' (n / 16) acc'
  end.

Definition format_hex (n : Z) : string := str (hex_chars (S (Z.to_nat (Z.log2 n))) n []).

(** The loop looking for the one ['::']: the index of the empty part among
    [parts[1:len(parts)-1]], if any. *)
Fixpoint find_skip_index (middle : list string) (i : nat) (skip_index : option nat)
  : outcome (option nat) :=
  match middle with
  | [] => Return skip_index
  | p :: rest =>
      if is_empty p then
        match skip_index with
        | Some _ => Raise ValueError
        | None => find_skip_index rest (S i) (Some i)
        end
      else find_skip_index rest (S i) skip_index
  end.

(** The two accumulation loops over hextets. *)
Fixpoint parse_hextets (ip_int : Z) (hextets : list string) : outcome Z :=
  match hextets with
  | [] => Return ip_int
  | h :: rest => v <- _parse_hextet h ;; parse_hextets (Z.lor (Z.shiftl ip_int 16) v) rest
  end.

Definition _HEXTET_COUNT : nat := 8.

(** The block of [IPv6Address._ip_int_from_string] that turns an
    IPv4-style last part into two hextets. *)
Definition expand_ipv4_suffix (parts : list string) : outcome (list string) :=
  if contains "." (List.last parts "") then
    ipv4_int <- new_IPv4Address (List.last parts "") ;;
    Return (removelast parts
              ++ [format_hex (Z.land (Z.shiftr ipv4_int 16) 65535);
                  format_hex (Z.land ipv4_int 65535)])
  else Return parts.

(** The block that locates ['::'] and computes [parts_hi], [parts_lo] and
    [parts_skipped]. *)
Definition hextet_layout (parts : list string) : outcome (nat * nat * nat) :=
  skip_index <- find_skip_index (removelast (tl parts)) 1 None ;;
  match skip_index with
  | Some skip_index =>
      let parts_hi := skip_index in
      let parts_lo := (length parts - skip_index - 1)%nat in
      parts_hi <-
        (if is_empty (hd "" parts) then
           if negb (parts_hi - 1 =? 0)%nat then Raise ValueError
           else Return (parts_hi - 1)%nat
         else Return parts_hi) ;;
      parts_lo <-
        (if is_empty (List.last parts "") then
           if negb (parts_lo - 1 =? 0)%nat then Raise ValueError
           else Return (parts_lo - 1)%nat
         else Return parts_lo) ;;
      if (_HEXTET_COUNT <? parts_hi + parts_lo + 1)%nat then Raise ValueError
      else Return (parts_hi, parts_lo, (_HEXTET_COUNT - (parts_hi + parts_lo))%nat)
  | None =>
      if negb (length parts =? _HEXTET_COUNT)%nat then Raise ValueError
      else if is_empty (hd "" parts) then Raise ValueError
      else if is_empty (List.last parts "") then Raise ValueError
      else Return (length parts, O, O)
  end.

(** The rest of [IPv6Address._ip_int_from_string], from the check on the
    number of parts on. *)
Definition hextets_to_int (parts : list string) : outcome Z :=
  if (_HEXTET_COUNT + 1 <? length parts)%nat then Raise ValueError
  else
    counts <- hextet_layout parts ;;
    let '(parts_hi, parts_lo, parts_skipped) := counts in
    ip_int <- parse_hextets 0 (firstn parts_hi parts) ;;
    let ip_int := Z.shiftl ip_int (16 * Z.of_nat parts_skipped) in
    parse_hextets ip_int (skipn (length parts - parts_lo) parts).

(** [IPv6Address._ip_int_from_string] *)
Definition v6_ip_int_from_string (ip_str : string) : outcome Z :=
  if is_empty ip_str then Raise ValueError
  else
    let parts := split ":" ip_str in
    if (length parts <? 3)%nat then Raise ValueError
    else parts <- expand_ipv4_suffix parts ;; hextets_to_int parts.

(** [str.partition(sep)]: the text before the first [sep], whether [sep]
    was found, and the text after it. *)
Fixpoint partition_chars (sep : ascii) (l : list ascii) : list ascii * bool * list ascii :=
  match l with
  | [] => ([], false, [])
  | c :: l' =>
      if Ascii.eqb c sep then ([], true, l')
      else let '(a, found, b) := partition_chars sep l' in (c :: a, found, b)
  end.

(** [IPv6Address._split_scope_id] *)
Definition _split_scope_id (ip_str : string) : outcome (string * option string) :=
  let '(addr, sep, scope_id) := partition_chars "%" (chars ip_str) in
  if negb sep then Return (str addr, None)
  else if (is_empty (str scope_id) || contains "%" (str scope_id))%bool then Raise ValueError
  else Return (str addr, Some (str scope_id)).

(** [IPv6Address(address)] for a string. *)
Definition new_IPv6Address (addr_str : string) : outcome (Z * option string) :=
  if contains "/" addr_str then Raise ValueError
  else
    sc <- _split_scope_id addr_str ;;
    let '(addr_str, scope_id) := sc in
    ip <- v6_ip_int_from_string addr_str ;;
    Return (ip, scope_id).

(** [ipaddress.ip_address(address)] for a string. *)
Definition ip_address (addr : string) : outcome address :=
  match new_IPv4Address addr with
  | inr ip => Return (IPv4Address ip)
  | inl _ =>
      match new_IPv6Address addr with
      | inr (ip, scope_id) => Return (IPv6Address ip scope_id)
      | inl _ => Raise ValueError
      end
  end.

End Ipaddress.

(* ===================================================================== *)
(** * [urllib.parse.quote] *)
(* ===================================================================== *)

Module Urllib.
Import Py.

(** The characters [quote] never escapes, and its default [safe='/']. *)
Definition always_safe (c : ascii) : bool :=
  (ascii_in "A" "Z" c || ascii_in "a" "z" c || is_digit c
   || existsb (Ascii.eqb c) (chars "_.-~"))%bool.

Definition upper_hex (d : nat) : ascii :=
  ascii_of_nat (if (d <? 10)%nat then 48 + d else 55 + d).

Definition quote_char (c : ascii) : list ascii :=
  if (always_safe c || Ascii.eqb c "/")%bool then [c]
  else
    let n := nat_of_ascii c in
    ["%"%char; upper_hex (n / 16); upper_hex (n mod 16)].

(** [urllib.parse.quote(s)] on ASCII text. *)
Definition quote (s : string) : string := str (flat_map quote_char (chars s)).

End Urllib.

(* ===================================================================== *)
(** * The outside world and the effects of a lookup *)
(* ===================================================================== *)

Module Effects.
Import Py.

(** What a lookup does to the outside world, in order. *)
Inductive event : Type :=
  | Gethostbyaddr (ip : string)            (* socket.gethostbyaddr(ip) *)
  | Get (url : string) (timeout : Z)       (* requests.get(url, timeout=...) *)
  | Sleep (secs : Z).                      (* time.sleep(secs) *)

(** The two ways [socket.gethostbyaddr] reports that it found no name. *)
Inductive lookup_error : Type := Herror | Gaierror.

(** A [requests.Response]: its status code and what its body decodes
    to; [None] when the body is not JSON, for which [response.json()]
    raises [requests.exceptions.JSONDecodeError], a subclass of
    [requests.RequestException]. *)
Record Response : Type := {
  status_code : Z;
  body : option json
}.

(** The collaborators of the tracker.  [gethostbyaddr ip] is what the
    resolver answers to [socket.gethostbyaddr(ip)] once the call has
    accepted its argument: the primary host name, or the error raised;
    [requests_get url timeout] is the response, or [None] when the request
    raises a [requests.RequestException] (time-out, DNS failure, refused
    connection, ...). *)
Record World : Type := {
  gethostbyaddr : string -> lookup_error + string;
  requests_get : string -> Z -> option Response
}.

(** Computations: they extend the trace of events and end in a value or
    in an exception. *)
Definition M (A : Type) : Type := list event -> list event * outcome A.

Definition ret {A : Type} (a : A) : M A := fun t => (t, Return a).

Definition raise {A : Type} (e : exn) : M A := fun t => (t, Raise e).

Definition lift {A : Type} (o : outcome A) : M A := fun t => (t, o).

Definition mbind {A B : Type} (m : M A) (k : A -> M B) : M B :=
  fun t =>
    match m t with
    | (t', inl e) => (t', inl e)
    | (t', inr a) => k a t'
    end.

Definition emit (ev : event) : M unit := fun t => (t ++ [ev], Return tt).

(** [try: body  except <classes>: handler] *)
Definition try_except {A : Type} (body : M A) (classes : exn -> bool) (handler : M A) : M A :=
  fun t =>
    match body t with
    | (t', inl e) => if classes e then handler t' else (t', inl e)
    | (t', inr a) => (t', inr a)
    end.

(** Running a computation from the empty trace. *)
Definition run {A : Type} (m : M A) : list event * outcome A := m [].
Definition trace {A : Type} (m : M A) : list event := fst (run m).
Definition returned {A : Type} (m : M A) : outcome A := snd (run m).

Definition lookup_exn (e : lookup_error) : exn :=
  match e with
  | Herror => herror
  | Gaierror => gaierror
  end.

(** The text is ASCII. *)
Definition is_ascii (s : string) : bool :=
  forallb (fun c => (nat_of_ascii c <? 128)%nat) (chars s).

(** The [idna] codec on ASCII text ([encodings.idna], the fast path of
    [Codec.encode]): the text is cut at its dots, every label but the
    last must have between 1 and 63 characters and the last one at most
    63, else [UnicodeError] is raised.  Text outside ASCII, which the
    codec would prepare and encode label by label, lies outside the model
    and counts as refused. *)
Definition idna_encode (s : string) : outcome unit :=
  if negb (is_ascii s) then Raise UnicodeError
  else
    let labels := split "." s in
    if (forallb (fun label => (0 <? String.length label)%nat
                              && (String.length label <? 64)%nat)
                (List.removelast labels)
        && (String.length (List.last labels "") <? 64)%nat)%bool
    then Return tt
    else Raise UnicodeError.

(** How [socket.gethostbyaddr] takes its argument, a host name: the
    string is encoded with the [idna] codec, and the bytes must hold no
    NUL, else [TypeError] is raised. *)
Definition hostname_argument (s : string) : outcome unit :=
  bind (idna_encode s) (fun _ =>
  if Ipaddress.contains "000" s then Raise TypeError else Return tt).

(** [socket.gethostbyaddr(ip)[0]] *)
Definition socket_gethostbyaddr (w : World) (ip : string) : M string :=
  mbind (emit (Gethostbyaddr ip)) (fun _ =>
  mbind (lift (hostname_argument ip)) (fun _ =>
  match gethostbyaddr w ip with
  | inl e => raise (lookup_exn e)
  | inr hostname => ret hostname
  end)).

(** [requests.get(url, timeout=timeout)] *)
Definition get (w : World) (url : string) (timeout : Z) : M Response :=
  mbind (emit (Get url timeout)) (fun _ =>
  match requests_get w url timeout with
  | None => raise RequestException
  | Some response => ret response
  end).

(** [response.json()] *)
Definition json (response : Response) : M Py.json :=
  match body response with
  | None => raise RequestException
  | Some geo_info => ret geo_info
  end.

(** [time.sleep(secs)] *)
Definition sleep (secs : Z) : M unit := emit (Sleep secs).

End Effects.

Declare Scope effect_scope.
Delimit Scope effect_scope with effect.
Notation "x <~ m1 ;; m2" := (Effects.mbind m1 (fun x => m2))
  (at level 100, m1 at next level, right associativity) : effect_scope.
Notation "m1 ;;; m2" := (Effects.mbind m1 (fun _ => m2))
  (at level 100, right associativity) : effect_scope.

(* ===================================================================== *)
(** * The class [IPLocationTracker] (multi-provider) *)
(* ===================================================================== *)

Module Tracker.
Import Py Effects.

(** An entry of [self.apis]. *)
Record Api : Type := {
  url : string;
  name : string;
  key_needed : bool
}.

(** [self.apis], as [__init__] sets it. *)
Definition apis : list Api :=
  [ {| url := "https://ipapi.co/{}/json/"; name := "ipapi.co"; key_needed := false |};
    {| url := "https://ipinfo.io/{}/json"; name := "ipinfo.io"; key_needed := false |};
    {| url := "https://ip-api.com/json/{}"; name := "ip-api.com"; key_needed := false |} ].

(** The dictionaries the lookup returns. *)
Record Location : Type := {
  country : value;
  country_code : value;
  city : value;
  region : value;
  postal_code : value;
  latitude : value;
  longitude : value;
  timezone : value;
  google_maps_link : string
}.

Record Network : Type := {
  organization : value;
  isp : value;
  asn : value
}.

Record LocationRecord : Type := {
  ip : string;
  hostname : string;
  location : Location;
  network : Network
}.

Inductive result : Type :=
  | ErrorResult (error : string)
  | LocationResult (record : LocationRecord).

(** [validate_ip_address] *)
Definition validate_ip_address (ip : string) : outcome bool :=
  match Ipaddress.ip_address ip with
  | inr _ => Return true
  | inl e => if exn_eqb e ValueError then Return false else Raise e
  end.

(** [create_google_maps_link] *)
Definition create_google_maps_link (latitude longitude : value) : string :=
  if (eq_zero latitude && eq_zero longitude)%bool then "No coordinates available"
  else
    "https://www.google.com/maps/search/?api=1&query="
      +:+ to_str latitude +:+ "," +:+ to_str longitude.

(** [_process_ipapi_response] *)
Definition _process_ipapi_response (ip hostname : string) (geo_info : Py.json)
  : outcome LocationRecord :=
  (latitude <- json_get geo_info "latitude" (VFloat zero) ;;
   longitude <- json_get geo_info "longitude" (VFloat zero) ;;
   country <- json_get geo_info "country_name" (VStr "Unknown") ;;
   country_code <- json_get geo_info "country_code" (VStr "N/A") ;;
   city <- json_get geo_info "city" (VStr "Unknown") ;;
   region <- json_get geo_info "region" (VStr "Unknown") ;;
   postal_code <- json_get geo_info "postal" (VStr "N/A") ;;
   timezone <- json_get geo_info "timezone" (VStr "N/A") ;;
   organization <- json_get geo_info "org" (VStr "Unknown") ;;
   isp <- json_get geo_info "isp" (VStr "Unknown") ;;
   asn <- json_get geo_info "asn" (VStr "Unknown") ;;
   Return
     {| ip := ip;
        hostname := hostname;
        location := {|
          country := country;
          country_code := country_code;
          city := city;
          region := region;
          postal_code := postal_code;
          latitude := latitude;
          longitude := longitude;
          timezone := timezone;
          google_maps_link := create_google_maps_link latitude longitude |};
        network := {|
          organization := organization;
          isp := isp;
          asn := asn |} |})%outcome.

(** [v.split(',')]: only strings have the method. *)
Definition value_split (v : value) (sep : ascii) : outcome (list string) :=
  match v with
  | VStr s => Return (split sep s)
  | _ => Raise AttributeError
  end.

(** [_process_ipinfo_response] *)
Definition _process_ipinfo_response (ip hostname : string) (geo_info : Py.json)
  : outcome LocationRecord :=
  (loc_text <- json_get geo_info "loc" (VStr "0,0") ;;
   loc <- value_split loc_text "," ;;
   loc0 <- index loc 0 ;;
   latitude <- float_of_string loc0 ;;
   loc1 <- index loc 1 ;;
   longitude <- float_of_string loc1 ;;
   country <- json_get geo_info "country" (VStr "Unknown") ;;
   country_code <- json_get geo_info "country" (VStr "N/A") ;;
   city <- json_get geo_info "city" (VStr "Unknown") ;;
   region <- json_get geo_info "region" (VStr "Unknown") ;;
   postal_code <- json_get geo_info "postal" (VStr "N/A") ;;
   timezone <- json_get geo_info "timezone" (VStr "N/A") ;;
   organization <- json_get geo_info "org" (VStr "Unknown") ;;
   Return
     {| ip := ip;
        hostname := hostname;
        location := {|
          country := country;
          country_code := country_code;
          city := city;
          region := region;
          postal_code := postal_code;
          latitude := VFloat latitude;
          longitude := VFloat longitude;
          timezone := timezone;
          google_maps_link := create_google_maps_link (VFloat latitude) (VFloat longitude) |};
        network := {|
          organization := organization;
          isp := VStr "N/A";
          asn := VStr "N/A" |} |})%outcome.

(** [_process_ipapi_direct_response] *)
Definition _process_ipapi_direct_response (ip hostname : string) (geo_info : Py.json)
  : outcome LocationRecord :=
  (latitude <- json_get geo_info "lat" (VFloat zero) ;;
   longitude <- json_get geo_info "lon" (VFloat zero) ;;
   country <- json_get geo_info "country" (VStr "Unknown") ;;
   country_code <- json_get geo_info "countryCode" (VStr "N/A") ;;
   city <- json_get geo_info "city" (VStr "Unknown") ;;
   region <- json_get geo_info "regionName" (VStr "Unknown") ;;
   postal_code <- json_get geo_info "zip" (VStr "N/A") ;;
   timezone <- json_get geo_info "timezone" (VStr "N/A") ;;
   organization <- json_get geo_info "org" (VStr "Unknown") ;;
   isp <- json_get geo_info "isp" (VStr "Unknown") ;;
   Return
     {| ip := ip;
        hostname := hostname;
        location := {|
          country := country;
          country_code := country_code;
          city := city;
          region := region;
          postal_code := postal_code;
          latitude := latitude;
          longitude := longitude;
          timezone := timezone;
          google_maps_link := create_google_maps_link latitude longitude |};
        network := {|
          organization := organization;
          isp := isp;
          asn := VStr "N/A" |} |})%outcome.

(** The [if ... elif] chain on [api['name']]: [Some r] when a branch
    executes [return r], [None] when no name matches and control falls
    out of the chain. *)
Definition normalize (api : Api) (ip hostname : string) (geo_info : Py.json)
  : outcome (option result) :=
  if String.eqb (name api) "ipapi.co" then
    (r <- _process_ipapi_response ip hostname geo_info ;;
     Return (Some (LocationResult r)))%outcome
  else if String.eqb (name api) "ipinfo.io" then
    (r <- _process_ipinfo_response ip hostname geo_info ;;
     Return (Some (LocationResult r)))%outcome
  else if String.eqb (name api) "ip-api.com" then
    (r <- _process_ipapi_direct_response ip hostname geo_info ;;
     Return (Some (LocationResult r)))%outcome
  else Return None.

Local Open Scope effect_scope.

(** The body of the [try] inside the loop: [Some r] when it executes
    [return r], [None] when it runs to the end. *)
Definition attempt (w : World) (ip hostname : string) (api : Api) : M (option result) :=
  response <~ Effects.get w (format (url api) ip) 5 ;;
  returned <~ (if status_code response =? 200 then
                 geo_info <~ json response ;;
                 lift (normalize api ip hostname geo_info)
               else ret None) ;;
  match returned with
  | Some r => ret (Some r)
  | None => sleep 1 ;;; ret None
  end.

(** The loop [for api in self.apis] and the [return] after it. *)
Fixpoint for_apis (w : World) (ip hostname : string) (l : list Api) : M result :=
  match l with
  | [] => ret (ErrorResult "Failed to retrieve geolocation from all APIs")
  | api :: rest =>
      returned <~ try_except (attempt w ip hostname api)
                    (exn_eqb RequestException) (ret None) ;;
      match returned with
      | Some r => ret r
      | None => for_apis w ip hostname rest
      end
  end.

(** [get_detailed_geolocation] *)
Definition get_detailed_geolocation (w : World) (ip : string) : M result :=
  valid <~ lift (validate_ip_address ip) ;;
  if negb valid then ret (ErrorResult "Invalid IP address format")
  else
    hostname <~ try_except (socket_gethostbyaddr w ip)
                  (fun e => (exn_eqb e herror || exn_eqb e gaierror)%bool)
                  (ret "N/A") ;;
    for_apis w ip hostname apis.

End Tracker.

(* ===================================================================== *)
(** * The console: the [str] methods, the events and the loop of [main] *)
(* ===================================================================== *)

Module Console.
Import Py Effects.

(** The white space [str.strip()] removes from an ASCII string: the
    characters for which [str.isspace] holds. *)
Definition is_whitespace (c : ascii) : bool :=
  let n := nat_of_ascii c in
  ((n =? 32)%nat || ((9 <=? n)%nat && (n <=? 13)%nat)
   || ((28 <=? n)%nat && (n <=? 31)%nat))%bool.

Fixpoint lstrip_chars (l : list ascii) : list ascii :=
  match l with
  | c :: l' => if is_whitespace c then lstrip_chars l' else l
  | [] => []
  end.

(** [s.strip()] *)
Definition str_strip (s : string) : string :=
  str (rev (lstrip_chars (rev (lstrip_chars (chars s))))).

(** [s.lower()] *)
Definition str_lower (s : string) : string := str (map lower (chars s)).

Definition is_cased (c : ascii) : bool := (ascii_in "A" "Z" c || ascii_in "a" "z" c)%bool.

Definition upper (c : ascii) : ascii :=
  if ascii_in "a" "z" c then ascii_of_nat (nat_of_ascii c - 32) else c.

(** [s.replace(old, new)] for one-character [old] and [new]. *)
Definition str_replace (old new : ascii) (s : string) : string :=
  str (map (fun c => if Ascii.eqb c old then new else c) (chars s)).

(** [s.title()]: a cased character is put in upper case when the
    character before it is not cased, in lower case when it is. *)
Fixpoint title_chars (previous_is_cased : bool) (l : list ascii) : list ascii :=
  match l with
  | [] => []
  | c :: l' =>
      (if previous_is_cased then lower c else upper c) :: title_chars (is_cased c) l'
  end.

Definition str_title (s : string) : string := str (title_chars false (chars s)).

(** The line feed of the string literals that start with [\n]. *)
Definition nl : string := String "010"%char "".

(** What a session does, in order: it asks for a line, prints a text
    followed by a line feed, or does what a lookup does. *)
Inductive io : Type :=
  | Input (prompt : string)                (* input(prompt) *)
  | Print (text : string)                  (* print(text) *)
  | Effect (ev : event).

(** How [main] ends: by its [break], by the [EOFError] of [input] when
    the input has no further line, or by an exception of the lookup that
    nothing catches. *)
Inductive ending : Type :=
  | Break
  | EOFError
  | Uncaught (e : exn).

Definition prompt : string := nl +:+ "Enter an IP address (or 'quit' to exit): ".

(** The line [key: value] of a field of the two [for] loops of
    [display_location_details]. *)
Definition field_line (item : string * value) : string :=
  "  " +:+ str_title (str_replace "_" " " (fst item)) +:+ ": " +:+ to_str (snd item).

(** The loop [while True] of [main], on the lines the input still holds.
    [lookup turn] is [tracker.get_detailed_geolocation] in the world as it
    is when the line number [turn] is looked up, [display] is
    [tracker.display_location_details]. *)
Section Session.

Context {R : Type}.
Variable lookup : nat -> string -> M R.
Variable display : R -> list string.

Fixpoint session (turn : nat) (stdin : list string) : list io * ending :=
  match stdin with
  | [] => ([Input prompt], EOFError)
  | line :: rest =>
      let ip_address := str_strip line in
      if String.eqb (str_lower ip_address) "quit" then ([Input prompt], Break)
      else
        match run (lookup turn ip_address) with
        | (t, inl e) => (Input prompt :: map Effect t, Uncaught e)
        | (t, inr location_info) =>
            let '(t', e) := session (S turn) rest in
            (Input prompt :: map Effect t ++ map Print (display location_info) ++ t', e)
        end
  end.

End Session.

(** The two lines [main] prints before its loop. *)
Definition banner : list io :=
  [Print "IP Location Tracker"; Print "--------------------"].

End Console.

(* ===================================================================== *)
(** * The first, single-provider class and its program (lines 1-138) *)
(* ===================================================================== *)

Module Simple.
Import Py.

(** [create_google_maps_link] of the first [IPLocationTracker]
    (lines 27-38), which escapes the query with [urllib.parse.quote]. *)
Definition create_google_maps_link (latitude longitude : value) : string :=
  if (eq_zero latitude && eq_zero longitude)%bool then "No coordinates available"
  else
    let base_url := "https://www.google.com/maps/search/?api=1&query=" in
    let query := to_str latitude +:+ "," +:+ to_str longitude in
    base_url +:+ Urllib.quote query.

Import Effects Console.
Local Open Scope effect_scope.

(** [self.geo_api_url] *)
Definition geo_api_url : string := "https://ipapi.co/{}/json/".

(** The dictionaries the lookup returns. *)
Record Location : Type := {
  country : value;
  country_code : value;
  city : value;
  region : value;
  continent : value;
  postal_code : value;
  latitude : value;
  longitude : value;
  timezone : value;
  google_maps_link : string
}.

Record Network : Type := {
  organization : value;
  isp : value;
  asn : value;
  connection_type : value
}.

Record LocationRecord : Type := {
  ip : string;
  hostname : string;
  location : Location;
  network : Network
}.

Inductive result : Type :=
  | ErrorResult (error : string)
  | LocationResult (record : LocationRecord).

(** [validate_ip_address] *)
Definition validate_ip_address (ip : string) : outcome bool :=
  match Ipaddress.ip_address ip with
  | inr _ => Return true
  | inl e => if exn_eqb e ValueError then Return false else Raise e
  end.

(** [try: body  except C1 as e: h1  except C2 as e: h2 ...]: the first
    clause whose classes hold the exception handles it. *)
Fixpoint handle {A : Type} (clauses : list ((exn -> bool) * (exn -> M A))) (e : exn) : M A :=
  match clauses with
  | [] => raise e
  | (classes, handler) :: rest => if classes e then handler e else handle rest e
  end.

Definition try_excepts {A : Type} (body : M A)
           (clauses : list ((exn -> bool) * (exn -> M A))) : M A :=
  fun t =>
    match body t with
    | (t', inl e) => handle clauses e t'
    | (t', inr a) => (t', inr a)
    end.

(** The dictionary [detailed_info] that [get_detailed_geolocation] builds
    from a decoded answer (lines 61-85). *)
Definition detailed_info (ip hostname : string) (geo_info : Py.json)
  : outcome LocationRecord :=
  (latitude <- json_get geo_info "latitude" (VFloat zero) ;;
   longitude <- json_get geo_info "longitude" (VFloat zero) ;;
   country <- json_get geo_info "country_name" (VStr "Unknown") ;;
   country_code <- json_get geo_info "country_code" (VStr "N/A") ;;
   city <- json_get geo_info "city" (VStr "Unknown") ;;
   region <- json_get geo_info "region" (VStr "Unknown") ;;
   continent <- json_get geo_info "continent_code" (VStr "Unknown") ;;
   postal_code <- json_get geo_info "postal" (VStr "N/A") ;;
   timezone <- json_get geo_info "timezone" (VStr "N/A") ;;
   organization <- json_get geo_info "org" (VStr "Unknown") ;;
   isp <- json_get geo_info "isp" (VStr "Unknown") ;;
   asn <- json_get geo_info "asn" (VStr "Unknown") ;;
   connection_type <- json_get geo_info "connection_type" (VStr "N/A") ;;
   Return
     {| ip := ip;
        hostname := hostname;
        location := {|
          country := country;
          country_code := country_code;
          city := city;
          region := region;
          continent := continent;
          postal_code := postal_code;
          latitude := latitude;
          longitude := longitude;
          timezone := timezone;
          google_maps_link := create_google_maps_link latitude longitude |};
        network := {|
          organization := organization;
          isp := isp;
          asn := asn;
          connection_type := connection_type |} |})%outcome.

(** [get_detailed_geolocation].  [str_e e] is the text [str(e)] of the
    exception caught. *)
Definition get_detailed_geolocation (w : World) (str_e : exn -> string) (ip : string)
  : M result :=
  valid <~ lift (validate_ip_address ip) ;;
  if negb valid then ret (ErrorResult "Invalid IP address format")
  else
    try_excepts
      (hostname <~ try_except (socket_gethostbyaddr w ip)
                     (fun e => (exn_eqb e herror || exn_eqb e gaierror)%bool)
                     (ret "N/A") ;;
       response <~ Effects.get w (format geo_api_url ip) 5 ;;
       if status_code response =? 200 then
         geo_info <~ json response ;;
         detailed_info <~ lift (detailed_info ip hostname geo_info) ;;
         ret (LocationResult detailed_info)
       else
         ret (ErrorResult ("Failed to retrieve geolocation. Status code: "
                             +:+ to_str (VInt (status_code response)))))
      [ (exn_eqb RequestException,
         fun e => ret (ErrorResult ("Request failed: " +:+ str_e e)));
        (fun _ => true,
         fun e => ret (ErrorResult ("An unexpected error occurred: " +:+ str_e e))) ].

(** [loc.items()] and [net.items()]: the keys in the order of the
    dictionary displays that build them. *)
Definition location_items (loc : Location) : list (string * value) :=
  [ ("country", country loc); ("country_code", country_code loc); ("city", city loc);
    ("region", region loc); ("continent", continent loc);
    ("postal_code", postal_code loc); ("latitude", latitude loc);
    ("longitude", longitude loc); ("timezone", timezone loc);
    ("google_maps_link", VStr (google_maps_link loc)) ].

Definition network_items (net : Network) : list (string * value) :=
  [ ("organization", organization net); ("isp", isp net); ("asn", asn net);
    ("connection_type", connection_type net) ].

(** [display_location_details]: the texts it prints. *)
Definition display_location_details (location_info : result) : list string :=
  match location_info with
  | ErrorResult error => ["Error: " +:+ error]
  | LocationResult r =>
      [ nl +:+ "===== IP Location Details =====";
        "IP Address: " +:+ ip r;
        "Hostname: " +:+ hostname r;
        nl +:+ "Location Information:" ]
      ++ map field_line
           (List.filter (fun item => negb (String.eqb (fst item) "google_maps_link"))
                   (location_items (location r)))
      ++ [ nl +:+ "Google Maps Link: " +:+ google_maps_link (location r);
           nl +:+ "Network Details:" ]
      ++ map field_line (network_items (network r))
  end.

(** The loop of [main] from the turn [turn] on, in the worlds [w 0],
    [w 1], ... of its successive lookups. *)
Definition loop (w : nat -> World) (str_e : exn -> string) (turn : nat) (stdin : list string)
  : list io * ending :=
  session (fun turn => get_detailed_geolocation (w turn) str_e)
          display_location_details turn stdin.

(** [main] *)
Definition main (w : nat -> World) (str_e : exn -> string) (stdin : list string)
  : list io * ending :=
  let '(t, e) := loop w str_e 0 stdin in (banner ++ t, e).

End Simple.

(* ===================================================================== *)
(** * The program of the multi-provider class (lines 307-349) *)
(* ===================================================================== *)

Module Cli.
Import Py Effects Console Tracker.

(** [loc.items()] and [net.items()]: the keys in the order of the
    dictionary displays of the normalizers, which is the same in the three
    of them. *)
Definition location_items (loc : Location) : list (string * value) :=
  [ ("country", country loc); ("country_code", country_code loc); ("city", city loc);
    ("region", region loc); ("postal_code", postal_code loc);
    ("latitude", latitude loc); ("longitude", longitude loc);
    ("timezone", timezone loc); ("google_maps_link", VStr (google_maps_link loc)) ].

Definition network_items (net : Network) : list (string * value) :=
  [ ("organization", organization net); ("isp", isp net); ("asn", asn net) ].

(** [display_location_details]: the texts it prints. *)
Definition display_location_details (location_info : result) : list string :=
  match location_info with
  | ErrorResult error => ["Error: " +:+ error]
  | LocationResult r =>
      [ nl +:+ "===== IP Location Details =====";
        "IP Address: " +:+ ip r;
        "Hostname: " +:+ hostname r;
        nl +:+ "Location Information:" ]
      ++ map field_line
           (List.filter (fun item => negb (String.eqb (fst item) "google_maps_link"))
                   (location_items (location r)))
      ++ [ nl +:+ "Google Maps Link: " +:+ google_maps_link (location r);
           nl +:+ "Network Details:" ]
      ++ map field_line (network_items (network r))
  end.

(** The loop of [main] from the turn [turn] on, in the worlds [w 0],
    [w 1], ... of its successive lookups. *)
Definition loop (w : nat -> World) (turn : nat) (stdin : list string) : list io * ending :=
  session (fun turn => get_detailed_geolocation (w turn))
          display_location_details turn stdin.

(** [main] *)
Definition main (w : nat -> World) (stdin : list string) : list io * ending :=
  let '(t, e) := loop w 0 stdin in (banner ++ t, e).

End Cli.

(* ===================================================================== *)
(** * Vocabulary of the specification *)
(* ===================================================================== *)

Module Spec.
Import Py Effects Tracker.

(** The request URL of a provider: the IP substituted into its template. *)
Definition endpoint (ip : string) (api : Api) : string := format (url api) ip.

(** The four outcomes of one provider attempt. *)
Definition transport_error (w : World) (ip : string) (api : Api) : Prop :=
  requests_get w (endpoint ip api) 5 = None.

Definition non_success_status (w : World) (ip : string) (api : Api) : Prop :=
  exists r, requests_get w (endpoint ip api) 5 = Some r /\ status_code r <> 200.

Definition unparseable_body (w : World) (ip : string) (api : Api) : Prop :=
  exists r, requests_get w (endpoint ip api) 5 = Some r
            /\ status_code r = 200 /\ body r = None.

Definition succeeds (w : World) (ip : string) (api : Api) (geo_info : Py.json) : Prop :=
  exists r, requests_get w (endpoint ip api) 5 = Some r
            /\ status_code r = 200 /\ body r = Some geo_info.

Definition fails (w : World) (ip : string) (api : Api) : Prop :=
  transport_error w ip api \/ non_success_status w ip api \/ unparseable_body w ip api.

(** The host name the lookup works with: the one found, or the sentinel. *)
Definition resolved_hostname (w : World) (ip : string) : string :=
  match gethostbyaddr w ip with
  | inr hostname => hostname
  | inl _ => "N/A"
  end.

(** The URLs fetched in a trace, in order. *)
Definition fetched (t : list event) : list string :=
  flat_map (fun ev => match ev with Get u _ => [u] | _ => [] end) t.

(** The events a run of the provider loop adds to the trace. *)
Definition loop_events (w : World) (ip hostname : string) (l : list Api) : list event :=
  fst (for_apis w ip hostname l []).

(** The reading of the delay rule under which every failed attempt, by
    transport error or by status code, is followed by the one-second
    pause. *)
Definition delay_after_every_failure (w : World) (ip : string) : Prop :=
  forall pre u timeout post,
    trace (get_detailed_geolocation w ip) = pre ++ Get u timeout :: post ->
    (requests_get w u timeout = None
     \/ exists r, requests_get w u timeout = Some r /\ status_code r <> 200) ->
    exists post', post = Sleep 1 :: post'.

(** The link with its query escaped by [urllib.parse.quote]. *)
Definition percent_encoded_link (latitude longitude : value) : string :=
  "https://www.google.com/maps/search/?api=1&query="
    +:+ Urllib.quote (to_str latitude +:+ "," +:+ to_str longitude).

(** The string fields a normalizer fills from the provider's answer. *)
Definition string_fields (r : LocationRecord) : list value :=
  [ country (location r); country_code (location r); city (location r);
    region (location r); postal_code (location r); timezone (location r);
    organization (network r); isp (network r); asn (network r) ].

(** Where a normalizer takes a string field from: the key it reads in
    the provider's answer with the literal it falls back to when the key
    is absent, or the literal it puts whatever the answer holds. *)
Inductive source : Type :=
  | Read (key fallback : string)
  | Fixed (literal : string).

(** The sources of the string fields of each provider's record, in the
    order of [string_fields]: country, country_code, city, region,
    postal_code, timezone, organization, isp, asn. *)
Definition sources (provider : string) : list source :=
  if String.eqb provider "ipapi.co" then
    [ Read "country_name" "Unknown"; Read "country_code" "N/A"; Read "city" "Unknown";
      Read "region" "Unknown"; Read "postal" "N/A"; Read "timezone" "N/A";
      Read "org" "Unknown"; Read "isp" "Unknown"; Read "asn" "Unknown" ]
  else if String.eqb provider "ipinfo.io" then
    [ Read "country" "Unknown"; Read "country" "N/A"; Read "city" "Unknown";
      Read "region" "Unknown"; Read "postal" "N/A"; Read "timezone" "N/A";
      Read "org" "Unknown"; Fixed "N/A"; Fixed "N/A" ]
  else if String.eqb provider "ip-api.com" then
    [ Read "country" "Unknown"; Read "countryCode" "N/A"; Read "city" "Unknown";
      Read "regionName" "Unknown"; Read "zip" "N/A"; Read "timezone" "N/A";
      Read "org" "Unknown"; Read "isp" "Unknown"; Fixed "N/A" ]
  else [].

(** The value a field with that source holds for the answer [d]: the
    value under the key if there is one, whatever it is, else the
    fallback; or the fixed literal. *)
Definition field_value (d : gmap string value) (s : source) : value :=
  match s with
  | Read key fallback => Py.get d key (VStr fallback)
  | Fixed literal => VStr literal
  end.

(** The keys of the coordinates in each provider's answer ([loc] holds
    both for ipinfo.io). *)
Definition coordinate_keys (provider : string) : string * string :=
  if String.eqb provider "ipapi.co" then ("latitude", "longitude")
  else if String.eqb provider "ipinfo.io" then ("loc", "loc")
  else ("lat", "lon").

(** The pairing of the fallback literals with the fields as the
    specification words it: "N/A" for the fields the provider cannot
    supply, which are those its normalizer does not read, and "Unknown"
    for the others.  A field is populated in that sense when it holds the
    value supplied under its key or the literal so paired with it. *)
Definition worded_fallback (s : source) : string :=
  match s with
  | Read _ _ => "Unknown"
  | Fixed _ => "N/A"
  end.

Definition populated_as_worded (d : gmap string value) (s : source) (v : value) : Prop :=
  (exists key fallback, s = Read key fallback /\ d !! key = Some v)
  \/ v = VStr (worded_fallback s).

(** [socket.gethostbyaddr] accepts the address as its argument. *)
Definition resolvable (ip : string) : Prop := hostname_argument ip = Return tt.

(** The three configured providers. *)
Definition ipapi_co : Api :=
  {| url := "https://ipapi.co/{}/json/"; name := "ipapi.co"; key_needed := false |}.
Definition ipinfo_io : Api :=
  {| url := "https://ipinfo.io/{}/json"; name := "ipinfo.io"; key_needed := false |}.
Definition ip_api_com : Api :=
  {| url := "https://ip-api.com/json/{}"; name := "ip-api.com"; key_needed := false |}.

(** A computation only ever appends to the trace it is given, and what it
    appends and returns does not depend on that trace. *)
Definition appends {A : Type} (m : M A) : Prop :=
  forall t, m t = (t ++ fst (m []), snd (m [])).

End Spec.

(* ===================================================================== *)
(** * Address literals, as the standards write them

    The textual forms the validator is specified to accept: the dotted
    quad of RFC 3986 (four decimal octets without leading zeros), and the
    colon-hexadecimal forms of RFC 4291 section 2.2, full, compressed with
    one [::], and with an embedded IPv4 tail, optionally followed by the
    zone identifier of RFC 4007. *)
(* ===================================================================== *)

Module Grammar.
Import Py.

Definition hex_digit (c : ascii) : bool :=
  (is_digit c || ascii_in "a" "f" c || ascii_in "A" "F" c)%bool.

(** A decimal octet: one to three decimal digits, no leading zero, at
    most 255. *)
Definition dec_octet (s : string) : Prop :=
  s <> ""
  /\ (String.length s <= 3)%nat
  /\ forallb is_digit (chars s) = true
  /\ (s = "0" \/ String.get 0 s <> Some "0"%char)
  /\ digits_val (chars s) <= 255.

Definition ipv4_literal (s : string) : Prop :=
  exists a b c d,
    dec_octet a /\ dec_octet b /\ dec_octet c /\ dec_octet d
    /\ s = a +:+ "." +:+ b +:+ "." +:+ c +:+ "." +:+ d.

(** A group of one to four hexadecimal digits. *)
Definition hextet (s : string) : Prop :=
  s <> "" /\ (String.length s <= 4)%nat /\ forallb hex_digit (chars s) = true.

(** The colon-hexadecimal forms: eight groups; six groups and a dotted
    quad; and the two with [::] standing for one or more groups of zeros. *)
Definition ipv6_plain (s : string) : Prop :=
  (exists gs, length gs = 8%nat /\ Forall hextet gs /\ s = join ":" gs)
  \/ (exists gs v4, length gs = 6%nat /\ Forall hextet gs /\ ipv4_literal v4
                    /\ s = join ":" (gs ++ [v4]))
  \/ (exists hi lo, Forall hextet hi /\ Forall hextet lo
                    /\ (length hi + length lo <= 7)%nat
                    /\ s = join ":" hi +:+ "::" +:+ join ":" lo)
  \/ (exists hi lo v4, Forall hextet hi /\ Forall hextet lo /\ ipv4_literal v4
                       /\ (length hi + length lo + 2 <= 7)%nat
                       /\ s = join ":" hi +:+ "::" +:+ join ":" (lo ++ [v4])).

(** A zone identifier: any non-empty text without [%] and [/]. *)
Definition zone_id (z : string) : Prop :=
  z <> "" /\ forallb (fun c => negb (Ascii.eqb c "%" || Ascii.eqb c "/")) (chars z) = true.

Definition ipv6_literal (s : string) : Prop :=
  exists addr,
    ipv6_plain addr
    /\ (s = addr \/ exists zone, zone_id zone /\ s = addr +:+ "%" +:+ zone).

Definition ip_literal (s : string) : Prop := ipv4_literal s \/ ipv6_literal s.

(** Auxiliary notions for relating the parser to these forms. *)

(** The text holds no occurrence of [sep]. *)
Definition no_char (sep : ascii) (s : string) : Prop :=
  existsb (Ascii.eqb sep) (chars s) = false.

(** The parts a run of groups next to [::] splits into: an empty run
    shows as one empty part. *)
Definition pad (groups : list string) : list string :=
  match groups with
  | [] => [""]
  | _ => groups
  end.

(** The evaluation ends in a value. *)
Definition returns {A : Type} (o : outcome A) : Prop := exists a, o = Return a.

End Grammar.

(* ===================================================================== *)
(** * Sample worlds and responses *)
(* ===================================================================== *)

Module Worlds.
Import Py Effects Tracker.

Definition f37_4 : float := Eval vm_compute in float_of_decimal false 374 (-1).
Definition f122_1 : float := Eval vm_compute in float_of_decimal true 1221 (-1).

(** An ipapi.co answer. *)
Definition united_states : gmap string value :=
  {[ "latitude" := VFloat f37_4; "longitude" := VFloat f122_1;
     "country_name" := VStr "United States"; "asn" := VStr "AS15169" ]}.

(** An ipinfo.io answer with a well-formed [loc]. *)
Definition london : gmap string value :=
  {[ "loc" := VStr "51.5,-0.1"; "country" := VStr "GB"; "city" := VStr "London" ]}.

(** An ipinfo.io answer whose [loc] is not a pair of numbers. *)
Definition garbled : gmap string value :=
  {[ "loc" := VStr "abc"; "country" := VStr "GB" ]}.

(** An ipinfo.io answer whose [loc] has no comma. *)
Definition no_comma : gmap string value :=
  {[ "loc" := VStr "51.5"; "country" := VStr "GB" ]}.

(** An ip-api.com answer. *)
Definition mountain_view : gmap string value :=
  {[ "lat" := VFloat f37_4; "lon" := VFloat f122_1; "country" := VStr "United States" ]}.

(** No reverse name, and every request fails in transport. *)
Definition unreachable : World :=
  {| gethostbyaddr := fun _ => inl Herror;
     requests_get := fun _ _ => None |}.

(** Every provider answers 429 Too Many Requests. *)
Definition throttled : World :=
  {| gethostbyaddr := fun _ => inr "dns.google";
     requests_get := fun _ _ => Some {| status_code := 429; body := None |} |}.

(** A name is found, and every request is answered with the status 200
    and the body [geo_info]. *)
Definition answering (geo_info : Py.json) : World :=
  {| gethostbyaddr := fun _ => inr "dns.google";
     requests_get := fun _ _ => Some {| status_code := 200; body := Some geo_info |} |}.

(** ipapi.co answers with the status 203 (Non-Authoritative Information)
    and a body that decodes; the other providers are unreachable. *)
Definition non_authoritative : World :=
  {| gethostbyaddr := fun _ => inr "dns.google";
     requests_get := fun u _ =>
       if String.eqb u "https://ipapi.co/8.8.8.8/json/"
       then Some {| status_code := 203; body := Some (JObject united_states) |}
       else None |}.

(** Only ipapi.co answers, and answers [geo_info]. *)
Definition only_ipapi (geo_info : gmap string value) : World :=
  {| gethostbyaddr := fun _ => inr "dns.google";
     requests_get := fun u _ =>
       if String.eqb u "https://ipapi.co/8.8.8.8/json/"
       then Some {| status_code := 200; body := Some (JObject geo_info) |}
       else None |}.

(** Only ipinfo.io answers, and answers [geo_info]. *)
Definition only_ipinfo (geo_info : gmap string value) : World :=
  {| gethostbyaddr := fun _ => inl Herror;
     requests_get := fun u _ =>
       if String.eqb u "https://ipinfo.io/8.8.8.8/json"
       then Some {| status_code := 200; body := Some (JObject geo_info) |}
       else None |}.

(** ipapi.co throttles, ipinfo.io is unreachable, ip-api.com answers. *)
Definition degraded : World :=
  {| gethostbyaddr := fun _ => inr "dns.google";
     requests_get := fun u _ =>
       if String.eqb u "https://ipapi.co/8.8.8.8/json/"
       then Some {| status_code := 429; body := None |}
       else if String.eqb u "https://ip-api.com/json/8.8.8.8"
       then Some {| status_code := 200; body := Some (JObject mountain_view) |}
       else None |}.

End Worlds.

(* ===================================================================== *)
(** * Vocabulary of the further properties *)
(* ===================================================================== *)

Module Behaviour.
Import Py Effects Tracker Spec.

(** What a failed attempt adds to the trace after its request: the pause
    after a status other than 200, nothing otherwise. *)
Definition pause_after (w : World) (ip : string) (api : Api) (d : list event) : Prop :=
  (d = [] /\ (transport_error w ip api \/ unparseable_body w ip api))
  \/ (d = [Sleep 1] /\ non_success_status w ip api).

(** The pauses of a trace, in order. *)
Definition pauses (t : list event) : list Z :=
  flat_map (fun ev => match ev with Sleep secs => [secs] | _ => [] end) t.

(** The reverse lookups of a trace, in order. *)
Definition reverse_lookups (t : list event) : list string :=
  flat_map (fun ev => match ev with Gethostbyaddr ip => [ip] | _ => [] end) t.

(** An event of the provider loop: a request with the time-out of five
    seconds, or the pause of one second. *)
Definition loop_event (ev : event) : Prop :=
  (exists u, ev = Get u 5) \/ ev = Sleep 1.

(** The result with another host name in its record. *)
Definition with_hostname (h : string) (res : result) : result :=
  match res with
  | ErrorResult error => ErrorResult error
  | LocationResult r =>
      LocationResult {| ip := ip r; hostname := h;
                        location := location r; network := network r |}
  end.

(** The world with another resolver of host names. *)
Definition with_resolver (resolver : string -> lookup_error + string) (w : World) : World :=
  {| gethostbyaddr := resolver; requests_get := requests_get w |}.

(** The outcome with its value transformed. *)
Definition outcome_map {A B : Type} (f : A -> B) (o : outcome A) : outcome B :=
  match o with
  | inl e => inl e
  | inr a => inr (f a)
  end.

(** The keys of the provider's answer each normalizer reads. *)
Definition keys_read (provider : string) : list string :=
  if String.eqb provider "ipapi.co" then
    ["latitude"; "longitude"; "country_name"; "country_code"; "city"; "region";
     "postal"; "timezone"; "org"; "isp"; "asn"]
  else if String.eqb provider "ipinfo.io" then
    ["loc"; "country"; "city"; "region"; "postal"; "timezone"; "org"]
  else if String.eqb provider "ip-api.com" then
    ["lat"; "lon"; "country"; "countryCode"; "city"; "regionName"; "zip";
     "timezone"; "org"; "isp"]
  else [].

(** The characters of an escaped query: the unreserved ones, the slash
    and the percent sign of the escapes. *)
Definition url_safe (c : ascii) : bool :=
  (Urllib.always_safe c || Ascii.eqb c "/" || Ascii.eqb c "%")%bool.

(** The fields a record of the single-provider class shares with the
    records of the multi-provider class, as a record of the latter, with
    the maps link given apart. *)
Definition shared_fields (r : Simple.LocationRecord) (link : string) : LocationRecord :=
  let loc := Simple.location r in
  let net := Simple.network r in
  {| ip := Simple.ip r;
     hostname := Simple.hostname r;
     location := {|
       country := Simple.country loc;
       country_code := Simple.country_code loc;
       city := Simple.city loc;
       region := Simple.region loc;
       postal_code := Simple.postal_code loc;
       latitude := Simple.latitude loc;
       longitude := Simple.longitude loc;
       timezone := Simple.timezone loc;
       google_maps_link := link |};
     network := {|
       organization := Simple.organization net;
       isp := Simple.isp net;
       asn := Simple.asn net |} |}.

(** A decimal numeral: an optional minus sign, integer digits, a point
    and fraction digits, as in "-122.0838"; and the float nearest to the
    number it denotes. *)
Definition numeral (neg : bool) (int frac : list ascii) : string :=
  str ((if neg then ["-"%char] else []) ++ int ++ "."%char :: frac).

Definition numeral_digits (int frac : list ascii) : Prop :=
  int <> [] /\ forallb is_digit int = true /\ forallb is_digit frac = true.

Definition numeral_value (neg : bool) (int frac : list ascii) : float :=
  float_of_decimal neg (Z.to_N (digits_val (int ++ frac))) (- Z.of_nat (length frac)).

(** The text consists of white space, as [float] understands it. *)
Definition blank (s : string) : Prop := forallb is_space (chars s) = true.

(** The line is the command to leave the program. *)
Definition is_quit (line : string) : bool :=
  String.eqb (Console.str_lower (Console.str_strip line)) "quit".

(** The dotted quad of four numbers. *)
Definition dotted_quad (a b c d : Z) : string :=
  pretty a +:+ "." +:+ pretty b +:+ "." +:+ pretty c +:+ "." +:+ pretty d.

(** What the single-provider lookup makes of the answer to its one
    request, once the reverse lookup has accepted the address. *)
Definition single_result (w : World) (str_e : exn -> string) (ip : string)
           (answer : option Response) : Simple.result :=
  let failed := Simple.ErrorResult ("Request failed: " +:+ str_e RequestException) in
  match answer with
  | None => failed
  | Some r =>
      if status_code r =? 200 then
        match body r with
        | None => failed
        | Some g =>
            match Simple.detailed_info ip (Spec.resolved_hostname w ip) g with
            | inr info => Simple.LocationResult info
            | inl e => Simple.ErrorResult ("An unexpected error occurred: " +:+ str_e e)
            end
        end
      else Simple.ErrorResult
             ("Failed to retrieve geolocation. Status code: "
                +:+ to_str (VInt (status_code r)))
  end.

End Behaviour.

(* ===================================================================== *)
(** * Evaluations that return *)
(* ===================================================================== *)

Section Outcomes.
Import Py Grammar.

Lemma returns_bind {A B : Type} (o : outcome A) (k : A -> outcome B) :
  returns (bind o k) <-> exists a, o = Return a /\ returns (k a).
Proof.
  unfold returns, bind. split.
  - intros [b H]. destruct o as [e | a]; [discriminate | eauto].
  - intros (a & -> & H). exact H.
Qed.

Lemma returns_Return {A : Type} (a : A) : returns (Return a).
Proof. now exists a. Qed.

Lemma not_returns_Raise {A : Type} (e : exn) : ~ returns (@Raise A e).
Proof. intros [a H]. discriminate. Qed.

End Outcomes.

(** Closes a goal whose premise is that a [raise] returned. *)
Ltac raised := let H := fresh in intros H; now apply not_returns_Raise in H.

(* ===================================================================== *)
(** * Splitting and joining *)
(* ===================================================================== *)

Section Strings.
Import Py Grammar.

Lemma str_chars (s : string) : str (chars s) = s.
Proof. apply string_of_list_ascii_of_string. Qed.

Lemma chars_str (l : list ascii) : chars (str l) = l.
Proof. apply list_ascii_of_string_of_list_ascii. Qed.

Lemma append_cons (c : ascii) (a b : string) : String c a +:+ b = String c (a +:+ b).
Proof. reflexivity. Qed.

Lemma append_nil_l (a : string) : "" +:+ a = a.
Proof. reflexivity. Qed.

Lemma chars_app (a b : string) : chars (a +:+ b) = chars a ++ chars b.
Proof.
  induction a as [| c a IH]; [reflexivity |].
  rewrite append_cons. simpl. now rewrite IH.
Qed.

Lemma chars_inj (a b : string) : chars a = chars b -> a = b.
Proof. intros H. rewrite <- (str_chars a), <- (str_chars b). now rewrite H. Qed.

Lemma length_chars (s : string) : length (chars s) = String.length s.
Proof. induction s as [| c s IH]; simpl; [reflexivity | now rewrite IH]. Qed.

Lemma split_chars_not_nil (sep : ascii) (l : list ascii) : split_chars sep l <> [].
Proof.
  destruct l as [| c l]; simpl; [discriminate |].
  destruct (Ascii.eqb c sep); [discriminate |].
  destruct (split_chars sep l); discriminate.
Qed.

(** A piece without the separator is split off whole. *)
Lemma split_chars_app (sep : ascii) (a l : list ascii) :
  existsb (Ascii.eqb sep) a = false ->
  split_chars sep (a ++ sep :: l) = a :: split_chars sep l.
Proof.
  induction a as [| c a IH]; simpl.
  - intros _. now rewrite Ascii.eqb_refl.
  - intros H. apply orb_false_elim in H as [Hc Ha].
    rewrite Ascii.eqb_sym, Hc, (IH Ha). reflexivity.
Qed.

Lemma split_chars_whole (sep : ascii) (a : list ascii) :
  existsb (Ascii.eqb sep) a = false -> split_chars sep a = [a].
Proof.
  induction a as [| c a IH]; simpl; [reflexivity |].
  intros H. apply orb_false_elim in H as [Hc Ha].
  rewrite Ascii.eqb_sym, Hc, (IH Ha). reflexivity.
Qed.

(** [join] on non-empty lists. *)
Lemma join_cons (sep p : string) (ps : list string) :
  ps <> [] -> join sep (p :: ps) = p +:+ sep +:+ join sep ps.
Proof. destruct ps; [congruence | reflexivity]. Qed.

Lemma append_assoc (a b c : string) : (a +:+ b) +:+ c = a +:+ b +:+ c.
Proof.
  induction a as [| x a IH]; [reflexivity |].
  rewrite !append_cons. now rewrite IH.
Qed.

Lemma append_nil_r (a : string) : a +:+ "" = a.
Proof.
  induction a as [| x a IH]; [reflexivity |].
  rewrite append_cons. now rewrite IH.
Qed.

Lemma join_app (sep : string) (a b : list string) :
  a <> [] -> b <> [] -> join sep (a ++ b) = join sep a +:+ sep +:+ join sep b.
Proof.
  induction a as [| p a IH]; [congruence |]. intros _ Hb.
  destruct a as [| q a].
  - simpl app. now rewrite join_cons.
  - change ((p :: q :: a) ++ b) with (p :: (q :: a) ++ b).
    rewrite join_cons by discriminate.
    rewrite IH by (discriminate || assumption).
    rewrite (join_cons sep p (q :: a)) by discriminate.
    now rewrite !append_assoc.
Qed.

(** Splitting undoes joining, when no piece holds the separator. *)
Lemma split_join (sep : ascii) (parts : list string) :
  parts <> [] ->
  Forall (no_char sep) parts ->
  split sep (join (String sep "") parts) = parts.
Proof.
  unfold split. induction parts as [| p ps IH]; [congruence |].
  intros _ H. inversion H as [| ? ? Hp Hps]; subst.
  destruct ps as [| q ps].
  - simpl join. rewrite (split_chars_whole sep _ Hp). simpl. now rewrite str_chars.
  - rewrite join_cons by discriminate.
    rewrite chars_app. simpl chars at 2. change (chars (String sep "" +:+ ?x)) with (sep :: chars x).
    rewrite (split_chars_app sep _ _ Hp). simpl map. rewrite str_chars.
    f_equal. apply IH; [discriminate | assumption].
Qed.

(** Joining undoes splitting. *)
Lemma join_split (sep : ascii) (s : string) :
  join (String sep "") (split sep s) = s.
Proof.
  unfold split. rewrite <- (str_chars s) at 2.
  generalize (chars s) as l. clear s.
  induction l as [| c l IH]; [reflexivity |].
  simpl split_chars. destruct (Ascii.eqb_spec c sep) as [-> | N].
  - simpl map. rewrite join_cons.
    + simpl. now rewrite IH.
    + intros E. apply map_eq_nil in E. now apply split_chars_not_nil in E.
  - destruct (split_chars sep l) as [| p ps] eqn:E; [now apply split_chars_not_nil in E |].
    simpl map in *. destruct ps as [| q ps]; simpl in *.
    + now rewrite <- IH.
    + now rewrite <- IH.
Qed.

Lemma split_chars_no_sep (sep : ascii) (l : list ascii) :
  Forall (fun p => existsb (Ascii.eqb sep) p = false) (split_chars sep l).
Proof.
  induction l as [| c l IH]; simpl.
  - repeat constructor.
  - destruct (Ascii.eqb_spec c sep) as [-> | N].
    + constructor; [reflexivity | exact IH].
    + destruct (split_chars sep l) as [| p ps].
      * constructor; [| constructor]. simpl.
        destruct (Ascii.eqb_spec sep c); [congruence | reflexivity].
      * inversion IH as [| ? ? Hp Hps]; subst. constructor; [| exact Hps].
        simpl. destruct (Ascii.eqb_spec sep c); [congruence | exact Hp].
Qed.

Lemma split_no_sep (sep : ascii) (s : string) : Forall (no_char sep) (split sep s).
Proof.
  unfold split. apply List.Forall_map.
  eapply List.Forall_impl; [| apply split_chars_no_sep].
  intros p Hp. unfold no_char. now rewrite chars_str.
Qed.

Lemma split_not_nil (sep : ascii) (s : string) : split sep s <> [].
Proof.
  unfold split. intros E. apply map_eq_nil in E. now apply split_chars_not_nil in E.
Qed.

End Strings.

(* ===================================================================== *)
(** * The IPv4 parser accepts the dotted quads *)
(* ===================================================================== *)

Section IPv4.
Import Py Ipaddress Grammar.

Lemma is_empty_true (s : string) : is_empty s = true <-> s = "".
Proof. destruct s; simpl; split; congruence. Qed.

Lemma is_empty_false (s : string) : is_empty s = false <-> s <> "".
Proof. destruct s; simpl; split; congruence. Qed.

Lemma strlen_length (s : string) : strlen s = Z.of_nat (String.length s).
Proof. reflexivity. Qed.

(** Text made of characters of one class holds no character outside it. *)
Lemma class_no_char (P : ascii -> bool) (sep : ascii) (s : string) :
  forallb P (chars s) = true -> P sep = false -> no_char sep s.
Proof.
  unfold no_char. induction (chars s) as [| c l IH]; simpl; [reflexivity |].
  intros H Hs. apply andb_prop in H as [Hc Hl].
  rewrite (IH Hl Hs), orb_false_r.
  destruct (Ascii.eqb_spec sep c) as [-> | N]; [congruence | reflexivity].
Qed.

Lemma parse_octet_ok (s : string) :
  (exists n, _parse_octet s = Return n) <-> dec_octet s.
Proof.
  unfold _parse_octet, dec_octet. rewrite strlen_length.
  destruct (is_empty s) eqn:E.
  { apply is_empty_true in E. subst. split; [intros [n H]; discriminate | tauto]. }
  apply is_empty_false in E.
  destruct (forallb is_digit (chars s)) eqn:D; simpl.
  2:{ split; [intros [n H]; discriminate | intros (_ & _ & H & _); discriminate]. }
  destruct (Z.ltb_spec 3 (Z.of_nat (String.length s))) as [L | L].
  { split; [intros [n H]; discriminate | intros (_ & H & _); lia]. }
  assert (Z : (negb (String.eqb s "0")
               && match s with String c _ => Ascii.eqb c "0" | EmptyString => false end)%bool
              = false <-> (s = "0" \/ String.get 0 s <> Some "0"%char)).
  { destruct (String.eqb_spec s "0") as [-> | N]; simpl.
    - split; auto.
    - destruct s as [| c s']; simpl; [tauto |].
      destruct (Ascii.eqb_spec c "0") as [-> | Nc]; split; intros H; try congruence.
      + destruct H as [H | H]; congruence.
      + right. congruence. }
  destruct (negb (String.eqb s "0")
            && match s with String c _ => Ascii.eqb c "0" | EmptyString => false end)%bool.
  { split; [intros [n H]; discriminate |].
    intros (_ & _ & _ & H & _). apply Z in H. discriminate. }
  destruct (Z.ltb_spec 255 (digits_val (chars s))) as [V | V].
  { split; [intros [n H]; discriminate | intros (_ & _ & _ & _ & H); lia]. }
  split; [| eauto]. intros _. repeat split; try assumption; try lia.
  now apply Z.
Qed.

Lemma map_outcome_ok {A B : Type} (f : A -> outcome B) (xs : list A) :
  (exists ys, map_outcome f xs = Return ys) <-> Forall (fun x => exists y, f x = Return y) xs.
Proof.
  induction xs as [| x xs IH]; simpl.
  - split; [constructor | eauto].
  - unfold bind. split.
    + intros [ys H]. destruct (f x) as [e | y] eqn:F; [discriminate |].
      destruct (map_outcome f xs) as [e | ys'] eqn:M; [discriminate |].
      constructor; [eauto | apply IH; eauto].
    + intros H. inversion H as [| ? ? [y Hy] Hxs]; subst.
      apply IH in Hxs as [ys Hys]. rewrite Hy, Hys. eauto.
Qed.

Lemma is_digit_class (c : ascii) :
  In c (chars "./:%") -> is_digit c = false.
Proof. simpl. intros [<- | [<- | [<- | [<- | []]]]]; reflexivity. Qed.

Lemma dec_octet_no_char (s : string) (sep : ascii) :
  dec_octet s -> In sep (chars "./:%") -> no_char sep s.
Proof.
  intros (_ & _ & D & _) H. eapply class_no_char; [exact D | now apply is_digit_class].
Qed.

Lemma no_char_app (sep : ascii) (a b : string) :
  no_char sep (a +:+ b) <-> no_char sep a /\ no_char sep b.
Proof.
  unfold no_char. rewrite chars_app, existsb_app. apply orb_false_iff.
Qed.

Lemma contains_no_char (sep : ascii) (s : string) :
  contains sep s = false <-> no_char sep s.
Proof. reflexivity. Qed.

Lemma ipv4_literal_split (s a b c d : string) :
  dec_octet a -> dec_octet b -> dec_octet c -> dec_octet d ->
  s = a +:+ "." +:+ b +:+ "." +:+ c +:+ "." +:+ d ->
  split "." s = [a; b; c; d].
Proof.
  intros Ha Hb Hc Hd ->.
  change (a +:+ "." +:+ b +:+ "." +:+ c +:+ "." +:+ d) with (join "." [a; b; c; d]).
  apply split_join; [discriminate |].
  repeat constructor; apply dec_octet_no_char; simpl; auto.
Qed.

(** The dotted quad holds a dot, and neither [/], [:] nor [%]. *)
Lemma ipv4_literal_chars (s : string) :
  ipv4_literal s ->
  contains "." s = true /\ no_char "/" s /\ no_char ":" s /\ no_char "%" s.
Proof.
  intros (a & b & c & d & Ha & Hb & Hc & Hd & ->). split.
  - unfold contains. rewrite chars_app, existsb_app.
    change (chars ("." +:+ ?x)) with ("."%char :: chars x). simpl. apply orb_true_r.
  - repeat split; rewrite !no_char_app; repeat split;
      try reflexivity; apply dec_octet_no_char; simpl; auto.
Qed.

Lemma v4_ok (s : string) :
  (exists n, new_IPv4Address s = Return n) <-> ipv4_literal s.
Proof.
  unfold new_IPv4Address, v4_ip_int_from_string. split.
  - intros [n H].
    destruct (contains "/" s); [discriminate |].
    destruct (is_empty s); [discriminate |].
    destruct (split "." s) as [| a [| b [| c [| d [| x l]]]]] eqn:S;
      try (simpl in H; discriminate).
    change (bind (map_outcome _parse_octet [a; b; c; d])
                 (fun bs => Return (from_bytes bs)) = Return n) in H.
    unfold bind in H.
    destruct (map_outcome _parse_octet [a; b; c; d]) as [e | bs] eqn:M; [discriminate |].
    assert (F : Forall (fun x => exists y, _parse_octet x = Return y) [a; b; c; d])
      by (apply map_outcome_ok; eauto).
    exists a, b, c, d.
    inversion F as [| ? ? Fa F1]; subst. inversion F1 as [| ? ? Fb F2]; subst.
    inversion F2 as [| ? ? Fc F3]; subst. inversion F3 as [| ? ? Fd _]; subst.
    repeat split; try (now apply parse_octet_ok).
    rewrite <- (join_split "." s), S. reflexivity.
  - intros L. destruct (ipv4_literal_chars s L) as (Hdot & Hslash & _).
    destruct L as (a & b & c & d & Ha & Hb & Hc & Hd & E).
    apply contains_no_char in Hslash. rewrite Hslash.
    destruct (is_empty s) eqn:Es.
    { apply is_empty_true in Es. rewrite Es in Hdot. discriminate. }
    rewrite (ipv4_literal_split s a b c d Ha Hb Hc Hd E).
    change (exists n, bind (map_outcome _parse_octet [a; b; c; d])
                           (fun bs => Return (from_bytes bs)) = Return n).
    assert (F : Forall (fun x => exists y, _parse_octet x = Return y) [a; b; c; d])
      by (repeat constructor; now apply parse_octet_ok).
    apply map_outcome_ok in F as [bs M]. unfold bind. rewrite M. eauto.
Qed.

End IPv4.

(* ===================================================================== *)
(** * The IPv6 parser accepts the colon-hexadecimal forms *)
(* ===================================================================== *)

Section IPv6.
Import Py Ipaddress Grammar.

Lemma is_hex_digit_class (c : ascii) : is_hex_digit c = hex_digit c.
Proof. destruct c as [[] [] [] [] [] [] [] []]; reflexivity. Qed.

Lemma forallb_hex (s : string) :
  forallb is_hex_digit (chars s) = forallb hex_digit (chars s).
Proof.
  induction (chars s) as [| c l IH]; simpl; [reflexivity |].
  now rewrite IH, is_hex_digit_class.
Qed.

Lemma parse_hextet_ok (s : string) : returns (_parse_hextet s) <-> hextet s.
Proof.
  unfold _parse_hextet, hextet, returns. rewrite forallb_hex, strlen_length.
  destruct (forallb hex_digit (chars s)); simpl.
  2:{ split; [intros [n H]; discriminate | intros (_ & _ & H); discriminate]. }
  destruct (Z.ltb_spec 4 (Z.of_nat (String.length s))) as [L | L].
  { split; [intros [n H]; discriminate | intros (_ & H & _); lia]. }
  destruct (is_empty s) eqn:E.
  { apply is_empty_true in E. split; [intros [n H]; discriminate | tauto]. }
  apply is_empty_false in E. split; [| eauto].
  intros _. repeat split; [assumption | lia].
Qed.

Lemma parse_hextets_ok (l : list string) :
  forall acc, returns (parse_hextets acc l) <-> Forall hextet l.
Proof.
  induction l as [| h l IH]; intros acc; simpl.
  - split; [constructor | intros _; apply returns_Return].
  - rewrite returns_bind. split.
    + intros (v & Hv & R). constructor.
      * apply parse_hextet_ok. now exists v.
      * eapply IH. exact R.
    + intros H. inversion H as [| ? ? Hh Hl]; subst.
      apply parse_hextet_ok in Hh as [v Hv]. exists v. split; [exact Hv |].
      now apply IH.
Qed.

Lemma hextet_not_empty (s : string) : hextet s -> is_empty s = false.
Proof. intros (N & _). now apply is_empty_false. Qed.

Lemma hextet_no_char (s : string) (sep : ascii) :
  hextet s -> In sep (chars ".:/%") -> no_char sep s.
Proof.
  intros (_ & _ & D) H. eapply class_no_char; [exact D |].
  simpl in H. destruct H as [<- | [<- | [<- | [<- | []]]]]; reflexivity.
Qed.

(** ['%x' % n] is a group of hexadecimal digits. *)

Lemma hex_char_class (d : Z) : 0 <= d < 16 -> hex_digit (hex_char d) = true.
Proof.
  intros H.
  assert (C : d = 0 \/ d = 1 \/ d = 2 \/ d = 3 \/ d = 4 \/ d = 5 \/ d = 6 \/ d = 7
              \/ d = 8 \/ d = 9 \/ d = 10 \/ d = 11 \/ d = 12 \/ d = 13 \/ d = 14 \/ d = 15)
    by lia.
  repeat (destruct C as [-> | C]; [reflexivity |]). subst. reflexivity.
Qed.

Lemma hex_chars_class (fuel : nat) :
  forall n acc, 0 <= n ->
    forallb hex_digit acc = true -> forallb hex_digit (hex_chars fuel n acc) = true.
Proof.
  induction fuel as [| fuel IH]; intros n acc Hn Hacc; simpl; [exact Hacc |].
  assert (Hd : forallb hex_digit (hex_char (n mod 16) :: acc) = true).
  { simpl. rewrite Hacc, andb_true_r. apply hex_char_class. apply Z.mod_pos_bound. lia. }
  destruct (n / 16 =? 0); [exact Hd |].
  apply IH; [apply Z.div_pos; lia | exact Hd].
Qed.

Lemma hex_chars_length (fuel : nat) :
  forall n acc k, 0 <= n < 16 ^ Z.of_nat (S k) ->
    (length acc < length (hex_chars (S fuel) n acc) <= S k + length acc)%nat.
Proof.
  induction fuel as [| fuel IH]; intros n acc k Hn.
  - simpl. destruct (n / 16 =? 0); simpl; lia.
  - change (hex_chars (S (S fuel)) n acc)
      with (let acc' := hex_char (n mod 16) :: acc in
            if n / 16 =? 0 then acc' else hex_chars (S fuel) (n / 16) acc').
    cbv zeta. destruct (Z.eqb_spec (n / 16) 0) as [E | E]; [simpl; lia |].
    destruct k as [| k].
    { exfalso. apply E. apply Z.div_small. simpl in Hn. lia. }
    assert (Hq : 0 <= n / 16 < 16 ^ Z.of_nat (S k)).
    { split; [apply Z.div_pos; lia |].
      apply Z.div_lt_upper_bound; [lia |].
      replace (16 * 16 ^ Z.of_nat (S k)) with (16 ^ Z.of_nat (S (S k))); [lia |].
      rewrite (Nat2Z.inj_succ (S k)), Z.pow_succ_r by lia. reflexivity. }
    specialize (IH (n / 16) (hex_char (n mod 16) :: acc) k Hq).
    change (length (hex_char (n mod 16) :: acc)) with (S (length acc)) in IH. lia.
Qed.

Lemma format_hex_hextet (n : Z) : 0 <= n < 65536 -> hextet (format_hex n).
Proof.
  intros H. unfold format_hex, hextet.
  pose proof (hex_chars_length (Z.to_nat (Z.log2 n)) n [] 3) as L.
  change (length (@nil ascii)) with 0%nat in L.
  change (16 ^ Z.of_nat 4) with 65536 in L. specialize (L H).
  repeat split.
  - intros E. apply (f_equal chars) in E. rewrite chars_str in E.
    rewrite E in L. simpl in L. lia.
  - rewrite <- length_chars, chars_str. lia.
  - rewrite chars_str. apply hex_chars_class; [lia | reflexivity].
Qed.

Lemma land_65535 (x : Z) : 0 <= Z.land x 65535 < 65536.
Proof.
  change 65535 with (Z.ones 16). rewrite Z.land_ones by lia.
  apply Z.mod_pos_bound. reflexivity.
Qed.

(** The search for the one empty part in the middle. *)

Lemma find_skip_index_none (l : list string) :
  forall i acc, Forall (fun p => is_empty p = false) l -> find_skip_index l i acc = Return acc.
Proof.
  induction l as [| p l IH]; intros i acc H; simpl; [reflexivity |].
  inversion H as [| ? ? Hp Hl]; subst. rewrite Hp. now apply IH.
Qed.

Lemma find_skip_index_found (a b : list string) :
  forall i,
    Forall (fun p => is_empty p = false) a ->
    Forall (fun p => is_empty p = false) b ->
    find_skip_index (a ++ "" :: b) i None = Return (Some (i + length a)%nat).
Proof.
  induction a as [| p a IH]; intros i Ha Hb; simpl.
  - rewrite Nat.add_0_r. now apply find_skip_index_none.
  - inversion Ha as [| ? ? Hp Ha']; subst. rewrite Hp.
    rewrite (IH (S i) Ha' Hb). do 2 f_equal. lia.
Qed.

Lemma find_skip_index_some (l : list string) :
  forall i k, find_skip_index l i None = Return (Some k) ->
    exists a b, l = a ++ "" :: b /\ k = (i + length a)%nat.
Proof.
  induction l as [| p l IH]; intros i k; simpl; [discriminate |].
  destruct (is_empty p) eqn:E.
  - apply is_empty_true in E. subst p. intros H.
    exists [], l. split; [reflexivity |].
    assert (G : forall l' j, find_skip_index l' j (Some i) = Return (Some k) -> k = i).
    { clear. induction l' as [| q l' IH]; intros j; simpl.
      - now intros [= ->].
      - destruct (is_empty q); [discriminate | apply IH]. }
    apply G in H. simpl. lia.
  - intros H. apply IH in H as (a & b & -> & ->).
    exists (p :: a), b. split; [reflexivity | simpl; lia].
Qed.

(** A list of at least two parts, by its ends. *)
Lemma list_ends (l : list string) :
  (2 <= length l)%nat -> l = hd "" l :: removelast (tl l) ++ [List.last l ""].
Proof.
  destruct l as [| p0 l]; simpl; [lia |]. intros H.
  destruct l as [| p1 l]; simpl in H; [lia |].
  f_equal. change (match p1 :: l with [] => p0 | _ :: _ => List.last (p1 :: l) "" end)
    with (List.last (p1 :: l) "").
  simpl tl. apply app_removelast_last. discriminate.
Qed.

Lemma pad_not_nil (l : list string) : pad l <> [].
Proof. destruct l; discriminate. Qed.

Lemma length_pad (l : list string) : length (pad l) = Nat.max 1 (length l).
Proof. destruct l; simpl; lia. Qed.

Lemma pad_ends (l : list string) :
  Forall hextet l ->
  exists first rest last_ front,
    pad l = first :: rest /\ pad l = front ++ [last_]
    /\ Forall (fun p => is_empty p = false) rest
    /\ Forall (fun p => is_empty p = false) front
    /\ (l = [] -> first = "" /\ last_ = "" /\ rest = [] /\ front = [])
    /\ (l <> [] -> is_empty first = false /\ is_empty last_ = false).
Proof.
  intros H.
  assert (N : Forall (fun p => is_empty p = false) l)
    by (eapply List.Forall_impl; [apply hextet_not_empty | exact H]).
  destruct l as [| p l].
  - exists "", [], "", []. repeat split; try constructor; congruence.
  - destruct (exists_last (l := p :: l)) as (front & last_ & E); [discriminate |].
    exists p, l, last_, front. simpl pad. rewrite E at 2.
    inversion N as [| ? ? Hp Hl]; subst.
    rewrite E in N. apply Forall_app in N as [Nf Nl].
    inversion Nl as [| ? ? Hlast _]; subst.
    repeat split; try assumption; congruence.
Qed.

End IPv6.

Section IPv6Layout.
Import Py Ipaddress Grammar.

(** Where [::] stands between the groups [hi] and [lo], the layout block
    finds it and counts the groups on either side. *)
Lemma hextet_layout_compressed (hi lo : list string) :
  Forall hextet hi -> Forall hextet lo ->
  (length hi + length lo <= 7)%nat ->
  hextet_layout (pad hi ++ "" :: pad lo)
  = Return (length hi, length lo, (8 - (length hi + length lo))%nat).
Proof.
  intros Hhi Hlo Hlen.
  destruct (pad_ends hi Hhi) as (a0 & A' & al & A'' & EA & _ & NA & _ & ZA & PA).
  destruct (pad_ends lo Hlo) as (b0 & B'' & bl & B' & _ & EB & _ & NB & ZB & PB).
  assert (LA : length (pad hi) = S (length A')) by (rewrite EA; reflexivity).
  assert (LB : length (pad lo) = S (length B'))
    by (rewrite EB, length_app; simpl; lia).
  assert (Eparts : pad hi ++ "" :: pad lo = a0 :: (A' ++ "" :: B') ++ [bl]).
  { rewrite EA, EB. simpl. f_equal. rewrite <- app_assoc. reflexivity. }
  unfold hextet_layout. rewrite Eparts.
  assert (Elen : length (a0 :: (A' ++ "" :: B') ++ [bl]) = (length A' + length B' + 3)%nat).
  { simpl. rewrite !length_app. simpl. lia. }
  rewrite Elen.
  change (tl (a0 :: (A' ++ "" :: B') ++ [bl])) with ((A' ++ "" :: B') ++ [bl]).
  rewrite removelast_last.
  rewrite (find_skip_index_found A' B' 1 NA NB).
  change (hd "" (a0 :: (A' ++ "" :: B') ++ [bl])) with a0.
  change (a0 :: (A' ++ "" :: B') ++ [bl]) with ((a0 :: A' ++ "" :: B') ++ [bl]).
  rewrite last_last.
  replace (1 + length A')%nat with (S (length A')) by lia.
  unfold bind at 1. unfold Return at 1. cbv beta iota.
  replace (length A' + length B' + 3 - S (length A') - 1)%nat with (S (length B')) by lia.
  assert (Hh : (if is_empty a0
                then if negb (S (length A') - 1 =? 0)%nat then Raise ValueError
                     else Return (S (length A') - 1)%nat
                else Return (S (length A'))) = Return (length hi)).
  { destruct hi as [| h hi'].
    - destruct (ZA eq_refl) as (-> & _ & -> & _). reflexivity.
    - destruct PA as [Pa _]; [discriminate |]. rewrite Pa.
      simpl pad in LA. rewrite <- LA. reflexivity. }
  assert (Hl : (if is_empty bl
                then if negb (S (length B') - 1 =? 0)%nat then Raise ValueError
                     else Return (S (length B') - 1)%nat
                else Return (S (length B'))) = Return (length lo)).
  { destruct lo as [| l lo'].
    - destruct (ZB eq_refl) as (_ & -> & _ & ->). reflexivity.
    - destruct PB as [_ Pb]; [discriminate |]. rewrite Pb.
      simpl pad in LB. rewrite <- LB. reflexivity. }
  rewrite Hh, Hl. unfold bind, Return. cbv beta iota.
  destruct (Nat.ltb_spec _HEXTET_COUNT (length hi + length lo + 1)) as [L | L];
    [unfold _HEXTET_COUNT in L; lia | reflexivity].
Qed.

Lemma firstn_pad (hi rest : list string) : firstn (length hi) (pad hi ++ rest) = hi.
Proof.
  destruct hi as [| h hi]; [reflexivity |].
  change (pad (h :: hi)) with (h :: hi).
  rewrite firstn_app, firstn_all, Nat.sub_diag, firstn_O. apply app_nil_r.
Qed.

Lemma skipn_pad (front lo : list string) :
  skipn (length (front ++ "" :: pad lo) - length lo) (front ++ "" :: pad lo) = lo.
Proof.
  destruct lo as [| l lo].
  - rewrite Nat.sub_0_r. apply skipn_all.
  - change (pad (l :: lo)) with (l :: lo).
    change (front ++ "" :: l :: lo) with (front ++ [""] ++ l :: lo).
    rewrite app_assoc.
    replace (length ((front ++ [""]) ++ l :: lo) - length (l :: lo))%nat
      with (length (front ++ [""])) by (rewrite (length_app (front ++ [""])); lia).
    rewrite skipn_app, skipn_all, Nat.sub_diag. reflexivity.
Qed.

(** Conversely, a layout the block returns is that of the full form or of
    a [::] between two runs of parts. *)
Lemma hextet_layout_inv (parts : list string) (parts_hi parts_lo parts_skipped : nat) :
  (3 <= length parts)%nat ->
  hextet_layout parts = Return (parts_hi, parts_lo, parts_skipped) ->
  (length parts = 8%nat /\ parts_hi = 8%nat /\ parts_lo = 0%nat)
  \/ (exists hi lo,
        parts = pad hi ++ "" :: pad lo
        /\ parts_hi = length hi /\ parts_lo = length lo
        /\ (length hi + length lo <= 7)%nat).
Proof.
  intros Hlen. unfold hextet_layout.
  destruct (find_skip_index (removelast (tl parts)) 1 None) as [e | [k |]] eqn:F;
    unfold bind at 1; [discriminate | |].
  - (* a '::' was found *)
    apply find_skip_index_some in F as (a & b & Emid & ->).
    pose proof (list_ends parts ltac:(lia)) as Eparts. rewrite Emid in Eparts.
    set (p0 := hd "" parts) in *. set (pl := List.last parts "") in *.
    assert (Elen : length parts = (length a + length b + 3)%nat).
    { rewrite Eparts. simpl. rewrite !length_app. simpl. lia. }
    rewrite Elen.
    replace (length a + length b + 3 - (1 + length a) - 1)%nat with (S (length b)) by lia.
    intros H.
    assert (exists hi, p0 :: a = pad hi
                       /\ (if is_empty p0
                           then if negb (1 + length a - 1 =? 0)%nat then Raise ValueError
                                else Return (1 + length a - 1)%nat
                           else Return (1 + length a)%nat) = Return (length hi)) as (hi & Ehi & Hh).
    { destruct (is_empty p0) eqn:E0.
      - apply is_empty_true in E0. rewrite E0 in *.
        destruct a as [| x a]; [exists []; split; reflexivity |].
        exfalso. simpl in H. discriminate.
      - exists (p0 :: a). split; reflexivity. }
    rewrite Hh in H. unfold bind at 1 in H. unfold Return at 1 in H. cbv beta iota in H.
    assert (exists lo, b ++ [pl] = pad lo
                       /\ (if is_empty pl
                           then if negb (S (length b) - 1 =? 0)%nat then Raise ValueError
                                else Return (S (length b) - 1)%nat
                           else Return (S (length b))) = Return (length lo)) as (lo & Elo & Hl).
    { destruct (is_empty pl) eqn:El.
      - apply is_empty_true in El. rewrite El in *.
        destruct b as [| x b]; [exists []; split; reflexivity |].
        exfalso. simpl in H. discriminate.
      - exists (b ++ [pl]). split.
        + destruct b; reflexivity.
        + rewrite length_app. simpl. f_equal. lia. }
    rewrite Hl in H. unfold bind at 1 in H. unfold Return at 1 in H. cbv beta iota in H.
    destruct (Nat.ltb_spec _HEXTET_COUNT (length hi + length lo + 1)) as [L | L];
      [discriminate |].
    injection H as <- <- _. right. exists hi, lo. repeat split.
    + rewrite Eparts, <- Ehi, <- Elo. simpl. f_equal. rewrite <- app_assoc. reflexivity.
    + unfold _HEXTET_COUNT in L. lia.
  - (* no '::' *)
    destruct (Nat.eqb_spec (length parts) _HEXTET_COUNT) as [E | E]; simpl; [| discriminate].
    destruct (is_empty (hd "" parts)); [discriminate |].
    destruct (is_empty (List.last parts "")); [discriminate |].
    intros [= <- <- _]. left. rewrite E. repeat split.
Qed.

(** The parts the parser accepts once an IPv4 suffix has been expanded. *)
Lemma hextets_to_int_ok (parts : list string) :
  (3 <= length parts)%nat ->
  returns (hextets_to_int parts)
  <-> (length parts = 8%nat /\ Forall hextet parts)
      \/ (exists hi lo, Forall hextet hi /\ Forall hextet lo
                        /\ (length hi + length lo <= 7)%nat
                        /\ parts = pad hi ++ "" :: pad lo).
Proof.
  intros Hlen. unfold hextets_to_int. split.
  - destruct (Nat.ltb_spec (_HEXTET_COUNT + 1) (length parts)) as [L | L];
      [raised |].
    rewrite returns_bind. intros ([[parts_hi parts_lo] parts_skipped] & Hc & R).
    apply returns_bind in R as (ip_int & Hhi & R).
    assert (Fhi : Forall hextet (firstn parts_hi parts))
      by (eapply parse_hextets_ok; eexists; exact Hhi).
    apply parse_hextets_ok in R.
    apply (hextet_layout_inv _ _ _ _ Hlen) in Hc
      as [(E8 & -> & ->) | (hi & lo & E & -> & -> & Hsum)].
    + left. split; [exact E8 |]. rewrite <- E8, firstn_all in Fhi. exact Fhi.
    + right. exists hi, lo. rewrite E in Fhi, R.
      rewrite firstn_pad in Fhi. rewrite skipn_pad in R. auto.
  - intros [(E8 & F) | (hi & lo & Fhi & Flo & Hsum & ->)].
    + rewrite E8. change (_HEXTET_COUNT + 1 <? 8)%nat with false. cbv iota.
      assert (Hl : hextet_layout parts = Return (8%nat, 0%nat, 0%nat)).
      { assert (N : Forall (fun p => is_empty p = false) parts)
          by (eapply List.Forall_impl; [apply hextet_not_empty | exact F]).
        destruct parts as [| p1 [| p2 [| p3 [| p4 [| p5 [| p6 [| p7 [| p8 [| p9 l]]]]]]]]];
          try discriminate.
        repeat match goal with
               | H : Forall _ (_ :: _) |- _ => inversion H; subst; clear H
               end.
        unfold hextet_layout. simpl.
        repeat match goal with H : is_empty _ = false |- _ => rewrite H; clear H end.
        reflexivity. }
      apply returns_bind. eexists. split; [exact Hl |]. cbv beta iota.
      apply returns_bind.
      assert (R : returns (parse_hextets 0 (firstn 8 parts)))
        by (apply parse_hextets_ok; rewrite <- E8, firstn_all; exact F).
      destruct R as [v Hv]. exists v. split; [exact Hv |].
      apply parse_hextets_ok. rewrite Nat.sub_0_r, skipn_all2 by lia. constructor.
    + assert (L9 : (length (pad hi ++ "" :: pad lo) <= 9)%nat).
      { rewrite length_app. simpl. rewrite !length_pad. lia. }
      destruct (Nat.ltb_spec (_HEXTET_COUNT + 1) (length (pad hi ++ "" :: pad lo)))
        as [L | L]; [unfold _HEXTET_COUNT in L; lia |].
      apply returns_bind. eexists. split;
        [apply hextet_layout_compressed; assumption |].
      cbv beta iota. apply returns_bind.
      assert (R : returns (parse_hextets 0 (firstn (length hi) (pad hi ++ "" :: pad lo))))
        by (apply parse_hextets_ok; rewrite firstn_pad; exact Fhi).
      destruct R as [v Hv]. exists v. split; [exact Hv |].
      apply parse_hextets_ok. rewrite skipn_pad. exact Flo.
Qed.

End IPv6Layout.

Section IPv6Text.
Import Py Ipaddress Grammar.

Lemma join_pad_one (l : list string) : join ":" (pad l) = join ":" l.
Proof. destruct l; reflexivity. Qed.

Lemma join_pad (hi lo : list string) :
  join ":" (pad hi ++ "" :: pad lo) = join ":" hi +:+ "::" +:+ join ":" lo.
Proof.
  rewrite join_app by (apply pad_not_nil || discriminate).
  rewrite (join_cons ":" "" (pad lo)) by apply pad_not_nil.
  now rewrite !join_pad_one.
Qed.

Lemma no_char_empty (sep : ascii) : no_char sep "".
Proof. reflexivity. Qed.

Lemma pad_no_colon (l : list string) : Forall hextet l -> Forall (no_char ":") (pad l).
Proof.
  intros H. destruct l as [| h l].
  - repeat constructor.
  - eapply List.Forall_impl; [| exact H]. intros p Hp. apply hextet_no_char; simpl; auto.
Qed.

Lemma hextets_no_colon (l : list string) : Forall hextet l -> Forall (no_char ":") l.
Proof.
  intros H. eapply List.Forall_impl; [| exact H].
  intros p Hp. apply hextet_no_char; simpl; auto.
Qed.

Lemma split_length_not_empty (sep : ascii) (s : string) :
  (2 <= length (split sep s))%nat -> is_empty s = false.
Proof. destruct s; [simpl; lia | reflexivity]. Qed.

(** The last part of a run of groups holds no dot. *)
Lemma last_pad_no_dot (front lo : list string) :
  Forall hextet lo -> contains "." (List.last (front ++ "" :: pad lo) "") = false.
Proof.
  intros H. destruct lo as [| l lo].
  - change (front ++ "" :: pad []) with (front ++ [""; ""]).
    change (front ++ [""; ""]) with (front ++ [""] ++ [""]).
    rewrite app_assoc, last_last. reflexivity.
  - change (pad (l :: lo)) with (l :: lo).
    destruct (exists_last (l := l :: lo)) as (f & x & E); [discriminate |].
    rewrite E in *. change (front ++ "" :: f ++ [x]) with (front ++ ("" :: f) ++ [x]).
    rewrite app_assoc, last_last.
    apply Forall_app in H as [_ Hx]. inversion Hx; subst.
    apply contains_no_char. apply hextet_no_char; simpl; auto.
Qed.

Lemma two_last_cases (l : list string) :
  l = [] \/ (exists x, l = [x]) \/ (exists l' x y, l = l' ++ [x; y]).
Proof.
  destruct l as [| a l]; [now left | right].
  destruct (exists_last (l := a :: l)) as (f & y & E); [discriminate |].
  rewrite E. destruct f as [| b f]; [left; now exists y | right].
  destruct (exists_last (l := b :: f)) as (f' & x & E'); [discriminate |].
  rewrite E'. exists f', x, y. now rewrite <- app_assoc.
Qed.

(** Two non-empty parts at the end of a compressed layout belong to the
    run after [::]. *)
Lemma compressed_tail (front r hi lo : list string) (a b : string) :
  a <> "" -> b <> "" ->
  r ++ [a; b] = front ++ "" :: pad lo ->
  exists lo', lo = lo' ++ [a; b] /\ r = front ++ "" :: lo'.
Proof.
  intros Ha Hb E.
  change (r ++ [a; b]) with (r ++ [a] ++ [b]) in E. rewrite app_assoc in E.
  destruct (two_last_cases lo) as [-> | [[x ->] | (lo' & x & y & ->)]].
  - change (front ++ "" :: pad []) with (front ++ [""] ++ [""]) in E.
    rewrite app_assoc in E. apply app_inj_tail in E as [_ E]. congruence.
  - change (front ++ "" :: pad [x]) with (front ++ [""] ++ [x]) in E.
    rewrite app_assoc in E. apply app_inj_tail in E as [E _].
    apply app_inj_tail in E as [_ E]. congruence.
  - assert (P : pad (lo' ++ [x; y]) = lo' ++ [x; y]) by (destruct lo'; reflexivity).
    rewrite P in E.
    change (front ++ "" :: lo' ++ [x; y]) with (front ++ ("" :: lo') ++ [x] ++ [y]) in E.
    rewrite !app_assoc in E. apply app_inj_tail in E as [E <-].
    apply app_inj_tail in E as [E <-].
    exists lo'. split; [reflexivity |]. rewrite E. reflexivity.
Qed.

Lemma expand_hextets (n : Z) :
  hextet (format_hex (Z.land (Z.shiftr n 16) 65535)) /\ hextet (format_hex (Z.land n 65535)).
Proof. split; apply format_hex_hextet, land_65535. Qed.

Lemma hextet_neq_empty (s : string) : hextet s -> s <> "".
Proof. now intros (N & _). Qed.

(** The text the IPv6 parser accepts. *)
Lemma v6_ok (s : string) : returns (v6_ip_int_from_string s) <-> ipv6_plain s.
Proof.
  unfold v6_ip_int_from_string. split.
  - (* accepted text has one of the four forms *)
    destruct (is_empty s); [raised |].
    pose proof (join_split ":" s) as Es.
    destruct (Nat.ltb_spec (length (split ":" s)) 3) as [L | L];
      [raised |].
    set (parts := split ":" s) in *.
    rewrite returns_bind. intros (parts' & Ex & R). unfold expand_ipv4_suffix in Ex.
    destruct (contains "." (List.last parts "")) eqn:D.
    + (* with an IPv4 suffix *)
      destruct (new_IPv4Address (List.last parts "")) as [e | n] eqn:V4; [discriminate |].
      assert (Lv4 : ipv4_literal (List.last parts "")) by (apply v4_ok; eauto).
      unfold bind in Ex. injection Ex as <-.
      destruct (expand_hextets n) as [H1 H2].
      set (h1 := format_hex (Z.land (Z.shiftr n 16) 65535)) in *.
      set (h2 := format_hex (Z.land n 65535)) in *.
      assert (Ep : parts = removelast parts ++ [List.last parts ""])
        by (apply app_removelast_last; intros N; rewrite N in L; simpl in L; lia).
      set (r := removelast parts) in *. set (v4 := List.last parts "") in *.
      assert (Lr : (S (length r) = length parts)%nat)
        by (rewrite Ep, length_app; simpl; lia).
      apply hextets_to_int_ok in R; [| rewrite length_app; simpl; lia].
      destruct R as [(E8 & F) | (hi & lo & Fhi & Flo & Hsum & E)].
      * right; left. exists r, v4. rewrite length_app in E8. simpl in E8.
        apply Forall_app in F as [Fr _].
        repeat split; [lia | exact Fr | exact Lv4 | now rewrite <- Ep].
      * right; right; right.
        apply compressed_tail in E as (lo' & -> & Er);
          [| exact hi | now apply hextet_neq_empty | now apply hextet_neq_empty].
        apply Forall_app in Flo as [Flo' _].
        exists hi, lo', v4. rewrite length_app in Hsum. simpl in Hsum.
        repeat split; [exact Fhi | exact Flo' | exact Lv4 | lia |].
        rewrite <- Es, Ep, Er.
        assert (P : pad (lo' ++ [v4]) = lo' ++ [v4]) by (destruct lo'; reflexivity).
        rewrite <- join_pad, P, <- app_assoc. reflexivity.
    + (* without *)
      injection Ex as <-.
      apply hextets_to_int_ok in R; [| exact L].
      destruct R as [(E8 & F) | (hi & lo & Fhi & Flo & Hsum & E)].
      * left. exists parts. repeat split; [exact E8 | exact F | now rewrite Es].
      * right; right; left. exists hi, lo.
        repeat split; [exact Fhi | exact Flo | exact Hsum |].
        rewrite <- Es, E. apply join_pad.
  - (* text of each form is accepted *)
    intros [(gs & L8 & F & ->) | [(gs & v4 & L6 & F & Lv4 & ->)
            | [(hi & lo & Fhi & Flo & Hsum & ->) | (hi & lo & v4 & Fhi & Flo & Lv4 & Hsum & ->)]]].
    + (* eight groups *)
      assert (Sp : split ":" (join ":" gs) = gs).
      { apply split_join; [intros ->; discriminate | now apply hextets_no_colon]. }
      rewrite (split_length_not_empty ":") by (rewrite Sp; lia).
      rewrite Sp. destruct (Nat.ltb_spec (length gs) 3) as [L | L]; [lia |].
      apply returns_bind. exists gs. split.
      * unfold expand_ipv4_suffix.
        destruct (exists_last (l := gs)) as (f & x & E); [intros ->; discriminate |].
        rewrite E, last_last. rewrite E in F. apply Forall_app in F as [_ Fx].
        inversion Fx; subst.
        replace (contains "." x) with false; [reflexivity |].
        symmetry. apply contains_no_char, hextet_no_char; simpl; auto.
      * apply hextets_to_int_ok; [lia | left; auto].
    + (* six groups and a dotted quad *)
      destruct (ipv4_literal_chars v4 Lv4) as (Dot & _ & Colon & _).
      assert (Sp : split ":" (join ":" (gs ++ [v4])) = gs ++ [v4]).
      { apply split_join; [now destruct gs |].
        apply Forall_app. split; [now apply hextets_no_colon | now constructor]. }
      assert (Len : length (gs ++ [v4]) = 7%nat) by (rewrite length_app; simpl; lia).
      rewrite (split_length_not_empty ":") by (rewrite Sp; lia).
      rewrite Sp, Len. change (7 <? 3)%nat with false. cbv iota.
      apply v4_ok in Lv4 as [n V4].
      destruct (expand_hextets n) as [H1 H2].
      apply returns_bind. eexists. split.
      * unfold expand_ipv4_suffix. rewrite last_last, Dot, V4, removelast_last. reflexivity.
      * apply hextets_to_int_ok; [rewrite length_app; simpl; lia | left]. split.
        -- rewrite length_app. simpl. lia.
        -- apply Forall_app. split; [exact F |].
           constructor; [exact H1 | constructor; [exact H2 | constructor]].
    + (* '::' between groups *)
      rewrite <- join_pad.
      assert (Sp : split ":" (join ":" (pad hi ++ "" :: pad lo)) = pad hi ++ "" :: pad lo).
      { apply split_join; [now destruct (pad hi) |].
        apply Forall_app. split; [now apply pad_no_colon |].
        constructor; [apply no_char_empty | now apply pad_no_colon]. }
      assert (Len : (3 <= length (pad hi ++ "" :: pad lo))%nat).
      { rewrite length_app. simpl. rewrite !length_pad. lia. }
      rewrite (split_length_not_empty ":") by (rewrite Sp; lia).
      rewrite Sp. destruct (Nat.ltb_spec (length (pad hi ++ "" :: pad lo)) 3) as [L | L]; [lia |].
      apply returns_bind. eexists. split.
      * unfold expand_ipv4_suffix. rewrite last_pad_no_dot by assumption. reflexivity.
      * apply hextets_to_int_ok; [exact Len | right]. exists hi, lo. auto.
    + (* '::' and a dotted quad at the end *)
      destruct (ipv4_literal_chars v4 Lv4) as (Dot & _ & Colon & _).
      assert (P : pad (lo ++ [v4]) = lo ++ [v4]) by (destruct lo; reflexivity).
      rewrite <- join_pad, P.
      assert (Sp : split ":" (join ":" (pad hi ++ "" :: lo ++ [v4])) = pad hi ++ "" :: lo ++ [v4]).
      { apply split_join; [now destruct (pad hi) |].
        apply Forall_app. split; [now apply pad_no_colon |].
        constructor; [apply no_char_empty |].
        apply Forall_app. split; [now apply hextets_no_colon | now constructor]. }
      assert (Len : (3 <= length (pad hi ++ "" :: lo ++ [v4]))%nat).
      { rewrite length_app. simpl. rewrite length_app, length_pad. simpl. lia. }
      rewrite (split_length_not_empty ":") by (rewrite Sp; lia).
      rewrite Sp. destruct (Nat.ltb_spec (length (pad hi ++ "" :: lo ++ [v4])) 3) as [L | L]; [lia |].
      apply v4_ok in Lv4 as [n V4].
      destruct (expand_hextets n) as [H1 H2].
      set (h1 := format_hex (Z.land (Z.shiftr n 16) 65535)) in *.
      set (h2 := format_hex (Z.land n 65535)) in *.
      assert (El : pad hi ++ "" :: lo ++ [v4] = (pad hi ++ "" :: lo) ++ [v4])
        by (rewrite <- app_assoc; reflexivity).
      apply returns_bind. exists ((pad hi ++ "" :: lo) ++ [h1; h2]). split.
      * unfold expand_ipv4_suffix. rewrite El, last_last, Dot, V4, removelast_last. reflexivity.
      * assert (P2 : pad (lo ++ [h1; h2]) = lo ++ [h1; h2]) by (destruct lo; reflexivity).
        apply hextets_to_int_ok.
        -- rewrite !length_app. simpl. lia.
        -- right. exists hi, (lo ++ [h1; h2]). repeat split.
           ++ exact Fhi.
           ++ apply Forall_app. split; [exact Flo |].
              constructor; [exact H1 | constructor; [exact H2 | constructor]].
           ++ rewrite length_app. simpl. lia.
           ++ rewrite P2, <- app_assoc. reflexivity.
Qed.

End IPv6Text.

Section Validator.
Import Py Ipaddress Grammar Tracker.

Lemma partition_chars_absent (sep : ascii) (l : list ascii) :
  existsb (Ascii.eqb sep) l = false -> partition_chars sep l = (l, false, []).
Proof.
  induction l as [| c l IH]; simpl; [reflexivity |].
  intros H. apply orb_false_elim in H as [Hc Hl].
  rewrite Ascii.eqb_sym, Hc, (IH Hl). reflexivity.
Qed.

Lemma partition_chars_app (sep : ascii) (a b : list ascii) :
  existsb (Ascii.eqb sep) a = false -> partition_chars sep (a ++ sep :: b) = (a, true, b).
Proof.
  induction a as [| c a IH]; simpl.
  - intros _. now rewrite Ascii.eqb_refl.
  - intros H. apply orb_false_elim in H as [Hc Ha].
    rewrite Ascii.eqb_sym, Hc, (IH Ha). reflexivity.
Qed.

Lemma partition_chars_inv (sep : ascii) (l a b : list ascii) (found : bool) :
  partition_chars sep l = (a, found, b) ->
  existsb (Ascii.eqb sep) a = false
  /\ (if found then l = a ++ sep :: b else l = a /\ b = []).
Proof.
  revert a b found. induction l as [| c l IH]; intros a b found; simpl.
  - intros [= <- <- <-]. auto.
  - destruct (Ascii.eqb_spec c sep) as [-> | N].
    + intros [= <- <- <-]. auto.
    + destruct (partition_chars sep l) as [[a' f'] b'] eqn:P.
      intros [= <- <- <-]. destruct (IH a' b' f' eq_refl) as [Ha Hl]. split.
      * simpl. rewrite Ha, orb_false_r.
        destruct (Ascii.eqb_spec sep c); [congruence | reflexivity].
      * destruct f'; [now rewrite Hl | destruct Hl as [-> ->]; auto].
Qed.

Lemma no_char_join (c : ascii) (sep : string) (parts : list string) :
  no_char c sep -> Forall (no_char c) parts -> no_char c (join sep parts).
Proof.
  intros Hs. induction 1 as [| p ps Hp Hps IH]; [reflexivity |].
  destruct ps as [| q ps]; [exact Hp |].
  rewrite join_cons by discriminate. rewrite !no_char_app. auto.
Qed.

(** The colon-hexadecimal forms hold neither [/] nor [%]. *)
Lemma ipv6_plain_chars (s : string) (c : ascii) :
  ipv6_plain s -> In c (chars "/%") -> no_char c s.
Proof.
  intros H Hc.
  assert (Hsep : no_char c ":" /\ no_char c "::")
    by (simpl in Hc; destruct Hc as [<- | [<- | []]]; split; reflexivity).
  assert (Hh : forall l, Forall hextet l -> Forall (no_char c) l).
  { intros l F. eapply List.Forall_impl; [| exact F]. intros p Hp.
    apply hextet_no_char; [exact Hp |]. simpl in *. tauto. }
  assert (Hv : forall v4, ipv4_literal v4 -> no_char c v4).
  { intros v4 L. destruct (ipv4_literal_chars v4 L) as (_ & S & _ & P).
    simpl in Hc. destruct Hc as [<- | [<- | []]]; assumption. }
  destruct Hsep as [Hs1 Hs2].
  destruct H as [(gs & _ & F & ->) | [(gs & v4 & _ & F & Lv4 & ->)
            | [(hi & lo & Fhi & Flo & _ & ->) | (hi & lo & v4 & Fhi & Flo & Lv4 & _ & ->)]]].
  - apply no_char_join; auto.
  - apply no_char_join; [exact Hs1 |]. apply Forall_app. split; [auto |].
    constructor; [auto | constructor].
  - rewrite !no_char_app. repeat split; [| exact Hs2 |]; apply no_char_join; auto.
  - rewrite !no_char_app. repeat split; [| exact Hs2 |]; apply no_char_join; auto.
    apply Forall_app. split; [auto |]. constructor; [auto | constructor].
Qed.

Lemma zone_id_chars (z : string) :
  zone_id z <-> z <> "" /\ no_char "%" z /\ no_char "/" z.
Proof.
  unfold zone_id, no_char. split; intros (N & H); (split; [exact N |]).
  - induction (chars z) as [| c l IH]; cbn [existsb forallb] in *; [auto |].
    apply andb_prop in H as [Hc Hl]. destruct (IH Hl) as [-> ->].
    apply negb_true_iff, orb_false_elim in Hc as [H1 H2].
    rewrite (Ascii.eqb_sym "%" c), H1, (Ascii.eqb_sym "/" c), H2. auto.
  - destruct H as [H1 H2].
    induction (chars z) as [| c l IH]; cbn [existsb forallb] in *; [reflexivity |].
    apply orb_false_elim in H1 as [C1 L1]. apply orb_false_elim in H2 as [C2 L2].
    rewrite (IH L1 L2), andb_true_r.
    rewrite (Ascii.eqb_sym c "%"), C1, (Ascii.eqb_sym c "/"), C2. reflexivity.
Qed.

Lemma v6_address_ok (s : string) : returns (new_IPv6Address s) <-> ipv6_literal s.
Proof.
  unfold new_IPv6Address, _split_scope_id, ipv6_literal. split.
  - destruct (contains "/" s) eqn:Sl; [raised |].
    destruct (partition_chars "%" (chars s)) as [[a found] b] eqn:P.
    apply partition_chars_inv in P as [Ha Hl].
    destruct found; simpl.
    + destruct (is_empty (str b) || contains "%" (str b))%bool eqn:Z;
        [intros H; apply returns_bind in H as (x & Hx & _); discriminate |].
      apply orb_false_elim in Z as [Zb Zp].
      rewrite returns_bind. intros (x & [= <-] & R).
      apply returns_bind in R as (n & Hn & _).
      exists (str a). split; [apply v6_ok; now exists n |].
      right. exists (str b). split.
      * apply zone_id_chars. split; [now apply is_empty_false | split; [exact Zp |]].
        unfold contains in Sl. unfold no_char.
        rewrite Hl, existsb_app in Sl. apply orb_false_elim in Sl as [_ Sl].
        simpl in Sl. rewrite chars_str. exact Sl.
      * apply chars_inj. rewrite chars_app, chars_str.
        change (chars ("%" +:+ str b)) with ("%"%char :: chars (str b)).
        now rewrite chars_str.
    + destruct Hl as [Hl _].
      rewrite returns_bind. intros (n & Hn & _).
      exists s. split; [| now left].
      apply v6_ok. rewrite <- Hl, str_chars in Hn. now exists n.
  - intros (addr & Hp & Hs).
    pose proof (ipv6_plain_chars addr "/" Hp ltac:(simpl; auto)) as Nslash.
    pose proof (ipv6_plain_chars addr "%" Hp ltac:(simpl; auto)) as Npct.
    apply v6_ok in Hp as [n Hn].
    destruct Hs as [-> | (zone & Hz & ->)].
    + apply contains_no_char in Nslash. rewrite Nslash.
      rewrite (partition_chars_absent "%" _ Npct). cbv beta iota.
      change (negb false) with true. cbv iota. rewrite str_chars.
      apply returns_bind. eexists. split; [reflexivity |]. cbv beta iota.
      apply returns_bind. exists n. split; [exact Hn | apply returns_Return].
    + apply zone_id_chars in Hz as (Zn & Zp & Zs).
      assert (S : contains "/" (addr +:+ "%" +:+ zone) = false).
      { apply contains_no_char. rewrite !no_char_app. repeat split; auto. }
      rewrite S, chars_app.
      change (chars ("%" +:+ zone)) with ("%"%char :: chars zone).
      rewrite (partition_chars_app "%" _ _ Npct). cbv beta iota.
      change (negb true) with false. cbv iota. rewrite !str_chars.
      apply is_empty_false in Zn. apply contains_no_char in Zp. rewrite Zn, Zp.
      change (false || false)%bool with false. cbv iota.
      apply returns_bind. eexists. split; [reflexivity |]. cbv beta iota.
      apply returns_bind. exists n. split; [exact Hn | apply returns_Return].
Qed.

End Validator.

(* ===================================================================== *)
(** * The effect monad *)
(* ===================================================================== *)

Section Monad.
Import Py Effects Spec.

Lemma appends_ret {A : Type} (a : A) : appends (ret a).
Proof. intros t. unfold ret. simpl. now rewrite app_nil_r. Qed.

Lemma appends_raise {A : Type} (e : exn) : appends (@raise A e).
Proof. intros t. unfold raise. simpl. now rewrite app_nil_r. Qed.

Lemma appends_lift {A : Type} (o : outcome A) : appends (lift o).
Proof. intros t. unfold lift. simpl. now rewrite app_nil_r. Qed.

Lemma appends_emit (ev : event) : appends (emit ev).
Proof. intros t. reflexivity. Qed.

Lemma appends_mbind {A B : Type} (m : M A) (k : A -> M B) :
  appends m -> (forall a, appends (k a)) -> appends (mbind m k).
Proof.
  intros Hm Hk t. unfold mbind.
  rewrite (Hm t). destruct (m []) as [t1 [e | a]]; simpl.
  - reflexivity.
  - rewrite (Hk a (t ++ t1)), (Hk a t1). simpl. now rewrite app_assoc.
Qed.

Lemma appends_try_except {A : Type} (body : M A) (classes : exn -> bool) (handler : M A) :
  appends body -> appends handler -> appends (try_except body classes handler).
Proof.
  intros Hb Hh t. unfold try_except.
  rewrite (Hb t). destruct (body []) as [t1 [e | a]]; simpl; [| reflexivity].
  destruct (classes e); [| reflexivity].
  rewrite (Hh (t ++ t1)), (Hh t1). simpl. now rewrite app_assoc.
Qed.

End Monad.

Create HintDb appends.
#[global] Hint Resolve appends_ret appends_raise appends_lift appends_emit : appends.


(* ===================================================================== *)
(** * The normalizers *)
(* ===================================================================== *)

Section Normalizers.
Import Py Effects Tracker Spec.

(** On a decoded object every [geo_info.get] returns, and the three
    normalizers build these records. *)
Lemma ipapi_object (ip h : string) (d : gmap string value) :
  _process_ipapi_response ip h (JObject d)
  = Return
      {| ip := ip;
         hostname := h;
         location := {|
           country := Py.get d "country_name" (VStr "Unknown");
           country_code := Py.get d "country_code" (VStr "N/A");
           city := Py.get d "city" (VStr "Unknown");
           region := Py.get d "region" (VStr "Unknown");
           postal_code := Py.get d "postal" (VStr "N/A");
           latitude := Py.get d "latitude" (VFloat zero);
           longitude := Py.get d "longitude" (VFloat zero);
           timezone := Py.get d "timezone" (VStr "N/A");
           google_maps_link :=
             create_google_maps_link (Py.get d "latitude" (VFloat zero))
                                     (Py.get d "longitude" (VFloat zero)) |};
         network := {|
           organization := Py.get d "org" (VStr "Unknown");
           isp := Py.get d "isp" (VStr "Unknown");
           asn := Py.get d "asn" (VStr "Unknown") |} |}.
Proof. reflexivity. Qed.

Lemma ip_api_object (ip h : string) (d : gmap string value) :
  _process_ipapi_direct_response ip h (JObject d)
  = Return
      {| ip := ip;
         hostname := h;
         location := {|
           country := Py.get d "country" (VStr "Unknown");
           country_code := Py.get d "countryCode" (VStr "N/A");
           city := Py.get d "city" (VStr "Unknown");
           region := Py.get d "regionName" (VStr "Unknown");
           postal_code := Py.get d "zip" (VStr "N/A");
           latitude := Py.get d "lat" (VFloat zero);
           longitude := Py.get d "lon" (VFloat zero);
           timezone := Py.get d "timezone" (VStr "N/A");
           google_maps_link :=
             create_google_maps_link (Py.get d "lat" (VFloat zero))
                                     (Py.get d "lon" (VFloat zero)) |};
         network := {|
           organization := Py.get d "org" (VStr "Unknown");
           isp := Py.get d "isp" (VStr "Unknown");
           asn := VStr "N/A" |} |}.
Proof. reflexivity. Qed.

(** The ipinfo.io normalizer on a decoded object, once [loc] is read. *)
Lemma ipinfo_object (ip h : string) (d : gmap string value) :
  _process_ipinfo_response ip h (JObject d)
  = bind (value_split (Py.get d "loc" (VStr "0,0")) ",") (fun loc =>
    bind (index loc 0) (fun loc0 =>
    bind (float_of_string loc0) (fun lat =>
    bind (index loc 1) (fun loc1 =>
    bind (float_of_string loc1) (fun lon =>
    Return
      {| ip := ip;
         hostname := h;
         location := {|
           country := Py.get d "country" (VStr "Unknown");
           country_code := Py.get d "country" (VStr "N/A");
           city := Py.get d "city" (VStr "Unknown");
           region := Py.get d "region" (VStr "Unknown");
           postal_code := Py.get d "postal" (VStr "N/A");
           latitude := VFloat lat;
           longitude := VFloat lon;
           timezone := Py.get d "timezone" (VStr "N/A");
           google_maps_link := create_google_maps_link (VFloat lat) (VFloat lon) |};
         network := {|
           organization := Py.get d "org" (VStr "Unknown");
           isp := VStr "N/A";
           asn := VStr "N/A" |} |}))))).
Proof. reflexivity. Qed.

(** On any other document the first [geo_info.get] raises. *)
Lemma normalizers_on_other (ip h : string) :
  _process_ipapi_response ip h JOther = Raise AttributeError
  /\ _process_ipinfo_response ip h JOther = Raise AttributeError
  /\ _process_ipapi_direct_response ip h JOther = Raise AttributeError.
Proof. repeat split. Qed.

(** What a successful run of the ipinfo.io normalizer went through. *)
Lemma ipinfo_inv (ip hostname : string) (geo_info : Py.json) (r : LocationRecord) :
  _process_ipinfo_response ip hostname geo_info = Return r ->
  exists d s loc0 loc1 lat lon,
    geo_info = JObject d
    /\ Py.get d "loc" (VStr "0,0") = VStr s
    /\ nth_error (split "," s) 0 = Some loc0
    /\ float_of_string loc0 = Return lat
    /\ nth_error (split "," s) 1 = Some loc1
    /\ float_of_string loc1 = Return lon
    /\ r = {| ip := ip;
              hostname := hostname;
              location := {|
                country := Py.get d "country" (VStr "Unknown");
                country_code := Py.get d "country" (VStr "N/A");
                city := Py.get d "city" (VStr "Unknown");
                region := Py.get d "region" (VStr "Unknown");
                postal_code := Py.get d "postal" (VStr "N/A");
                latitude := VFloat lat;
                longitude := VFloat lon;
                timezone := Py.get d "timezone" (VStr "N/A");
                google_maps_link := create_google_maps_link (VFloat lat) (VFloat lon) |};
              network := {|
                organization := Py.get d "org" (VStr "Unknown");
                isp := VStr "N/A";
                asn := VStr "N/A" |} |}.
Proof.
  destruct geo_info as [d |]; [| discriminate].
  rewrite ipinfo_object. unfold value_split, index, bind.
  destruct (Py.get d "loc" (VStr "0,0")) as [| | | | s] eqn:L; try discriminate.
  unfold Return at 1.
  destruct (nth_error (split "," s) 0) as [loc0 |] eqn:E0; [| discriminate].
  unfold Return at 1.
  destruct (float_of_string loc0) as [e | lat] eqn:F0; [discriminate |].
  destruct (nth_error (split "," s) 1) as [loc1 |] eqn:E1; [| discriminate].
  unfold Return at 1.
  destruct (float_of_string loc1) as [e | lon] eqn:F1; [discriminate |].
  intros H. injection H as <-.
  exists d, s, loc0, loc1, lat, lon. repeat split; try assumption.
Qed.

Lemma ipapi_inv (ip h : string) (geo_info : Py.json) (r : LocationRecord) :
  _process_ipapi_response ip h geo_info = Return r ->
  exists d, geo_info = JObject d /\ _process_ipapi_response ip h (JObject d) = Return r.
Proof. destruct geo_info as [d |]; [eauto | discriminate]. Qed.

Lemma ip_api_inv (ip h : string) (geo_info : Py.json) (r : LocationRecord) :
  _process_ipapi_direct_response ip h geo_info = Return r ->
  exists d, geo_info = JObject d /\ _process_ipapi_direct_response ip h (JObject d) = Return r.
Proof. destruct geo_info as [d |]; [eauto | discriminate]. Qed.

Lemma ipinfo_hostname (ip h : string) (geo_info : Py.json) (r : LocationRecord) :
  _process_ipinfo_response ip h geo_info = Return r -> hostname r = h.
Proof.
  intros H.
  apply ipinfo_inv in H as (d & s & l0 & l1 & lat & lon & _ & _ & _ & _ & _ & _ & ->).
  reflexivity.
Qed.

(** The record of each normalizer carries the address and the host name
    it was given, and the link of its own coordinates. *)
Lemma normalizer_record (api : Api) (ip h : string) (geo_info : Py.json) (res : result) :
  normalize api ip h geo_info = Return (Some res) ->
  exists r, res = LocationResult r
            /\ Tracker.ip r = ip /\ hostname r = h
            /\ google_maps_link (location r)
               = create_google_maps_link (latitude (location r)) (longitude (location r)).
Proof.
  unfold normalize.
  destruct (String.eqb (name api) "ipapi.co").
  { destruct geo_info as [d |]; [| discriminate].
    rewrite ipapi_object. intros [= <-]. eexists. repeat split. }
  destruct (String.eqb (name api) "ipinfo.io").
  { destruct (_process_ipinfo_response ip h geo_info) as [e | r] eqn:E; [discriminate |].
    intros [= <-]. exists r.
    apply ipinfo_inv in E as (d & s & l0 & l1 & lat & lon & _ & _ & _ & _ & _ & _ & ->).
    repeat split. }
  destruct (String.eqb (name api) "ip-api.com"); [| discriminate].
  destruct geo_info as [d |]; [| discriminate].
  rewrite ip_api_object. intros [= <-]. eexists. repeat split.
Qed.

(** The dispatch never yields an error record, and the record it yields
    carries the host name it was given. *)
Lemma normalize_hostname (api : Api) (ip h : string) (geo_info : Py.json) (res : result) :
  normalize api ip h geo_info = Return (Some res) ->
  exists r, res = LocationResult r /\ hostname r = h.
Proof.
  intros H. apply normalizer_record in H as (r & -> & _ & Hh & _). eauto.
Qed.

(** The exceptions of the normalizers: those of [str.split], indexing,
    [float] and a missing method. *)
Lemma ipinfo_raises (ip h : string) (geo_info : Py.json) (e : exn) :
  _process_ipinfo_response ip h geo_info = Raise e ->
  e = ValueError \/ e = IndexError \/ e = AttributeError.
Proof.
  destruct geo_info as [d |]; [| intros [= <-]; now auto].
  rewrite ipinfo_object. unfold value_split, index, bind, float_of_string.
  destruct (Py.get d "loc" (VStr "0,0")) as [| | | | s]; try (intros [= <-]; now auto).
  unfold Return at 1.
  destruct (nth_error (split "," s) 0) as [loc0 |]; [| intros [= <-]; now auto].
  unfold Return at 1.
  destruct (strip_underscores _ (chars loc0)) as [l0 |]; [| intros [= <-]; now auto].
  destruct (parse_float (strip l0)); [| intros [= <-]; now auto].
  unfold Return at 1.
  destruct (nth_error (split "," s) 1) as [loc1 |]; [| intros [= <-]; now auto].
  unfold Return at 1.
  destruct (strip_underscores _ (chars loc1)) as [l1 |]; [| intros [= <-]; now auto].
  destruct (parse_float (strip l1)); [discriminate | intros [= <-]; now auto].
Qed.

Lemma normalize_raises (api : Api) (ip h : string) (geo_info : Py.json) (e : exn) :
  normalize api ip h geo_info = Raise e ->
  e = ValueError \/ e = IndexError \/ e = AttributeError.
Proof.
  unfold normalize.
  destruct (String.eqb (name api) "ipapi.co").
  { destruct geo_info as [d |]; [discriminate | intros [= <-]; now auto]. }
  destruct (String.eqb (name api) "ipinfo.io").
  { destruct (_process_ipinfo_response ip h geo_info) as [e' | r] eqn:E; [| discriminate].
    intros [= <-]. eapply ipinfo_raises; eassumption. }
  destruct (String.eqb (name api) "ip-api.com"); [| discriminate].
  destruct geo_info as [d |]; [discriminate | intros [= <-]; now auto].
Qed.

(** The dispatch never raises a [RequestException]. *)
Lemma ipinfo_not_request_exception (ip h : string) (geo_info : Py.json) :
  _process_ipinfo_response ip h geo_info <> Raise RequestException.
Proof. intros H. apply ipinfo_raises in H as [H | [H | H]]; discriminate. Qed.

Lemma normalize_not_request_exception (api : Api) (ip h : string) (geo_info : Py.json) :
  normalize api ip h geo_info <> Raise RequestException.
Proof. intros H. apply normalize_raises in H as [H | [H | H]]; discriminate. Qed.

Lemma get_absent (geo_info : gmap string value) (key : string) (default : value) :
  geo_info !! key = None -> Py.get geo_info key default = default.
Proof. intros E. unfold Py.get. now rewrite E. Qed.

(** Without a [loc] the ipinfo.io normalizer works on "0,0". *)
Lemma ipinfo_missing_loc (ip h : string) (d : gmap string value) :
  d !! "loc" = None ->
  exists r, _process_ipinfo_response ip h (JObject d) = Return r
            /\ latitude (location r) = VFloat zero
            /\ longitude (location r) = VFloat zero
            /\ google_maps_link (location r) = "No coordinates available".
Proof.
  intros E. rewrite ipinfo_object, (get_absent _ _ _ E).
  eexists. split; [reflexivity |]. repeat split; reflexivity.
Qed.

(** The normalizers on the sample answers. *)
Example ipapi_on_united_states :
  exists r,
    _process_ipapi_response "8.8.8.8" "dns.google" (JObject Worlds.united_states) = Return r
    /\ latitude (location r) = VFloat Worlds.f37_4
    /\ country (location r) = VStr "United States"
    /\ asn (network r) = VStr "AS15169"
    /\ city (location r) = VStr "Unknown"
    /\ google_maps_link (location r)
       = "https://www.google.com/maps/search/?api=1&query=37.4,-122.1".
Proof. eexists. split; [reflexivity |]. vm_compute. repeat split; reflexivity. Qed.

Example ipinfo_on_london :
  exists r,
    _process_ipinfo_response "8.8.8.8" "dns.google" (JObject Worlds.london) = Return r
    /\ to_str (latitude (location r)) = "51.5"
    /\ to_str (longitude (location r)) = "-0.1"
    /\ google_maps_link (location r)
       = "https://www.google.com/maps/search/?api=1&query=51.5,-0.1".
Proof. eexists. split; [vm_compute; reflexivity |]. vm_compute. repeat split; reflexivity. Qed.

(** The helper of the single-provider class does escape its query. *)
Lemma single_provider_link_is_escaped (latitude longitude : value) :
  (eq_zero latitude && eq_zero longitude)%bool = false ->
  Simple.create_google_maps_link latitude longitude = percent_encoded_link latitude longitude.
Proof.
  intros H. unfold Simple.create_google_maps_link, percent_encoded_link.
  rewrite H. reflexivity.
Qed.

(** The string fields of each normalizer's record are those of its
    table of sources, and the coordinates a provider omits are 0.0. *)
Lemma ipapi_fields (ip h : string) (d : gmap string value) (r : LocationRecord) :
  _process_ipapi_response ip h (JObject d) = Return r ->
  string_fields r = map (field_value d) (sources "ipapi.co")
  /\ latitude (location r) = Py.get d "latitude" (VFloat zero)
  /\ longitude (location r) = Py.get d "longitude" (VFloat zero).
Proof. rewrite ipapi_object. intros [= <-]. repeat split. Qed.

Lemma ipinfo_fields (ip h : string) (d : gmap string value) (r : LocationRecord) :
  _process_ipinfo_response ip h (JObject d) = Return r ->
  string_fields r = map (field_value d) (sources "ipinfo.io")
  /\ (d !! "loc" = None ->
      latitude (location r) = VFloat zero /\ longitude (location r) = VFloat zero).
Proof.
  intros R. split.
  - apply ipinfo_inv in R as (d' & s & l0 & l1 & lat & lon & [= <-] & _ & _ & _ & _ & _ & ->).
    reflexivity.
  - intros E. destruct (ipinfo_missing_loc ip h d E) as (r' & R' & A & B & _).
    rewrite R in R'. injection R' as <-. now split.
Qed.

Lemma ip_api_fields (ip h : string) (d : gmap string value) (r : LocationRecord) :
  _process_ipapi_direct_response ip h (JObject d) = Return r ->
  string_fields r = map (field_value d) (sources "ip-api.com")
  /\ latitude (location r) = Py.get d "lat" (VFloat zero)
  /\ longitude (location r) = Py.get d "lon" (VFloat zero).
Proof. rewrite ip_api_object. intros [= <-]. repeat split. Qed.

(** Whichever normalizer the dispatch chose, its record is made of a
    decoded object, by the table of its provider. *)
Lemma normalize_fields (api : Api) (ip h : string) (geo_info : Py.json) (r : LocationRecord) :
  normalize api ip h geo_info = Return (Some (LocationResult r)) ->
  exists d, geo_info = JObject d
            /\ string_fields r = map (field_value d) (sources (name api))
            /\ (d !! fst (coordinate_keys (name api)) = None ->
                latitude (location r) = VFloat zero)
            /\ (d !! snd (coordinate_keys (name api)) = None ->
                longitude (location r) = VFloat zero).
Proof.
  unfold normalize, sources, coordinate_keys.
  destruct (String.eqb (name api) "ipapi.co").
  { destruct geo_info as [d |]; [| discriminate].
    destruct (_process_ipapi_response ip h (JObject d)) as [e | r'] eqn:E; [discriminate |].
    intros [= <-]. apply ipapi_fields in E as (F & A & B).
    exists d. rewrite A, B. repeat split; [exact F | |]; apply get_absent. }
  destruct (String.eqb (name api) "ipinfo.io").
  { destruct geo_info as [d |]; [| discriminate].
    destruct (_process_ipinfo_response ip h (JObject d)) as [e | r'] eqn:E; [discriminate |].
    intros [= <-]. apply ipinfo_fields in E as (F & L).
    exists d. repeat split; [exact F | |]; intros N; now apply L in N. }
  destruct (String.eqb (name api) "ip-api.com"); [| discriminate].
  destruct geo_info as [d |]; [| discriminate].
  destruct (_process_ipapi_direct_response ip h (JObject d)) as [e | r'] eqn:E; [discriminate |].
  intros [= <-]. apply ip_api_fields in E as (F & A & B).
  exists d. rewrite A, B. repeat split; [exact F | |]; apply get_absent.
Qed.

End Normalizers.

(* ===================================================================== *)
(** * The provider loop and the resolver *)
(* ===================================================================== *)

Section Resolver.
Import Py Effects Tracker Spec.
Local Open Scope effect_scope.

(** The world the lookup runs in and the address looked up. *)
Variable w : World.
Variable ip : string.

Lemma appends_get (u : string) (timeout : Z) : appends (Effects.get w u timeout).
Proof.
  apply appends_mbind; [auto with appends |].
  intros _. destruct (requests_get w u timeout); auto with appends.
Qed.

Lemma appends_json (r : Response) : appends (json r).
Proof. unfold json. destruct (body r); auto with appends. Qed.

Lemma appends_attempt (hostname : string) (api : Api) :
  appends (attempt w ip hostname api).
Proof.
  unfold attempt.
  apply appends_mbind; [apply appends_get | intros r].
  apply appends_mbind.
  - destruct (status_code r =? 200); [| auto with appends].
    apply appends_mbind; [apply appends_json | intros g; auto with appends].
  - intros [res |]; [auto with appends |].
    apply appends_mbind; [apply appends_emit | intros _; auto with appends].
Qed.

Lemma appends_for_apis (hostname : string) (l : list Api) :
  appends (for_apis w ip hostname l).
Proof.
  induction l as [| api rest IH]; simpl.
  - auto with appends.
  - apply appends_mbind.
    + apply appends_try_except; [apply appends_attempt | auto with appends].
    + intros [res |]; [auto with appends | exact IH].
Qed.

(** One turn of the loop, by the outcome of the attempt. *)

Lemma for_apis_transport_error (hostname : string) (api : Api) (rest : list Api) t :
  transport_error w ip api ->
  for_apis w ip hostname (api :: rest) t
  = for_apis w ip hostname rest (t ++ [Get (endpoint ip api) 5]).
Proof.
  unfold transport_error, endpoint. intros H. simpl.
  unfold mbind, try_except, attempt, Effects.get, mbind, emit. simpl.
  rewrite H. reflexivity.
Qed.

Lemma for_apis_non_success (hostname : string) (api : Api) (rest : list Api) t :
  non_success_status w ip api ->
  for_apis w ip hostname (api :: rest) t
  = for_apis w ip hostname rest (t ++ [Get (endpoint ip api) 5; Sleep 1]).
Proof.
  unfold non_success_status, endpoint. intros (r & H & Hs). simpl.
  unfold mbind, try_except, attempt, Effects.get, mbind, emit. simpl.
  rewrite H. simpl.
  destruct (Z.eqb_spec (status_code r) 200) as [E | _]; [contradiction |].
  simpl. unfold sleep, emit. simpl. now rewrite <- app_assoc.
Qed.

Lemma for_apis_unparseable (hostname : string) (api : Api) (rest : list Api) t :
  unparseable_body w ip api ->
  for_apis w ip hostname (api :: rest) t
  = for_apis w ip hostname rest (t ++ [Get (endpoint ip api) 5]).
Proof.
  unfold unparseable_body, endpoint. intros (r & H & Hs & Hb). simpl.
  unfold mbind, try_except, attempt, Effects.get, mbind, emit. simpl.
  rewrite H. simpl. rewrite Hs. simpl. unfold json. rewrite Hb. reflexivity.
Qed.

Lemma for_apis_succeeds (hostname : string) (api : Api) (rest : list Api)
      (geo_info : Py.json) t :
  succeeds w ip api geo_info ->
  for_apis w ip hostname (api :: rest) t
  = match normalize api ip hostname geo_info with
    | inl e => if exn_eqb RequestException e
               then for_apis w ip hostname rest (t ++ [Get (endpoint ip api) 5])
               else (t ++ [Get (endpoint ip api) 5], Raise e)
    | inr (Some r) => (t ++ [Get (endpoint ip api) 5], Return r)
    | inr None => for_apis w ip hostname rest (t ++ [Get (endpoint ip api) 5; Sleep 1])
    end.
Proof.
  unfold succeeds, endpoint. intros (r & H & Hs & Hb). simpl.
  unfold mbind, try_except, attempt, Effects.get, mbind, emit. simpl.
  rewrite H. simpl. rewrite Hs. simpl. unfold json. rewrite Hb. simpl.
  unfold lift.
  destruct (normalize api ip hostname geo_info) as [e | [res |]]; simpl.
  - destruct e; reflexivity.
  - reflexivity.
  - unfold sleep, emit. simpl. now rewrite <- app_assoc.
Qed.

(** Every attempt has one of the four outcomes. *)
Lemma attempt_outcome (api : Api) :
  fails w ip api \/ exists geo_info, succeeds w ip api geo_info.
Proof.
  unfold fails, transport_error, non_success_status, unparseable_body, succeeds.
  destruct (requests_get w (endpoint ip api) 5) as [r |] eqn:E; [| now left; left].
  destruct (Z.eq_dec (status_code r) 200) as [Hs | Hs].
  - destruct (body r) as [g |] eqn:B.
    + right. exists g, r. auto.
    + left. right. right. exists r. auto.
  - left. right. left. exists r. auto.
Qed.

(** A failed attempt moves the loop on; it adds its request to the trace,
    and nothing but the delay besides. *)
Lemma for_apis_fails (hostname : string) (api : Api) (rest : list Api) t :
  fails w ip api ->
  exists delay,
    for_apis w ip hostname (api :: rest) t
    = for_apis w ip hostname rest (t ++ Get (endpoint ip api) 5 :: delay)
    /\ fetched delay = [].
Proof.
  intros [H | [H | H]].
  - exists []. split; [now apply for_apis_transport_error | reflexivity].
  - exists [Sleep 1]. split; [now apply for_apis_non_success | reflexivity].
  - exists []. split; [now apply for_apis_unparseable | reflexivity].
Qed.

Lemma fetched_app (t1 t2 : list event) : fetched (t1 ++ t2) = fetched t1 ++ fetched t2.
Proof. unfold fetched. apply flat_map_app. Qed.

(** Past a run of failing providers. *)
Lemma for_apis_skip (hostname : string) (pre l : list Api) :
  Forall (fails w ip) pre ->
  forall t, exists t',
    for_apis w ip hostname (pre ++ l) t = for_apis w ip hostname l (t ++ t')
    /\ fetched t' = map (endpoint ip) pre.
Proof.
  induction 1 as [| api pre Hf _ IH]; intros t.
  - exists []. now rewrite app_nil_r.
  - destruct (for_apis_fails hostname api (pre ++ l) t Hf) as (d & E & Hd).
    destruct (IH (t ++ Get (endpoint ip api) 5 :: d)) as (t' & E' & Ht').
    exists ((Get (endpoint ip api) 5 :: d) ++ t'). split.
    + simpl app at 1. rewrite E, E'. now rewrite <- app_assoc.
    + rewrite fetched_app, Ht'.
      change (fetched (Get (endpoint ip api) 5 :: d)) with (endpoint ip api :: fetched d).
      rewrite Hd. reflexivity.
Qed.

(** When every provider fails the loop ends in the error record. *)
Lemma for_apis_exhausted (hostname : string) (l : list Api) :
  Forall (fails w ip) l ->
  forall t, snd (for_apis w ip hostname l t)
            = Return (ErrorResult "Failed to retrieve geolocation from all APIs").
Proof.
  intros H t.
  destruct (for_apis_skip hostname l [] H t) as (t' & E & _).
  rewrite app_nil_r in E. rewrite E. reflexivity.
Qed.

(** A record the loop returns carries the host name the loop was given. *)
Lemma for_apis_hostname (h : string) (l : list Api) :
  forall t r, snd (for_apis w ip h l t) = Return (LocationResult r) -> hostname r = h.
Proof.
  induction l as [| api rest IH]; intros t r.
  - simpl. discriminate.
  - destruct (attempt_outcome api) as [Hf | [g Hs]].
    + destruct (for_apis_fails h api rest t Hf) as (d & E & _).
      rewrite E. apply IH.
    + rewrite (for_apis_succeeds h api rest g t Hs).
      destruct (normalize api ip h g) as [e | [res |]] eqn:N.
      * destruct (exn_eqb RequestException e); [apply IH | discriminate].
      * simpl. intros [= ->].
        apply normalize_hostname in N as (r' & [= <-] & Hh). exact Hh.
      * apply IH.
Qed.

(** What [socket.gethostbyaddr] raises when it refuses its argument. *)
Lemma hostname_argument_raises (s : string) (e : exn) :
  hostname_argument s = Raise e -> e = UnicodeError \/ e = TypeError.
Proof.
  unfold hostname_argument, idna_encode, bind.
  destruct (negb (is_ascii s)); [intros [= <-]; now left |].
  destruct (forallb _ _ && _)%bool; [| intros [= <-]; now left].
  destruct (Ipaddress.contains _ s); [intros [= <-]; now right | discriminate].
Qed.

(** The lookup of a valid address that the reverse lookup accepts: one
    reverse lookup, then the loop. *)
Lemma get_detailed_geolocation_valid :
  validate_ip_address ip = Return true ->
  resolvable ip ->
  run (get_detailed_geolocation w ip)
  = for_apis w ip (resolved_hostname w ip) apis [Gethostbyaddr ip].
Proof.
  unfold resolvable. intros V A.
  unfold run, get_detailed_geolocation, mbind, lift. rewrite V. simpl.
  unfold try_except, socket_gethostbyaddr, mbind, emit, lift, resolved_hostname. simpl.
  rewrite A.
  destruct (gethostbyaddr w ip) as [[|] | h]; reflexivity.
Qed.

(** The lookup of a valid address that the reverse lookup refuses ends
    with the exception of the refusal, before any request. *)
Lemma get_detailed_geolocation_refused (e : exn) :
  validate_ip_address ip = Return true ->
  hostname_argument ip = Raise e ->
  run (get_detailed_geolocation w ip) = ([Gethostbyaddr ip], Raise e).
Proof.
  intros V A. pose proof (hostname_argument_raises ip e A) as E.
  unfold run, get_detailed_geolocation, mbind, lift. rewrite V. simpl.
  unfold try_except, socket_gethostbyaddr, mbind, emit, lift. simpl.
  rewrite A. destruct E as [-> | ->]; reflexivity.
Qed.

(** The reverse lookup accepts its argument or refuses it. *)
Lemma resolvable_or_refused :
  resolvable ip \/ exists e, hostname_argument ip = Raise e.
Proof.
  unfold resolvable. destruct (hostname_argument ip) as [e | []]; eauto.
Qed.

(** The validator never raises. *)
Lemma validate_ip_address_total :
  validate_ip_address ip = Return true \/ validate_ip_address ip = Return false.
Proof.
  unfold validate_ip_address, Ipaddress.ip_address.
  destruct (Ipaddress.new_IPv4Address ip) as [e4 | n4]; [| now left].
  destruct (Ipaddress.new_IPv6Address ip) as [e6 | [n6 sc]]; [now right | now left].
Qed.

(** The names of the configured providers. *)
Lemma api_names (api : Api) :
  In api apis ->
  name api = "ipapi.co" \/ name api = "ipinfo.io" \/ name api = "ip-api.com".
Proof. simpl. intros [<- | [<- | [<- | []]]]; auto. Qed.

(** The events of the loop: what it appends to any trace. *)
Lemma for_apis_events (h : string) (l : list Api) t :
  fst (for_apis w ip h l t) = t ++ loop_events w ip h l.
Proof. rewrite (appends_for_apis h l t). reflexivity. Qed.

Lemma loop_events_continue (h : string) (api : Api) (rest : list Api) d :
  for_apis w ip h (api :: rest) [] = for_apis w ip h rest ([] ++ Get (endpoint ip api) 5 :: d) ->
  loop_events w ip h (api :: rest) = Get (endpoint ip api) 5 :: d ++ loop_events w ip h rest.
Proof.
  intros E. unfold loop_events at 1. rewrite E, for_apis_events. reflexivity.
Qed.

(** Whatever the loop does, it starts with a request. *)
Lemma loop_events_head (h : string) (l : list Api) :
  loop_events w ip h l = []
  \/ exists u rest, loop_events w ip h l = Get u 5 :: rest.
Proof.
  destruct l as [| api rest]; [now left | right].
  destruct (attempt_outcome api) as [Hf | [g Hs]].
  - destruct (for_apis_fails h api rest [] Hf) as (d & E & _).
    rewrite (loop_events_continue h api rest d E). eauto.
  - unfold loop_events. rewrite (for_apis_succeeds h api rest g [] Hs).
    destruct (normalize api ip h g) as [e | [res |]].
    + destruct (exn_eqb RequestException e); [rewrite for_apis_events |]; simpl; eauto.
    + simpl; eauto.
    + rewrite for_apis_events. simpl; eauto.
Qed.

(** The delay rule of the loop: after each request, the one-second pause
    follows a non-success status, and no pause follows a transport error. *)
Lemma loop_delay_rule (h : string) (l : list Api) :
  forall pre u timeout post,
    loop_events w ip h l = pre ++ Get u timeout :: post ->
    (forall r, requests_get w u timeout = Some r -> status_code r <> 200 ->
               exists post', post = Sleep 1 :: post')
    /\ (requests_get w u timeout = None ->
        post = [] \/ exists u' post', post = Get u' 5 :: post').
Proof.
  induction l as [| api rest IH]; intros pre u timeout post.
  { destruct pre; discriminate. }
  destruct (attempt_outcome api) as [[Ht | [Hn | Hu]] | [g Hs]].
  - (* transport error *)
    rewrite (loop_events_continue h api rest []
               (for_apis_transport_error h api rest [] Ht)).
    destruct pre as [| ev pre]; simpl; intros [= ? ?]; subst.
    + split.
      * intros r Hr. unfold transport_error in Ht. congruence.
      * intros _. destruct (loop_events_head h rest) as [-> | (u' & p & ->)]; eauto.
    + eapply IH; eassumption.
  - (* non-success status *)
    rewrite (loop_events_continue h api rest [Sleep 1]
               (for_apis_non_success h api rest [] Hn)).
    destruct pre as [| ev pre]; simpl; intros [= ? ?]; subst.
    + split; [eauto |].
      destruct Hn as (r & Hr & _). congruence.
    + destruct pre as [| ev' pre]; simpl in *; [discriminate |].
      match goal with H : Sleep 1 :: _ = _ |- _ => injection H as ? ? end.
      eapply IH; eassumption.
  - (* body that does not decode *)
    rewrite (loop_events_continue h api rest []
               (for_apis_unparseable h api rest [] Hu)).
    destruct pre as [| ev pre]; simpl; intros [= ? ?]; subst.
    + destruct Hu as (r & Hr & Hs & _). split.
      * intros r' Hr' Hs'. congruence.
      * congruence.
    + eapply IH; eassumption.
  - (* success *)
    unfold loop_events at 1. rewrite (for_apis_succeeds h api rest g [] Hs).
    assert (Hok : forall r, requests_get w (endpoint ip api) 5 = Some r -> status_code r = 200).
    { destruct Hs as (r & Hr & Hs & _). intros r' Hr'. congruence. }
    destruct (normalize api ip h g) as [e | [res |]].
    + destruct (exn_eqb RequestException e).
      * rewrite for_apis_events.
        destruct pre as [| ev pre]; simpl; intros [= ? ?]; subst.
        -- destruct Hs as (r & Hr & _). split; [intros r' Hr' N; exfalso; exact (N (Hok r' Hr')) | congruence].
        -- eapply IH; eassumption.
      * destruct pre as [| ev pre]; simpl; intros [= ? ?]; subst.
        -- destruct Hs as (r & Hr & _). split; [intros r' Hr' N; exfalso; exact (N (Hok r' Hr')) | congruence].
        -- destruct pre; discriminate.
    + destruct pre as [| ev pre]; simpl; intros [= ? ?]; subst.
      * destruct Hs as (r & Hr & _). split; [intros r' Hr' N; exfalso; exact (N (Hok r' Hr')) | congruence].
      * destruct pre; discriminate.
    + rewrite for_apis_events.
      destruct pre as [| ev pre]; simpl; intros [= ? ?]; subst.
      * destruct Hs as (r & Hr & _). split; [eauto | congruence].
      * destruct pre as [| ev' pre]; simpl in *; [discriminate |].
        match goal with H : Sleep 1 :: _ = _ |- _ => injection H as ? ? end.
        eapply IH; eassumption.
Qed.

(** The requests of the loop go to the providers of the list, in order,
    without gap or repetition. *)
Lemma loop_fetched_prefix (h : string) (l : list Api) :
  exists n, fetched (loop_events w ip h l) = map (endpoint ip) (firstn n l).
Proof.
  induction l as [| api rest (n & IH)]; [now exists 0%nat |].
  destruct (attempt_outcome api) as [Hf | [g Hs]].
  - destruct (for_apis_fails h api rest [] Hf) as (d & E & Hd).
    rewrite (loop_events_continue h api rest d E).
    exists (S n).
    change (fetched (Get (endpoint ip api) 5 :: d ++ loop_events w ip h rest))
      with (endpoint ip api :: fetched (d ++ loop_events w ip h rest)).
    rewrite fetched_app, Hd, IH. reflexivity.
  - unfold loop_events at 1. rewrite (for_apis_succeeds h api rest g [] Hs).
    destruct (normalize api ip h g) as [e | [res |]].
    + destruct (exn_eqb RequestException e).
      * exists (S n). rewrite for_apis_events, fetched_app, IH. reflexivity.
      * now exists 1%nat.
    + now exists 1%nat.
    + exists (S n). rewrite for_apis_events, fetched_app, IH. reflexivity.
Qed.

(** The request URLs of the three providers. *)
Lemma endpoints :
  map (endpoint ip) apis
  = [ "https://ipapi.co/" +:+ ip +:+ "/json/";
      "https://ipinfo.io/" +:+ ip +:+ "/json";
      "https://ip-api.com/json/" +:+ ip ].
Proof.
  assert (A : forall a b, str (a ++ b) = str a +:+ str b).
  { intros a b. apply chars_inj. now rewrite chars_app, !chars_str. }
  unfold endpoint, format. simpl map. rewrite !A, str_chars.
  change (str []) with "". rewrite append_nil_r. reflexivity.
Qed.

(** A record the loop returns is what the dispatch made of the answer of
    one of the providers of the list. *)
Lemma for_apis_result_inv (h : string) (l : list Api) :
  forall t r, snd (for_apis w ip h l t) = Return (LocationResult r) ->
    exists api geo_info,
      In api l /\ succeeds w ip api geo_info
      /\ normalize api ip h geo_info = Return (Some (LocationResult r)).
Proof.
  induction l as [| api rest IH]; intros t r.
  - simpl. discriminate.
  - assert (Step : forall t', snd (for_apis w ip h rest t') = Return (LocationResult r) ->
                     exists api' g, In api' (api :: rest) /\ succeeds w ip api' g
                       /\ normalize api' ip h g = Return (Some (LocationResult r))).
    { intros t' H. apply IH in H as (api' & g & Hin & Hs & N).
      exists api', g. repeat split; [now right | assumption | assumption]. }
    destruct (attempt_outcome api) as [Hf | [g Hs]].
    + destruct (for_apis_fails h api rest t Hf) as (d & E & _).
      rewrite E. apply Step.
    + rewrite (for_apis_succeeds h api rest g t Hs).
      destruct (normalize api ip h g) as [e | [res |]] eqn:N.
      * destruct (exn_eqb RequestException e); [apply Step | discriminate].
      * simpl. intros [= ->]. exists api, g. repeat split; [now left | assumption | assumption].
      * apply Step.
Qed.

(** For a configured provider the dispatch always returns or raises. *)
Lemma for_apis_returns (h : string) (api : Api) (rest : list Api)
      (geo_info : Py.json) t :
  succeeds w ip api geo_info ->
  In api apis ->
  exists o : outcome result,
    normalize api ip h geo_info = bind o (fun r => Return (Some r))
    /\ for_apis w ip h (api :: rest) t = (t ++ [Get (endpoint ip api) 5], o).
Proof.
  intros Hs Hin. rewrite (for_apis_succeeds h api rest geo_info t Hs).
  pose proof (normalize_not_request_exception api ip h geo_info) as NR.
  destruct (normalize api ip h geo_info) as [e | [res |]] eqn:N.
  - exists (Raise e). split; [reflexivity |].
    destruct e; try reflexivity. now contradiction NR.
  - exists (Return res). split; reflexivity.
  - exfalso. revert N. unfold normalize.
    destruct (api_names api Hin) as [-> | [-> | ->]]; simpl.
    + destruct (_process_ipapi_response ip h geo_info); discriminate.
    + destruct (_process_ipinfo_response ip h geo_info); discriminate.
    + destruct (_process_ipapi_direct_response ip h geo_info); discriminate.
Qed.

End Resolver.

(* ===================================================================== *)
(** * The properties of the specification *)
(* ===================================================================== *)

Section Properties.
Import Py Effects Tracker Spec.

(** C1, as the code has it: for a valid address that
    [socket.gethostbyaddr] accepts as its argument, and any outcomes of
    the providers, the providers are tried in the configured order
    ipapi.co, ipinfo.io, ip-api.com: the requests made are those to an
    initial run of the list, in order.  When [api] is the first provider
    that answers with the status code 200 and a body that decodes, the
    requests are exactly those to the providers up to and including [api]
    (none after it), and the lookup ends with what the normalizer named by
    [api] makes of the decoded body. *)
Theorem first_success_wins (w : World) (ip : string) :
  validate_ip_address ip = Return true ->
  resolvable ip ->
  let h := resolved_hostname w ip in
  let res := returned (get_detailed_geolocation w ip) in
  map name apis = ["ipapi.co"; "ipinfo.io"; "ip-api.com"]
  /\ (exists n, fetched (trace (get_detailed_geolocation w ip))
                = map (endpoint ip) (firstn n apis))
  /\ forall pre api post geo_info,
       apis = pre ++ api :: post ->
       Forall (fails w ip) pre ->
       succeeds w ip api geo_info ->
       fetched (trace (get_detailed_geolocation w ip)) = map (endpoint ip) (pre ++ [api])
       /\ (name api = "ipapi.co" ->
           res = bind (_process_ipapi_response ip h geo_info)
                      (fun r => Return (LocationResult r)))
       /\ (name api = "ipinfo.io" ->
           res = bind (_process_ipinfo_response ip h geo_info)
                      (fun r => Return (LocationResult r)))
       /\ (name api = "ip-api.com" ->
           res = bind (_process_ipapi_direct_response ip h geo_info)
                      (fun r => Return (LocationResult r))).
Proof.
  intros V A h res.
  pose proof (get_detailed_geolocation_valid w ip V A) as Hrun. fold h in Hrun.
  split; [reflexivity |]. split.
  { unfold trace. rewrite Hrun, for_apis_events.
    destruct (loop_fetched_prefix w ip h apis) as (n & Hn).
    exists n. rewrite fetched_app, Hn. reflexivity. }
  intros pre api post geo_info Hsplit Hpre Hs.
  assert (Hin : In api apis) by (rewrite Hsplit; apply in_elt).
  rewrite Hsplit in Hrun.
  destruct (for_apis_skip w ip h pre (api :: post) Hpre [Gethostbyaddr ip])
    as (t' & E & Ht').
  destruct (for_apis_returns w ip h api post geo_info ([Gethostbyaddr ip] ++ t') Hs Hin)
    as (o & N & R).
  rewrite E, R in Hrun.
  split.
  { unfold trace. rewrite Hrun.
    change (fetched (([Gethostbyaddr ip] ++ t') ++ [Get (endpoint ip api) 5])
            = map (endpoint ip) (pre ++ [api])).
    rewrite !fetched_app, Ht', map_app. reflexivity. }
  subst res. unfold returned. rewrite Hrun. simpl snd.
  unfold normalize in N.
  repeat split; intros Hn; rewrite Hn in N; simpl in N.
  - destruct o as [e | r], (_process_ipapi_response ip h geo_info) as [e' | r'];
      simpl in N; try discriminate; now injection N as <-.
  - destruct o as [e | r], (_process_ipinfo_response ip h geo_info) as [e' | r'];
      simpl in N; try discriminate; now injection N as <-.
  - destruct o as [e | r], (_process_ipapi_direct_response ip h geo_info) as [e' | r'];
      simpl in N; try discriminate; now injection N as <-.
Qed.

Lemma first_success_wins_witness :
  fetched (trace (get_detailed_geolocation (Worlds.only_ipinfo Worlds.london) "8.8.8.8"))
  = ["https://ipapi.co/8.8.8.8/json/"; "https://ipinfo.io/8.8.8.8/json"]
  /\ returned (get_detailed_geolocation (Worlds.only_ipinfo Worlds.london) "8.8.8.8")
     = bind (_process_ipinfo_response "8.8.8.8" "N/A" (JObject Worlds.london))
            (fun r => Return (LocationResult r)).
Proof.
  destruct (first_success_wins (Worlds.only_ipinfo Worlds.london) "8.8.8.8") as (_ & _ & H).
  - vm_compute; reflexivity.
  - vm_compute; reflexivity.
  - destruct (H [ipapi_co] ipinfo_io [ip_api_com] (JObject Worlds.london)) as (T & _ & R & _).
    + reflexivity.
    + constructor; [left; reflexivity | constructor].
    + eexists. split; [reflexivity | split; reflexivity].
    + split; [exact T | exact (R eq_refl)].
Defined.

(** C1, as stated, fails, in two ways.  The address fe80::1%a..b is
    valid, and in a world where every provider answers with the status
    200 and a body that decodes the lookup asks no provider and ends in
    the [UnicodeError] with which [socket.gethostbyaddr] refuses the
    address.  And when ipapi.co answers the valid address 8.8.8.8 with
    the success status 203 and a body that decodes, that answer is passed
    over: the other providers are asked, and as they fail the lookup
    returns the error record. *)
Lemma first_success_is_conditional :
  (validate_ip_address "fe80::1%a..b" = Return true
   /\ succeeds (Worlds.answering (JObject Worlds.united_states)) "fe80::1%a..b" ipapi_co
               (JObject Worlds.united_states)
   /\ run (get_detailed_geolocation (Worlds.answering (JObject Worlds.united_states))
                                    "fe80::1%a..b")
      = ([Gethostbyaddr "fe80::1%a..b"], Raise UnicodeError))
  /\ (validate_ip_address "8.8.8.8" = Return true
      /\ requests_get Worlds.non_authoritative (endpoint "8.8.8.8" ipapi_co) 5
         = Some {| status_code := 203; body := Some (JObject Worlds.united_states) |}
      /\ fetched (trace (get_detailed_geolocation Worlds.non_authoritative "8.8.8.8"))
         = [ "https://ipapi.co/8.8.8.8/json/"; "https://ipinfo.io/8.8.8.8/json";
             "https://ip-api.com/json/8.8.8.8" ]
      /\ returned (get_detailed_geolocation Worlds.non_authoritative "8.8.8.8")
         = Return (ErrorResult "Failed to retrieve geolocation from all APIs")).
Proof.
  split.
  - split; [vm_compute; reflexivity |]. split; [| vm_compute; reflexivity].
    eexists. split; [reflexivity | split; reflexivity].
  - repeat split; vm_compute; reflexivity.
Qed.

(** C2, as the code has it: for every valid address, in the trace of the
    lookup each request that is answered with a non-success status is
    followed at once by the one-second pause, while a request that fails
    with a transport error is followed by no pause: the next event, if any,
    is the request to the next provider. *)
Theorem delay_follows_status_failures_only (w : World) (ip : string) :
  validate_ip_address ip = Return true ->
  forall pre u timeout post,
    trace (get_detailed_geolocation w ip) = pre ++ Get u timeout :: post ->
    (forall r, requests_get w u timeout = Some r -> status_code r <> 200 ->
               exists post', post = Sleep 1 :: post')
    /\ (requests_get w u timeout = None ->
        post = [] \/ exists u' post', post = Get u' 5 :: post').
Proof.
  intros V pre u timeout post. unfold trace.
  destruct (resolvable_or_refused ip) as [A | [e A]].
  - rewrite (get_detailed_geolocation_valid w ip V A), for_apis_events.
    destruct pre as [| ev pre]; simpl; intros [= ? ?]; subst.
    eapply loop_delay_rule; eassumption.
  - rewrite (get_detailed_geolocation_refused w ip e V A). simpl.
    destruct pre as [| ev [| ev' pre]]; discriminate.
Qed.

Lemma delay_follows_status_failures_only_witness :
  trace (get_detailed_geolocation Worlds.degraded "8.8.8.8")
  = [ Gethostbyaddr "8.8.8.8";
      Get "https://ipapi.co/8.8.8.8/json/" 5; Sleep 1;
      Get "https://ipinfo.io/8.8.8.8/json" 5;
      Get "https://ip-api.com/json/8.8.8.8" 5 ]
  /\ (exists post', [ Sleep 1; Get "https://ipinfo.io/8.8.8.8/json" 5;
                     Get "https://ip-api.com/json/8.8.8.8" 5 ] = Sleep 1 :: post')
  /\ ([ Get "https://ip-api.com/json/8.8.8.8" 5 ] = []
      \/ exists u' post', [ Get "https://ip-api.com/json/8.8.8.8" 5 ] = Get u' 5 :: post').
Proof.
  assert (V : validate_ip_address "8.8.8.8" = Return true) by (vm_compute; reflexivity).
  assert (T : trace (get_detailed_geolocation Worlds.degraded "8.8.8.8")
              = [ Gethostbyaddr "8.8.8.8";
                  Get "https://ipapi.co/8.8.8.8/json/" 5; Sleep 1;
                  Get "https://ipinfo.io/8.8.8.8/json" 5;
                  Get "https://ip-api.com/json/8.8.8.8" 5 ]) by (vm_compute; reflexivity).
  split; [exact T |]. split.
  - refine (proj1 (delay_follows_status_failures_only Worlds.degraded "8.8.8.8" V
                     [Gethostbyaddr "8.8.8.8"] "https://ipapi.co/8.8.8.8/json/" 5 _ T)
                  {| status_code := 429; body := None |} _ _).
    + reflexivity.
    + simpl; lia.
  - refine (proj2 (delay_follows_status_failures_only Worlds.degraded "8.8.8.8" V
                     [Gethostbyaddr "8.8.8.8"; Get "https://ipapi.co/8.8.8.8/json/" 5; Sleep 1]
                     "https://ipinfo.io/8.8.8.8/json" 5 _ T) _).
    reflexivity.
Defined.

(** C2, as stated, fails: with every provider unreachable, the valid
    address 8.8.8.8 is looked up with three requests in a row and no pause
    between them. *)
Lemma delay_skipped_after_transport_error :
  validate_ip_address "8.8.8.8" = Return true
  /\ trace (get_detailed_geolocation Worlds.unreachable "8.8.8.8")
     = [ Gethostbyaddr "8.8.8.8";
         Get "https://ipapi.co/8.8.8.8/json/" 5;
         Get "https://ipinfo.io/8.8.8.8/json" 5;
         Get "https://ip-api.com/json/8.8.8.8" 5 ]
  /\ ~ delay_after_every_failure Worlds.unreachable "8.8.8.8".
Proof.
  assert (T : trace (get_detailed_geolocation Worlds.unreachable "8.8.8.8")
              = [ Gethostbyaddr "8.8.8.8";
                  Get "https://ipapi.co/8.8.8.8/json/" 5;
                  Get "https://ipinfo.io/8.8.8.8/json" 5;
                  Get "https://ip-api.com/json/8.8.8.8" 5 ]) by (vm_compute; reflexivity).
  split; [vm_compute; reflexivity |]. split; [exact T |].
  intros H.
  destruct (H [Gethostbyaddr "8.8.8.8"] "https://ipapi.co/8.8.8.8/json/" 5 _ T)
    as (post' & E); [left; reflexivity | discriminate E].
Qed.

(** C3, on the code: an ipinfo.io answer whose [loc] is the malformed
    ["abc"] makes the normalizer raise [ValueError], and one whose [loc] is
    ["51.5"], without a comma, makes it raise [IndexError]; the lookup that
    received the answer ends in that exception instead of a record with
    coordinates 0.0. *)
Theorem ipinfo_malformed_loc_raises :
  _process_ipinfo_response "8.8.8.8" "N/A" (JObject Worlds.garbled) = Raise ValueError
  /\ returned (get_detailed_geolocation (Worlds.only_ipinfo Worlds.garbled) "8.8.8.8")
     = Raise ValueError
  /\ _process_ipinfo_response "8.8.8.8" "N/A" (JObject Worlds.no_comma) = Raise IndexError
  /\ returned (get_detailed_geolocation (Worlds.only_ipinfo Worlds.no_comma) "8.8.8.8")
     = Raise IndexError.
Proof. repeat split; vm_compute; reflexivity. Qed.

(** C4, as the code has it: the link of (0.0, 0.0) is the literal
    "No coordinates available"; for every pair whose members are not both
    equal to 0.0 it is the fixed URL prefix followed by the two numbers as
    Python prints them, separated by a plain comma, with no escaping. *)
Theorem maps_link_is_not_escaped :
  create_google_maps_link (VFloat zero) (VFloat zero) = "No coordinates available"
  /\ forall latitude longitude,
       (eq_zero latitude && eq_zero longitude)%bool = false ->
       create_google_maps_link latitude longitude
       = "https://www.google.com/maps/search/?api=1&query="
           +:+ to_str latitude +:+ "," +:+ to_str longitude.
Proof.
  split; [reflexivity |].
  intros latitude longitude H. unfold create_google_maps_link. rewrite H. reflexivity.
Qed.

Lemma maps_link_is_not_escaped_witness :
  create_google_maps_link (VFloat Worlds.f37_4) (VFloat Worlds.f122_1)
  = "https://www.google.com/maps/search/?api=1&query=37.4,-122.1".
Proof.
  rewrite (proj2 maps_link_is_not_escaped (VFloat Worlds.f37_4) (VFloat Worlds.f122_1));
    vm_compute; reflexivity.
Defined.

(** C4, as stated, fails: the link of (37.4, -122.1) has a plain comma,
    where the percent-encoded query would have [%2C]. *)
Lemma maps_link_comma_is_plain :
  (eq_zero (VFloat Worlds.f37_4) && eq_zero (VFloat Worlds.f122_1))%bool = false
  /\ create_google_maps_link (VFloat Worlds.f37_4) (VFloat Worlds.f122_1)
     = "https://www.google.com/maps/search/?api=1&query=37.4,-122.1"
  /\ percent_encoded_link (VFloat Worlds.f37_4) (VFloat Worlds.f122_1)
     = "https://www.google.com/maps/search/?api=1&query=37.4%2C-122.1"
  /\ create_google_maps_link (VFloat Worlds.f37_4) (VFloat Worlds.f122_1)
     <> percent_encoded_link (VFloat Worlds.f37_4) (VFloat Worlds.f122_1).
Proof.
  assert (A : create_google_maps_link (VFloat Worlds.f37_4) (VFloat Worlds.f122_1)
              = "https://www.google.com/maps/search/?api=1&query=37.4,-122.1")
    by (vm_compute; reflexivity).
  assert (B : percent_encoded_link (VFloat Worlds.f37_4) (VFloat Worlds.f122_1)
              = "https://www.google.com/maps/search/?api=1&query=37.4%2C-122.1")
    by (vm_compute; reflexivity).
  split; [reflexivity |]. split; [exact A |]. split; [exact B |].
  rewrite A, B. discriminate.
Qed.

(** C5, as the code has it: for every valid address that
    [socket.gethostbyaddr] accepts as its argument, if each of the
    providers fails, by a transport error or by a non-success status, the
    lookup returns exactly the error record "Failed to retrieve
    geolocation from all APIs": it neither raises nor reports any single
    provider's failure. *)
Theorem all_providers_exhausted (w : World) (ip : string) :
  validate_ip_address ip = Return true ->
  resolvable ip ->
  (forall api, In api apis -> transport_error w ip api \/ non_success_status w ip api) ->
  returned (get_detailed_geolocation w ip)
  = Return (ErrorResult "Failed to retrieve geolocation from all APIs").
Proof.
  intros V A H. unfold returned. rewrite (get_detailed_geolocation_valid w ip V A).
  apply for_apis_exhausted. apply List.Forall_forall. intros api Hin.
  destruct (H api Hin) as [T | S]; [now left | now right; left].
Qed.

Lemma all_providers_exhausted_witness :
  validate_ip_address "8.8.8.8" = Return true
  /\ returned (get_detailed_geolocation Worlds.throttled "8.8.8.8")
     = Return (ErrorResult "Failed to retrieve geolocation from all APIs").
Proof.
  split; [vm_compute; reflexivity |].
  apply (all_providers_exhausted Worlds.throttled "8.8.8.8").
  - vm_compute; reflexivity.
  - vm_compute; reflexivity.
  - intros api _. right. eexists. split; [reflexivity | simpl; lia].
Defined.

(** C5, as stated, fails: the address fe80::1%a..b is valid and every
    provider fails with a transport error, yet the lookup does not return
    the error record: it ends in the [UnicodeError] with which
    [socket.gethostbyaddr] refuses the address, before any provider is
    asked. *)
Lemma exhaustion_needs_an_accepted_address :
  validate_ip_address "fe80::1%a..b" = Return true
  /\ (forall api, In api apis -> transport_error Worlds.unreachable "fe80::1%a..b" api)
  /\ run (get_detailed_geolocation Worlds.unreachable "fe80::1%a..b")
     = ([Gethostbyaddr "fe80::1%a..b"], Raise UnicodeError)
  /\ returned (get_detailed_geolocation Worlds.unreachable "fe80::1%a..b")
     <> Return (ErrorResult "Failed to retrieve geolocation from all APIs").
Proof.
  assert (R : run (get_detailed_geolocation Worlds.unreachable "fe80::1%a..b")
              = ([Gethostbyaddr "fe80::1%a..b"], Raise UnicodeError))
    by (vm_compute; reflexivity).
  split; [vm_compute; reflexivity |]. split; [intros api _; reflexivity |].
  split; [exact R |]. unfold returned. rewrite R. discriminate.
Qed.

(** C6: for every input string that fails validation, the lookup returns
    exactly the error record "Invalid IP address format" at once; its trace
    is empty, so neither a fetch nor a reverse lookup has taken place. *)
Theorem invalid_address_short_circuits (w : World) (ip : string) :
  validate_ip_address ip = Return false ->
  run (get_detailed_geolocation w ip)
  = ([], Return (ErrorResult "Invalid IP address format")).
Proof.
  intros V. unfold run, get_detailed_geolocation, mbind, lift. rewrite V. reflexivity.
Qed.

Lemma invalid_address_short_circuits_witness :
  validate_ip_address "not-an-ip" = Return false
  /\ run (get_detailed_geolocation Worlds.unreachable "not-an-ip")
     = ([], Return (ErrorResult "Invalid IP address format")).
Proof.
  split; [vm_compute; reflexivity |].
  apply (invalid_address_short_circuits Worlds.unreachable "not-an-ip").
  vm_compute; reflexivity.
Defined.

(** C7, as the code has it: whichever of the three normalizers produced
    the record from the decoded answer [d], each string field holds what
    the table [sources] of its provider says: the value the provider
    supplied under the key of the field or, when the key is absent, the
    literal fallback of the field, which is "Unknown" for country, city,
    region, organization and, where they are read, isp and asn, and "N/A"
    for country_code, postal_code and timezone; or the literal "N/A" for
    the fields the normalizer does not read (isp and asn for ipinfo.io, asn
    for ip-api.com).  A coordinate the provider omits is 0.0.  The
    normalizers of ipapi.co and ip-api.com return on every decoded object,
    and every record a lookup returns is made in this way from the answer
    of one of the providers. *)
Theorem normalized_fields_are_populated (ip h : string) (d : gmap string value) :
  (exists r, _process_ipapi_response ip h (JObject d) = Return r
             /\ string_fields r = map (field_value d) (sources "ipapi.co")
             /\ (d !! "latitude" = None -> latitude (location r) = VFloat zero)
             /\ (d !! "longitude" = None -> longitude (location r) = VFloat zero))
  /\ (forall r, _process_ipinfo_response ip h (JObject d) = Return r ->
        string_fields r = map (field_value d) (sources "ipinfo.io")
        /\ (d !! "loc" = None ->
            latitude (location r) = VFloat zero /\ longitude (location r) = VFloat zero))
  /\ (exists r, _process_ipapi_direct_response ip h (JObject d) = Return r
                /\ string_fields r = map (field_value d) (sources "ip-api.com")
                /\ (d !! "lat" = None -> latitude (location r) = VFloat zero)
                /\ (d !! "lon" = None -> longitude (location r) = VFloat zero))
  /\ (forall w r,
        returned (get_detailed_geolocation w ip) = Return (LocationResult r) ->
        exists api answer,
          In api apis /\ succeeds w ip api (JObject answer)
          /\ string_fields r = map (field_value answer) (sources (name api))
          /\ (answer !! fst (coordinate_keys (name api)) = None ->
              latitude (location r) = VFloat zero)
          /\ (answer !! snd (coordinate_keys (name api)) = None ->
              longitude (location r) = VFloat zero)).
Proof.
  split.
  { eexists. split; [apply ipapi_object |].
    split; [reflexivity | split; apply get_absent]. }
  split; [intros r; apply ipinfo_fields |].
  split.
  { eexists. split; [apply ip_api_object |].
    split; [reflexivity | split; apply get_absent]. }
  intros w r R. unfold returned in R.
  destruct (validate_ip_address_total ip) as [V | V].
  2: { unfold run, get_detailed_geolocation, mbind, lift in R. rewrite V in R. discriminate. }
  destruct (resolvable_or_refused ip) as [A | [e A]].
  2: { rewrite (get_detailed_geolocation_refused w ip e V A) in R. discriminate. }
  rewrite (get_detailed_geolocation_valid w ip V A) in R.
  apply for_apis_result_inv in R as (api & answer & Hin & Hs & N).
  apply normalize_fields in N as (d' & -> & F & La & Lo).
  exists api, d'. repeat split; assumption.
Qed.

Lemma normalized_fields_are_populated_witness :
  exists r, _process_ipinfo_response "8.8.8.8" "N/A" (JObject Worlds.london) = Return r
            /\ string_fields r
               = [ VStr "GB"; VStr "GB"; VStr "London"; VStr "Unknown"; VStr "N/A";
                   VStr "N/A"; VStr "Unknown"; VStr "N/A"; VStr "N/A" ].
Proof.
  destruct (_process_ipinfo_response "8.8.8.8" "N/A" (JObject Worlds.london)) as [x | r] eqn:E;
    [vm_compute in E; discriminate |].
  exists r. split; [reflexivity |].
  rewrite (proj1 (proj1 (proj2 (normalized_fields_are_populated "8.8.8.8" "N/A" Worlds.london))
                        r E)).
  vm_compute; reflexivity.
Defined.

(** C7, as stated, fails: the literals are not paired with the fields as
    the specification words it.  On an ipapi.co answer that holds no key at all,
    country_code, postal_code and timezone, which the provider can supply
    and which describe the place, are "N/A" and not "Unknown", while
    organization, isp and asn, which do not describe the place, are
    "Unknown"; so the fields of the record are not populated in the worded
    sense. *)
Lemma fallbacks_are_not_paired_as_worded :
  exists r,
    _process_ipapi_response "8.8.8.8" "N/A" (JObject ∅) = Return r
    /\ country_code (location r) = VStr "N/A"
    /\ postal_code (location r) = VStr "N/A"
    /\ timezone (location r) = VStr "N/A"
    /\ organization (network r) = VStr "Unknown"
    /\ isp (network r) = VStr "Unknown"
    /\ asn (network r) = VStr "Unknown"
    /\ ~ Forall2 (populated_as_worded ∅) (sources "ipapi.co") (string_fields r).
Proof.
  eexists. split; [apply ipapi_object |].
  repeat split.
  intros F. apply Forall2_cons_iff in F as (_ & F).
  apply Forall2_cons_iff in F as ([(key & fallback & _ & E) | E] & _).
  - rewrite lookup_empty in E. discriminate E.
  - discriminate E.
Qed.

(** C8: for every input string the validator returns [True] if and only if
    the string is an IPv4 or IPv6 address literal (a dotted quad, or a
    colon-hexadecimal form, full, compressed or with an embedded IPv4 tail,
    possibly with a zone identifier), and returns [False] on every other
    string; it returns on every input, so it never raises. *)
Theorem validate_accepts_exactly_the_literals (s : string) :
  (validate_ip_address s = Return true <-> Grammar.ip_literal s)
  /\ (validate_ip_address s = Return false <-> ~ Grammar.ip_literal s)
  /\ (exists b, validate_ip_address s = Return b).
Proof.
  cut ((validate_ip_address s = Return true <-> Grammar.ip_literal s)
       /\ (validate_ip_address s = Return false <-> ~ Grammar.ip_literal s)).
  { intros [H1 H2]. repeat split; try apply H1; try apply H2.
    destruct (validate_ip_address_total s); eauto. }
  unfold validate_ip_address, Ipaddress.ip_address, Grammar.ip_literal.
  pose proof (v4_ok s) as V4. pose proof (v6_address_ok s) as V6.
  unfold Grammar.returns in V6.
  destruct (Ipaddress.new_IPv4Address s) as [e4 | n4].
  - destruct (Ipaddress.new_IPv6Address s) as [e6 | [n6 sc]]; simpl.
    + assert (N : ~ (Grammar.ipv4_literal s \/ Grammar.ipv6_literal s)).
      { intros [H | H]; [apply V4 in H | apply V6 in H]; destruct H; discriminate. }
      split; split; try discriminate; tauto.
    + assert (Y : Grammar.ipv4_literal s \/ Grammar.ipv6_literal s) by (right; apply V6; eauto).
      split; split; try discriminate; tauto.
  - simpl. assert (Y : Grammar.ipv4_literal s \/ Grammar.ipv6_literal s) by (left; apply V4; eauto).
    split; split; try discriminate; tauto.
Qed.

(** The four kinds of malformed input the specification names, and the
    literal forms it names. *)
Lemma validate_ip_address_examples :
  map validate_ip_address
      [""; "example.com"; "256.1.1.1"; "2001:db8::g"; "12345::1"; "1.2.3"; "1::2::3"]
  = repeat (Return false) 7
  /\ map validate_ip_address
         ["192.168.1.1"; "2001:db8:85a3:0:0:8a2e:370:7334"; "::1"; "2001:db8::";
          "::ffff:192.0.2.1"; "fe80::1%eth0"]
     = repeat (Return true) 6.
Proof. split; vm_compute; reflexivity. Qed.

(** C9, as the code has it: for every valid address that
    [socket.gethostbyaddr] accepts as its argument, a reverse lookup that
    finds no name, which the call reports with [herror] or [gaierror], is
    not fatal: the lookup goes on to the provider loop with the host name
    "N/A", every record it returns has [hostname = "N/A"], and when the
    first provider to answer yields a record, that record is returned. *)
Theorem reverse_lookup_failure_is_absorbed (w : World) (ip : string) (e : lookup_error) :
  validate_ip_address ip = Return true ->
  resolvable ip ->
  gethostbyaddr w ip = inl e ->
  run (get_detailed_geolocation w ip) = for_apis w ip "N/A" apis [Gethostbyaddr ip]
  /\ (forall r, returned (get_detailed_geolocation w ip) = Return (LocationResult r) ->
                hostname r = "N/A")
  /\ (forall pre api post geo_info r,
        apis = pre ++ api :: post ->
        Forall (fails w ip) pre ->
        succeeds w ip api geo_info ->
        normalize api ip "N/A" geo_info = Return (Some (LocationResult r)) ->
        returned (get_detailed_geolocation w ip) = Return (LocationResult r)
        /\ hostname r = "N/A").
Proof.
  intros V A L.
  assert (Hrun : run (get_detailed_geolocation w ip)
                 = for_apis w ip "N/A" apis [Gethostbyaddr ip]).
  { rewrite (get_detailed_geolocation_valid w ip V A).
    unfold resolved_hostname. rewrite L. reflexivity. }
  split; [exact Hrun |]. split.
  - intros r. unfold returned. rewrite Hrun. apply for_apis_hostname.
  - intros pre api post g r Hsplit Hpre Hs N.
    assert (Hin : In api apis) by (rewrite Hsplit; apply in_elt).
    assert (R : returned (get_detailed_geolocation w ip) = Return (LocationResult r)).
    { unfold returned. rewrite Hrun, Hsplit.
      destruct (for_apis_skip w ip "N/A" pre (api :: post) Hpre [Gethostbyaddr ip])
        as (t' & E & _).
      rewrite E, (for_apis_succeeds w ip "N/A" api post g _ Hs), N. reflexivity. }
    split; [exact R |].
    apply normalize_hostname in N as (r' & [= <-] & Hh). exact Hh.
Qed.

Lemma reverse_lookup_failure_is_absorbed_witness :
  exists r,
    returned (get_detailed_geolocation (Worlds.only_ipinfo Worlds.london) "8.8.8.8")
    = Return (LocationResult r)
    /\ hostname r = "N/A".
Proof.
  destruct (reverse_lookup_failure_is_absorbed
              (Worlds.only_ipinfo Worlds.london) "8.8.8.8" Herror) as (_ & _ & H).
  - vm_compute; reflexivity.
  - vm_compute; reflexivity.
  - reflexivity.
  - destruct (_process_ipinfo_response "8.8.8.8" "N/A" (JObject Worlds.london))
      as [x | r] eqn:E; [vm_compute in E; discriminate |].
    exists r.
    apply (H [ipapi_co] ipinfo_io [ip_api_com] (JObject Worlds.london) r).
    + reflexivity.
    + constructor; [left; reflexivity | constructor].
    + eexists. split; [reflexivity | split; reflexivity].
    + unfold normalize. simpl. rewrite E. reflexivity.
Defined.

(** C9, as stated, fails: not any failure of the reverse lookup is
    absorbed.  On the valid address fe80::1%a..b the reverse lookup fails
    with [UnicodeError], which the lookup does not catch: in a world where
    every provider answers with the status 200 and a body that decodes, the
    lookup asks none of them and ends in that exception, with no record. *)
Lemma reverse_lookup_refusal_is_fatal :
  validate_ip_address "fe80::1%a..b" = Return true
  /\ snd (socket_gethostbyaddr (Worlds.answering (JObject Worlds.united_states))
                               "fe80::1%a..b" [])
     = Raise UnicodeError
  /\ succeeds (Worlds.answering (JObject Worlds.united_states)) "fe80::1%a..b" ipapi_co
              (JObject Worlds.united_states)
  /\ run (get_detailed_geolocation (Worlds.answering (JObject Worlds.united_states))
                                   "fe80::1%a..b")
     = ([Gethostbyaddr "fe80::1%a..b"], Raise UnicodeError)
  /\ forall r, returned (get_detailed_geolocation
                           (Worlds.answering (JObject Worlds.united_states)) "fe80::1%a..b")
               <> Return (LocationResult r).
Proof.
  assert (R : run (get_detailed_geolocation (Worlds.answering (JObject Worlds.united_states))
                                            "fe80::1%a..b")
              = ([Gethostbyaddr "fe80::1%a..b"], Raise UnicodeError))
    by (vm_compute; reflexivity).
  split; [vm_compute; reflexivity |]. split; [vm_compute; reflexivity |].
  split; [eexists; split; [reflexivity | split; reflexivity] |].
  split; [exact R |]. intros r. unfold returned. rewrite R. discriminate.
Qed.

(** C10: in the ipinfo.io normalizer [country] and [country_code] are both
    read from the raw key [country]: they are both the provider's value
    when the key is present, and they are "Unknown" and "N/A" when it is
    absent. *)
Theorem ipinfo_country_and_code (ip h : string) (geo_info : gmap string value)
        (r : LocationRecord) :
  _process_ipinfo_response ip h (JObject geo_info) = Return r ->
  (forall v, geo_info !! "country" = Some v ->
             country (location r) = v /\ country_code (location r) = v)
  /\ (geo_info !! "country" = None ->
      country (location r) = VStr "Unknown" /\ country_code (location r) = VStr "N/A").
Proof.
  intros R.
  apply ipinfo_inv in R as (d & s & l0 & l1 & lat & lon & [= <-] & _ & _ & _ & _ & _ & ->).
  simpl. unfold Py.get. split.
  - intros v E. rewrite E. now split.
  - intros E. rewrite E. now split.
Qed.

Lemma ipinfo_country_and_code_witness :
  exists r, _process_ipinfo_response "8.8.8.8" "dns.google" (JObject Worlds.london) = Return r
            /\ country (location r) = VStr "GB" /\ country_code (location r) = VStr "GB".
Proof.
  destruct (_process_ipinfo_response "8.8.8.8" "dns.google" (JObject Worlds.london))
    as [x | r] eqn:E; [vm_compute in E; discriminate |].
  exists r. split; [reflexivity |].
  apply (proj1 (ipinfo_country_and_code "8.8.8.8" "dns.google" Worlds.london r E) (VStr "GB")).
  vm_compute; reflexivity.
Defined.

End Properties.

(* ===================================================================== *)
(** * Further properties of the multi-provider lookup *)
(* ===================================================================== *)

Section Courses.
Import Py Effects Tracker Spec Behaviour.

Variable w : World.
Variable ip : string.

Lemma for_apis_fails_pause (h : string) (api : Api) (rest : list Api) t :
  fails w ip api ->
  exists d, pause_after w ip api d
            /\ for_apis w ip h (api :: rest) t
               = for_apis w ip h rest (t ++ Get (endpoint ip api) 5 :: d).
Proof.
  unfold pause_after. intros [H | [H | H]].
  - exists []. split; [left; auto | now apply for_apis_transport_error].
  - exists [Sleep 1]. split; [right; auto | now apply for_apis_non_success].
  - exists []. split; [left; auto | now apply for_apis_unparseable].
Qed.

Lemma normalize_ipapi_co (h : string) (g : Py.json) :
  normalize ipapi_co ip h g
  = bind (_process_ipapi_response ip h g) (fun r => Return (Some (LocationResult r))).
Proof. reflexivity. Qed.

Lemma normalize_ipinfo_io (h : string) (g : Py.json) :
  normalize ipinfo_io ip h g
  = bind (_process_ipinfo_response ip h g) (fun r => Return (Some (LocationResult r))).
Proof. reflexivity. Qed.

Lemma normalize_ip_api_com (h : string) (g : Py.json) :
  normalize ip_api_com ip h g
  = bind (_process_ipapi_direct_response ip h g) (fun r => Return (Some (LocationResult r))).
Proof. reflexivity. Qed.

(** A provider that answers ends the loop with the outcome of its
    normalizer. *)
Lemma for_apis_routed (h : string) (api : Api) (rest : list Api) (g : Py.json) t
      (p : outcome LocationRecord) :
  succeeds w ip api g ->
  normalize api ip h g = bind p (fun r => Return (Some (LocationResult r))) ->
  for_apis w ip h (api :: rest) t
  = (t ++ [Get (endpoint ip api) 5], outcome_map LocationResult p).
Proof.
  intros S N. rewrite (for_apis_succeeds w ip h api rest g t S).
  pose proof (normalize_not_request_exception api ip h g) as NR.
  rewrite N in NR |- *.
  destruct p as [e | r].
  - destruct e; try reflexivity. now contradiction NR.
  - reflexivity.
Qed.

(** The four courses a lookup of a valid address can take once the
    reverse lookup has accepted it. *)
Lemma lookup_courses :
  validate_ip_address ip = Return true ->
  resolvable ip ->
  let h := resolved_hostname w ip in
  let e1 := Get (endpoint ip ipapi_co) 5 in
  let e2 := Get (endpoint ip ipinfo_io) 5 in
  let e3 := Get (endpoint ip ip_api_com) 5 in
  (exists g, succeeds w ip ipapi_co g
     /\ run (get_detailed_geolocation w ip)
        = ([Gethostbyaddr ip; e1],
           outcome_map LocationResult (_process_ipapi_response ip h g)))
  \/ (exists d1 g, fails w ip ipapi_co /\ pause_after w ip ipapi_co d1
        /\ succeeds w ip ipinfo_io g
        /\ run (get_detailed_geolocation w ip)
           = (Gethostbyaddr ip :: e1 :: d1 ++ [e2],
              outcome_map LocationResult (_process_ipinfo_response ip h g)))
  \/ (exists d1 d2 g, fails w ip ipapi_co /\ pause_after w ip ipapi_co d1
        /\ fails w ip ipinfo_io /\ pause_after w ip ipinfo_io d2
        /\ succeeds w ip ip_api_com g
        /\ run (get_detailed_geolocation w ip)
           = (Gethostbyaddr ip :: e1 :: d1 ++ e2 :: d2 ++ [e3],
              outcome_map LocationResult (_process_ipapi_direct_response ip h g)))
  \/ (exists d1 d2 d3, Forall (fails w ip) apis
        /\ pause_after w ip ipapi_co d1 /\ pause_after w ip ipinfo_io d2
        /\ pause_after w ip ip_api_com d3
        /\ run (get_detailed_geolocation w ip)
           = (Gethostbyaddr ip :: e1 :: d1 ++ e2 :: d2 ++ e3 :: d3,
              Return (ErrorResult "Failed to retrieve geolocation from all APIs"))).
Proof.
  intros V A h e1 e2 e3.
  rewrite (get_detailed_geolocation_valid w ip V A). fold h.
  change apis with [ipapi_co; ipinfo_io; ip_api_com].
  destruct (attempt_outcome w ip ipapi_co) as [F1 | [g1 S1]].
  2: { left. exists g1. split; [exact S1 |].
       now rewrite (for_apis_routed h _ _ g1 _ _ S1 (normalize_ipapi_co h g1)). }
  right.
  destruct (for_apis_fails_pause h ipapi_co [ipinfo_io; ip_api_com] [Gethostbyaddr ip] F1)
    as (d1 & P1 & E1).
  rewrite E1.
  destruct (attempt_outcome w ip ipinfo_io) as [F2 | [g2 S2]].
  2: { left. exists d1, g2. repeat (split; [assumption |]).
       rewrite (for_apis_routed h _ _ g2 _ _ S2 (normalize_ipinfo_io h g2)).
       simpl. rewrite <- ?app_assoc. reflexivity. }
  right.
  destruct (for_apis_fails_pause h ipinfo_io [ip_api_com]
              ([Gethostbyaddr ip] ++ Get (endpoint ip ipapi_co) 5 :: d1) F2) as (d2 & P2 & E2).
  rewrite E2.
  destruct (attempt_outcome w ip ip_api_com) as [F3 | [g3 S3]].
  2: { left. exists d1, d2, g3. repeat (split; [assumption |]).
       rewrite (for_apis_routed h _ _ g3 _ _ S3 (normalize_ip_api_com h g3)).
       simpl. rewrite <- ?app_assoc. reflexivity. }
  right.
  destruct (for_apis_fails_pause h ip_api_com []
              (([Gethostbyaddr ip] ++ Get (endpoint ip ipapi_co) 5 :: d1)
                 ++ Get (endpoint ip ipinfo_io) 5 :: d2) F3) as (d3 & P3 & E3).
  rewrite E3.
  exists d1, d2, d3. split; [| repeat (split; [assumption |])].
  - repeat (apply List.Forall_cons; [assumption |]). apply List.Forall_nil.
  - simpl. now rewrite <- !app_assoc.
Qed.

(** The lookup of an invalid address. *)
Lemma lookup_invalid :
  validate_ip_address ip = Return false ->
  run (get_detailed_geolocation w ip)
  = ([], Return (ErrorResult "Invalid IP address format")).
Proof.
  intros V. unfold run, get_detailed_geolocation, mbind, lift. rewrite V. reflexivity.
Qed.

(** Every lookup is of an invalid address, of a valid address that the
    reverse lookup refuses, or takes one of the four courses. *)
Lemma lookup_cases :
  (validate_ip_address ip = Return false
   /\ run (get_detailed_geolocation w ip)
      = ([], Return (ErrorResult "Invalid IP address format")))
  \/ (validate_ip_address ip = Return true
      /\ exists e, hostname_argument ip = Raise e
                   /\ (e = UnicodeError \/ e = TypeError)
                   /\ run (get_detailed_geolocation w ip) = ([Gethostbyaddr ip], Raise e))
  \/ (validate_ip_address ip = Return true /\ resolvable ip).
Proof.
  destruct (validate_ip_address_total ip) as [V | V].
  - destruct (resolvable_or_refused ip) as [A | [e A]].
    + right. right. now split.
    + right. left. split; [exact V |]. exists e.
      split; [exact A |]. split; [exact (hostname_argument_raises ip e A) |].
      now apply get_detailed_geolocation_refused.
  - left. split; [exact V | now apply lookup_invalid].
Qed.

End Courses.

Section Lookup.
Import Py Effects Tracker Spec Behaviour.

Lemma outcome_map_returns {A B : Type} (f : A -> B) (o : outcome A) (b : B) :
  outcome_map f o = Return b -> exists a, o = Return a /\ b = f a.
Proof. destruct o as [e | a]; [discriminate | intros [= <-]; eauto]. Qed.


(** Closes [Forall loop_event] on an explicit list of events. *)
Ltac loop_events :=
  repeat (apply List.Forall_cons;
          [first [left; eexists; reflexivity | right; reflexivity] |]);
  apply List.Forall_nil.

(** Replaces the pause of a failed attempt by its two possible values. *)
Ltac pauses :=
  repeat match goal with
         | P : pause_after _ _ _ _ |- _ => destruct P as [[-> _] | [-> _]]
         end.




(** X2: an error record tells its cause.  The lookup returns an error
    record in two cases only: "Invalid IP address format", exactly when
    the address is invalid, with no effect at all; and "Failed to retrieve
    geolocation from all APIs", only when the address is valid and each of
    the three providers has been asked and has failed (transport error,
    status other than 200, or body that does not decode). *)
Theorem error_result_tells_its_cause (w : World) (ip : string) (msg : string) :
  returned (get_detailed_geolocation w ip) = Return (ErrorResult msg) ->
  (msg = "Invalid IP address format"
   /\ validate_ip_address ip = Return false
   /\ trace (get_detailed_geolocation w ip) = [])
  \/ (msg = "Failed to retrieve geolocation from all APIs"
      /\ validate_ip_address ip = Return true
      /\ Forall (fails w ip) apis
      /\ fetched (trace (get_detailed_geolocation w ip)) = map (endpoint ip) apis).
Proof.
  unfold returned, trace. intros R.
  destruct (lookup_cases w ip) as [(V & E) | [(V & e' & A & Ee & E) | (V & A)]].
  { left. rewrite E in R |- *. injection R as <-. auto. }
  { rewrite E in R. discriminate. }
  right.
  destruct (lookup_courses w ip V A)
    as [(g & S & E) | [(d1 & g & F1 & P1 & S & E)
       | [(d1 & d2 & g & F1 & P1 & F2 & P2 & S & E)
       | (d1 & d2 & d3 & F & P1 & P2 & P3 & E)]]];
    rewrite E in R |- *; simpl in R;
    try (apply outcome_map_returns in R as (r & _ & [=])).
  injection R as <-. repeat (split; [auto |]). pauses; reflexivity.
Qed.

Lemma error_result_tells_its_cause_witness :
  Forall (fails Worlds.throttled "8.8.8.8") apis
  \/ validate_ip_address "8.8.8.8" = Return false.
Proof.
  assert (R : returned (get_detailed_geolocation Worlds.throttled "8.8.8.8")
              = Return (ErrorResult "Failed to retrieve geolocation from all APIs"))
    by (vm_compute; reflexivity).
  destruct (error_result_tells_its_cause _ _ _ R) as [(_ & V & _) | (_ & _ & F & _)].
  - now right.
  - now left.
Defined.

(** X3: the effects of a lookup are bounded.  Its trace is empty (invalid
    address) or one reverse lookup of the address followed by requests
    with the time-out of five seconds and pauses of one second only; there
    are at most three requests, never more pauses than requests, and at
    most one reverse lookup. *)
Theorem lookup_effects_are_bounded (w : World) (ip : string) :
  let t := trace (get_detailed_geolocation w ip) in
  ((t = [] /\ validate_ip_address ip = Return false)
   \/ (exists rest, t = Gethostbyaddr ip :: rest /\ Forall loop_event rest
                    /\ validate_ip_address ip = Return true))
  /\ (length (fetched t) <= 3)%nat
  /\ (length (pauses t) <= length (fetched t))%nat
  /\ (length (reverse_lookups t) <= 1)%nat.
Proof.
  unfold trace.
  destruct (lookup_cases w ip) as [(V & E) | [(V & e' & A & Ee & E) | (V & A)]].
  { rewrite E. simpl. repeat split; auto; lia. }
  { rewrite E. simpl. split; [| repeat split; lia].
    right. exists []. split; [reflexivity | split; [apply List.Forall_nil | exact V]]. }
  destruct (lookup_courses w ip V A)
    as [(g & S & E) | [(d1 & g & F1 & P1 & S & E)
       | [(d1 & d2 & g & F1 & P1 & F2 & P2 & S & E)
       | (d1 & d2 & d3 & F & P1 & P2 & P3 & E)]]];
    rewrite E; pauses; simpl;
    (split; [right; eexists; split; [reflexivity | split; [loop_events | exact V]]
            | repeat split; lia]).
Qed.

(** The record a normalizer returns, whichever it is. *)
Lemma routed_record (w : World) (ip : string) (r : LocationRecord) :
  returned (get_detailed_geolocation w ip) = Return (LocationResult r) ->
  exists api g,
    In api apis
    /\ normalize api ip (resolved_hostname w ip) g = Return (Some (LocationResult r)).
Proof.
  unfold returned. intros R.
  destruct (lookup_cases w ip) as [(V & E) | [(V & e' & A & Ee & E) | (V & A)]];
    try (rewrite E in R; discriminate R).
  rewrite (get_detailed_geolocation_valid w ip V A) in R.
  apply for_apis_result_inv in R as (api & g & Hin & _ & N). eauto.
Qed.

(** X4: every record the lookup returns carries the address that was
    looked up, unchanged, and the host name of the reverse lookup: the
    name [socket.gethostbyaddr] found, or "N/A" when it found none. *)
Theorem record_carries_address_and_host_name (w : World) (ip : string) (r : LocationRecord) :
  returned (get_detailed_geolocation w ip) = Return (LocationResult r) ->
  Tracker.ip r = ip
  /\ (forall found, gethostbyaddr w ip = inr found -> hostname r = found)
  /\ (forall e, gethostbyaddr w ip = inl e -> hostname r = "N/A").
Proof.
  intros R. apply routed_record in R as (api & g & _ & N).
  apply normalizer_record in N as (r' & [= <-] & Hip & Hh & _).
  split; [exact Hip |].
  unfold resolved_hostname in Hh.
  split; intros x Hx; rewrite Hx in Hh; exact Hh.
Qed.

Lemma record_carries_address_and_host_name_witness :
  exists r, returned (get_detailed_geolocation Worlds.degraded "8.8.8.8")
            = Return (LocationResult r)
            /\ Tracker.ip r = "8.8.8.8" /\ hostname r = "dns.google".
Proof.
  eexists. split; [vm_compute; reflexivity |].
  destruct (record_carries_address_and_host_name Worlds.degraded "8.8.8.8" _ eq_refl)
    as (A & B & _).
  split; [exact A | exact (B "dns.google" eq_refl)].
Defined.

(** X5: in every record the lookup returns, the maps link is the one of
    the record's own coordinates: the text "No coordinates available"
    exactly when latitude and longitude both compare equal to 0.0, and
    otherwise the search URL that ends with the two coordinates. *)
Theorem record_link_matches_its_coordinates (w : World) (ip : string) (r : LocationRecord) :
  returned (get_detailed_geolocation w ip) = Return (LocationResult r) ->
  let lat := latitude (location r) in
  let lon := longitude (location r) in
  google_maps_link (location r) = create_google_maps_link lat lon
  /\ (google_maps_link (location r) = "No coordinates available"
      <-> (eq_zero lat && eq_zero lon)%bool = true)
  /\ ((eq_zero lat && eq_zero lon)%bool = false ->
      google_maps_link (location r)
      = "https://www.google.com/maps/search/?api=1&query="
          +:+ to_str lat +:+ "," +:+ to_str lon).
Proof.
  intros R lat lon.
  assert (H : google_maps_link (location r) = create_google_maps_link lat lon).
  { apply routed_record in R as (api & g & _ & N).
    apply normalizer_record in N as (r' & [= <-] & _ & _ & L). exact L. }
  split; [exact H |]. rewrite H. unfold create_google_maps_link.
  destruct (eq_zero lat && eq_zero lon)%bool; split.
  - split; reflexivity.
  - discriminate.
  - split; discriminate.
  - reflexivity.
Qed.

Lemma record_link_matches_its_coordinates_witness :
  exists r, returned (get_detailed_geolocation Worlds.degraded "8.8.8.8")
            = Return (LocationResult r)
            /\ google_maps_link (location r)
               = create_google_maps_link (latitude (location r)) (longitude (location r)).
Proof.
  eexists. split; [vm_compute; reflexivity |].
  exact (proj1 (record_link_matches_its_coordinates Worlds.degraded "8.8.8.8" _ eq_refl)).
Defined.

End Lookup.

(* ===================================================================== *)
(** * What the lookup depends on *)
(* ===================================================================== *)

Section Dependence.
Import Py Effects Tracker Spec Behaviour.

(** The dispatch with another host name gives the same record, with that
    host name. *)
Lemma ipinfo_with_hostname (ip h h' : string) (g : Py.json) :
  _process_ipinfo_response ip h' g
  = outcome_map (fun r => {| ip := Tracker.ip r; hostname := h';
                             location := location r; network := network r |})
                (_process_ipinfo_response ip h g).
Proof.
  destruct g as [d |]; [| reflexivity].
  rewrite !ipinfo_object. unfold bind.
  destruct (value_split (Py.get d "loc" (VStr "0,0")) ",") as [e | loc]; [reflexivity |].
  destruct (index loc 0) as [e | loc0]; [reflexivity |].
  destruct (float_of_string loc0) as [e | lat]; [reflexivity |].
  destruct (index loc 1) as [e | loc1]; [reflexivity |].
  destruct (float_of_string loc1) as [e | lon]; reflexivity.
Qed.

Lemma normalize_with_hostname (api : Api) (ip h h' : string) (g : Py.json) :
  normalize api ip h' g
  = outcome_map (option_map (with_hostname h')) (normalize api ip h g).
Proof.
  unfold normalize.
  destruct (String.eqb (name api) "ipapi.co").
  { destruct g as [d |]; reflexivity. }
  destruct (String.eqb (name api) "ipinfo.io").
  { rewrite (ipinfo_with_hostname ip h h' g).
    destruct (_process_ipinfo_response ip h g); reflexivity. }
  destruct (String.eqb (name api) "ip-api.com"); [| reflexivity].
  destruct g as [d |]; reflexivity.
Qed.

(** The loop run with another host name makes the same requests and
    pauses, and ends in the same way, with that host name in the record. *)
Lemma for_apis_with_hostname (w : World) (ip h h' : string) (l : list Api) :
  forall t,
    for_apis w ip h' l t
    = (fst (for_apis w ip h l t),
       outcome_map (with_hostname h') (snd (for_apis w ip h l t))).
Proof.
  induction l as [| api rest IH]; intros t; [reflexivity |].
  destruct (attempt_outcome w ip api) as [[Ht | [Hn | Hu]] | [g Hs]].
  - rewrite !(for_apis_transport_error w ip _ api rest t Ht). apply IH.
  - rewrite !(for_apis_non_success w ip _ api rest t Hn). apply IH.
  - rewrite !(for_apis_unparseable w ip _ api rest t Hu). apply IH.
  - rewrite !(for_apis_succeeds w ip _ api rest g t Hs).
    rewrite (normalize_with_hostname api ip h h' g).
    destruct (normalize api ip h g) as [e | [res |]].
    + destruct e; first [apply IH | reflexivity].
    + reflexivity.
    + apply IH.
Qed.

(** The loop does not consult the resolver of host names. *)
Lemma for_apis_with_resolver (w : World) (resolver : string -> lookup_error + string)
      (ip h : string) (l : list Api) :
  forall t, for_apis (with_resolver resolver w) ip h l t = for_apis w ip h l t.
Proof.
  induction l as [| api rest IH]; intros t; [reflexivity |].
  simpl. unfold mbind.
  change (attempt (with_resolver resolver w) ip h api) with (attempt w ip h api).
  destruct (try_except (attempt w ip h api) (exn_eqb RequestException) (ret None) t)
    as [t' [e | [r |]]]; auto.
Qed.

(** X6: the reverse lookup only sets the host name.  In a world that
    differs by what [socket.gethostbyaddr] answers, the lookup has the
    same trace (same requests, same pauses), raises the same exception or
    returns the same error, and returns the same record but for its
    [hostname], which is the host name of that world. *)
Theorem reverse_lookup_only_sets_hostname
        (w : World) (resolver : string -> lookup_error + string) (ip : string) :
  let w' := with_resolver resolver w in
  trace (get_detailed_geolocation w' ip) = trace (get_detailed_geolocation w ip)
  /\ returned (get_detailed_geolocation w' ip)
     = outcome_map (with_hostname (resolved_hostname w' ip))
                   (returned (get_detailed_geolocation w ip)).
Proof.
  intros w'. unfold trace, returned.
  destruct (validate_ip_address_total ip) as [V | V].
  2: { rewrite !(lookup_invalid _ ip V). split; reflexivity. }
  destruct (resolvable_or_refused ip) as [A | [e A]].
  2: { rewrite !(get_detailed_geolocation_refused _ ip e V A). split; reflexivity. }
  rewrite !(get_detailed_geolocation_valid _ ip V A).
  unfold w' at 1 3. rewrite !for_apis_with_resolver.
  rewrite (for_apis_with_hostname w ip (resolved_hostname w ip) (resolved_hostname w' ip)).
  split; reflexivity.
Qed.

(** X7: each normalizer reads the keys of its provider only.  Two answers
    that agree on the keys a provider's normalizer reads (for ipinfo.io:
    loc, country, city, region, postal, timezone, org) are normalized to
    the same outcome, whatever else they hold. *)
Theorem normalizers_read_only_their_keys
        (api : Api) (ip h : string) (g g' : gmap string value) :
  (forall key, In key (keys_read (name api)) -> g !! key = g' !! key) ->
  normalize api ip h (JObject g) = normalize api ip h (JObject g').
Proof.
  unfold normalize, keys_read. intros H.
  destruct (String.eqb (name api) "ipapi.co").
  { rewrite !ipapi_object. unfold Py.get.
    repeat match goal with
           | |- context [g !! ?k] => rewrite (H k) by (simpl; tauto)
           end.
    reflexivity. }
  destruct (String.eqb (name api) "ipinfo.io").
  { rewrite !ipinfo_object. unfold Py.get.
    repeat match goal with
           | |- context [g !! ?k] => rewrite (H k) by (simpl; tauto)
           end.
    reflexivity. }
  destruct (String.eqb (name api) "ip-api.com"); [| reflexivity].
  rewrite !ip_api_object. unfold Py.get.
  repeat match goal with
         | |- context [g !! ?k] => rewrite (H k) by (simpl; tauto)
         end.
  reflexivity.
Qed.

End Dependence.

Lemma normalizers_read_only_their_keys_witness :
  Tracker.normalize Spec.ipinfo_io "8.8.8.8" "N/A" (Py.JObject Worlds.london)
  = Tracker.normalize Spec.ipinfo_io "8.8.8.8" "N/A"
      (Py.JObject (<["hostname" := Py.VStr "dns.google"]> Worlds.london)).
Proof.
  apply normalizers_read_only_their_keys.
  intros key H. simpl in H.
  repeat (destruct H as [<- | H]; [vm_compute; reflexivity |]).
  destruct H.
Defined.

(* ===================================================================== *)
(** * The [loc] of ipinfo.io *)
(* ===================================================================== *)

Section Loc.
Import Py Effects Tracker Spec Behaviour Grammar.

Lemma get_insert (g : gmap string value) (key : string) (v default : value) :
  Py.get (<[key := v]> g) key default = v.
Proof. unfold Py.get. now rewrite lookup_insert_eq. Qed.

Lemma get_insert_ne (g : gmap string value) (k key : string) (v default : value) :
  k <> key -> Py.get (<[k := v]> g) key default = Py.get g key default.
Proof. intros N. unfold Py.get. now rewrite lookup_insert_ne. Qed.

Lemma get_present (g : gmap string value) (key : string) (v default : value) :
  g !! key = Some v -> Py.get g key default = v.
Proof. intros E. unfold Py.get. now rewrite E. Qed.

Lemma split_two (a b : string) :
  no_char "," a -> no_char "," b -> split "," (a +:+ "," +:+ b) = [a; b].
Proof.
  intros Ha Hb. unfold split. rewrite chars_app.
  change (chars ("," +:+ b)) with (","%char :: chars b).
  rewrite (split_chars_app "," _ _ Ha), (split_chars_whole "," _ Hb).
  simpl. now rewrite !str_chars.
Qed.

Lemma split_more (a b more : string) :
  no_char "," a -> no_char "," b ->
  split "," (a +:+ "," +:+ b +:+ "," +:+ more) = a :: b :: split "," more.
Proof.
  intros Ha Hb. unfold split. rewrite chars_app.
  change (chars ("," +:+ b +:+ "," +:+ more)) with (","%char :: chars (b +:+ "," +:+ more)).
  rewrite (split_chars_app "," _ _ Ha), chars_app.
  change (chars ("," +:+ more)) with (","%char :: chars more).
  rewrite (split_chars_app "," _ _ Hb).
  simpl. now rewrite !str_chars.
Qed.

(** X8: the ipinfo.io normalizer reads the first two comma-separated
    parts of [loc] and ignores any further part: an answer whose [loc] is
    "a,b,more" is normalized exactly like the same answer with [loc]
    "a,b". *)
Theorem ipinfo_reads_two_parts_of_loc
        (ip h : string) (g : gmap string value) (a b more : string) :
  no_char "," a -> no_char "," b ->
  g !! "loc" = Some (VStr (a +:+ "," +:+ b +:+ "," +:+ more)) ->
  _process_ipinfo_response ip h (JObject g)
  = _process_ipinfo_response ip h (JObject (<["loc" := VStr (a +:+ "," +:+ b)]> g)).
Proof.
  intros Ha Hb Hl. rewrite !ipinfo_object.
  rewrite (get_present _ _ _ _ Hl), get_insert.
  rewrite !get_insert_ne by discriminate.
  unfold value_split. rewrite (split_two a b Ha Hb), (split_more a b more Ha Hb).
  reflexivity.
Qed.

Lemma ipinfo_reads_two_parts_of_loc_witness :
  _process_ipinfo_response "8.8.8.8" "N/A" (JObject {[ "loc" := VStr "51.5,-0.1,12" ]})
  = _process_ipinfo_response "8.8.8.8" "N/A"
      (JObject (<["loc" := VStr "51.5,-0.1"]> {[ "loc" := VStr "51.5,-0.1,12" ]})).
Proof.
  apply (ipinfo_reads_two_parts_of_loc "8.8.8.8" "N/A" _ "51.5" "-0.1" "12");
    reflexivity.
Defined.

End Loc.

(* ===================================================================== *)
(** * The single-provider lookup *)
(* ===================================================================== *)

Section Single.
Import Py Effects Spec Behaviour.

Variable w : World.
Variable str_e : exn -> string.
Variable ip : string.

Lemma single_endpoint :
  format Simple.geo_api_url ip = "https://ipapi.co/" +:+ ip +:+ "/json/".
Proof. exact (f_equal (List.hd "") (endpoints ip)). Qed.

Lemma single_invalid :
  Simple.validate_ip_address ip = Return false ->
  run (Simple.get_detailed_geolocation w str_e ip)
  = ([], Return (Simple.ErrorResult "Invalid IP address format")).
Proof.
  intros V. unfold run, Simple.get_detailed_geolocation, mbind, lift. rewrite V. reflexivity.
Qed.

(** [detailed_info] is built from every decoded object, and from nothing
    else. *)
Lemma detailed_info_object (h : string) (d : gmap string value) :
  exists r, Simple.detailed_info ip h (JObject d) = Return r.
Proof. eexists. reflexivity. Qed.

Lemma detailed_info_other (h : string) :
  Simple.detailed_info ip h JOther = Raise AttributeError.
Proof. reflexivity. Qed.

(** The course of the single-provider lookup of a valid address that the
    reverse lookup accepts, by the answer to its one request. *)
Lemma single_valid :
  Simple.validate_ip_address ip = Return true ->
  resolvable ip ->
  let u := format Simple.geo_api_url ip in
  run (Simple.get_detailed_geolocation w str_e ip)
  = ([Gethostbyaddr ip; Get u 5],
     Return (single_result w str_e ip (requests_get w u 5))).
Proof.
  intros V A u.
  unfold run, Simple.get_detailed_geolocation, mbind, lift. rewrite V. simpl.
  unfold single_result, resolved_hostname.
  unfold Simple.try_excepts, mbind, try_except, socket_gethostbyaddr, mbind, emit, lift,
    Effects.get, mbind, emit. simpl.
  rewrite A. fold u.
  destruct (gethostbyaddr w ip) as [[|] | hn]; simpl;
    (destruct (requests_get w u 5) as [r |]; simpl; [| reflexivity]);
    (destruct (status_code r =? 200); simpl; [| reflexivity]);
    unfold json; (destruct (body r) as [[d |] |]; simpl; reflexivity).
Qed.

(** The course of the single-provider lookup of a valid address that the
    reverse lookup refuses: the last clause of the [try] reports it. *)
Lemma single_refused (e : exn) :
  Simple.validate_ip_address ip = Return true ->
  hostname_argument ip = Raise e ->
  run (Simple.get_detailed_geolocation w str_e ip)
  = ([Gethostbyaddr ip],
     Return (Simple.ErrorResult ("An unexpected error occurred: " +:+ str_e e))).
Proof.
  intros V A. pose proof (hostname_argument_raises ip e A) as E.
  unfold run, Simple.get_detailed_geolocation, mbind, lift. rewrite V. simpl.
  unfold Simple.try_excepts, mbind, try_except, socket_gethostbyaddr, mbind, emit, lift.
  simpl. rewrite A. destruct E as [-> | ->]; reflexivity.
Qed.

(** X9: the single-provider lookup never raises and asks at most once.
    For every address it returns a result.  Its trace is empty (the
    address is invalid); or it is the reverse lookup alone, when
    [socket.gethostbyaddr] refuses the address with a [UnicodeError] or a
    [TypeError], and the result is then the error "An unexpected error
    occurred: " followed by the text of that exception; or it is the
    reverse lookup followed by the one request to ipapi.co with the
    time-out of five seconds.  It never pauses. *)
Theorem single_lookup_never_raises :
  (exists res, returned (Simple.get_detailed_geolocation w str_e ip) = Return res)
  /\ (trace (Simple.get_detailed_geolocation w str_e ip) = []
      \/ (trace (Simple.get_detailed_geolocation w str_e ip) = [Gethostbyaddr ip]
          /\ exists e, (e = UnicodeError \/ e = TypeError)
               /\ hostname_argument ip = Raise e
               /\ returned (Simple.get_detailed_geolocation w str_e ip)
                  = Return (Simple.ErrorResult
                              ("An unexpected error occurred: " +:+ str_e e)))
      \/ trace (Simple.get_detailed_geolocation w str_e ip)
         = [Gethostbyaddr ip; Get ("https://ipapi.co/" +:+ ip +:+ "/json/") 5]).
Proof.
  unfold returned, trace.
  destruct (validate_ip_address_total ip) as [V | V].
  - destruct (resolvable_or_refused ip) as [A | [e A]].
    + rewrite (single_valid V A), single_endpoint.
      split; [eexists; reflexivity | now right; right].
    + rewrite (single_refused e V A).
      split; [eexists; reflexivity |]. right; left. split; [reflexivity |].
      exists e. split; [exact (hostname_argument_raises ip e A) | now split].
  - rewrite (single_invalid V). split; [eexists; reflexivity | now left].
Qed.

(** X10: the single-provider lookup of a valid address that the reverse
    lookup accepts reports how its request went.  A transport error, or a
    body that does not decode, gives the error "Request failed: " followed
    by the text of the exception; a status other than 200 gives "Failed to
    retrieve geolocation. Status code: " followed by the status in
    decimal; a status 200 with a body that decodes to something other than
    an object gives "An unexpected error occurred: " followed by the text
    of the [AttributeError]; and a status 200 with a body that decodes to
    an object gives the record built from it, with the host name of the
    reverse lookup. *)
Theorem single_lookup_reports_the_failure :
  Simple.validate_ip_address ip = Return true ->
  resolvable ip ->
  let u := "https://ipapi.co/" +:+ ip +:+ "/json/" in
  let res := returned (Simple.get_detailed_geolocation w str_e ip) in
  (requests_get w u 5 = None ->
   res = Return (Simple.ErrorResult ("Request failed: " +:+ str_e RequestException)))
  /\ (forall r, requests_get w u 5 = Some r -> status_code r <> 200 ->
        res = Return (Simple.ErrorResult
                        ("Failed to retrieve geolocation. Status code: "
                           +:+ pretty (status_code r))))
  /\ (forall r, requests_get w u 5 = Some r -> status_code r = 200 -> body r = None ->
        res = Return (Simple.ErrorResult ("Request failed: " +:+ str_e RequestException)))
  /\ (forall r, requests_get w u 5 = Some r -> status_code r = 200 ->
        body r = Some JOther ->
        res = Return (Simple.ErrorResult
                        ("An unexpected error occurred: " +:+ str_e AttributeError)))
  /\ (forall r g, requests_get w u 5 = Some r -> status_code r = 200 ->
        body r = Some (JObject g) ->
        exists info,
          Simple.detailed_info ip (resolved_hostname w ip) (JObject g) = Return info
          /\ Simple.hostname info = resolved_hostname w ip
          /\ res = Return (Simple.LocationResult info)).
Proof.
  intros V A u res. subst res. unfold returned. rewrite (single_valid V A).
  rewrite single_endpoint. fold u. simpl snd. unfold single_result.
  repeat split.
  - intros E. now rewrite E.
  - intros r E N. rewrite E. now destruct (Z.eqb_spec (status_code r) 200).
  - intros r E S B. now rewrite E, S, B.
  - intros r E S B. now rewrite E, S, B.
  - intros r g E S B. rewrite E, S, B. eexists. repeat split.
Qed.

End Single.

Lemma single_lookup_reports_the_failure_witness :
  Effects.returned (Simple.get_detailed_geolocation Worlds.throttled (fun _ => "timed out") "8.8.8.8")
  = Py.Return (Simple.ErrorResult "Failed to retrieve geolocation. Status code: 429").
Proof.
  refine (proj1 (proj2 (single_lookup_reports_the_failure
                          Worlds.throttled (fun _ => "timed out") "8.8.8.8" _ _))
                {| Effects.status_code := 429; Effects.body := None |} _ _).
  - vm_compute; reflexivity.
  - vm_compute; reflexivity.
  - reflexivity.
  - simpl; lia.
Defined.

Section Classes.
Import Py Effects Tracker Spec Behaviour.

(** X11: the two classes on an answer of ipapi.co.  When the address is
    valid, [socket.gethostbyaddr] accepts it and ipapi.co answers with
    status 200 and a body that decodes, both lookups have the same trace
    (the reverse lookup and the one request).  When the body is an object
    both return a record; the record of the multi-provider class holds
    the same address, host name, location and network fields as the
    record of the single-provider class, which has [continent] and
    [connection_type] besides; and each maps link is the one its own class
    makes of the shared coordinates.  When the body is not an object the
    single-provider class returns the error "An unexpected error
    occurred: " followed by the text of the [AttributeError], which the
    multi-provider class raises. *)
Theorem classes_agree_on_ipapi_answer
        (w : World) (str_e : exn -> string) (ip : string) (geo_info : Py.json) :
  validate_ip_address ip = Return true ->
  resolvable ip ->
  succeeds w ip ipapi_co geo_info ->
  trace (Simple.get_detailed_geolocation w str_e ip) = trace (get_detailed_geolocation w ip)
  /\ (forall g, geo_info = JObject g ->
      exists r1 r2,
        returned (Simple.get_detailed_geolocation w str_e ip)
        = Return (Simple.LocationResult r1)
        /\ returned (get_detailed_geolocation w ip) = Return (LocationResult r2)
        /\ shared_fields r1 (google_maps_link (location r2)) = r2
        /\ Simple.google_maps_link (Simple.location r1)
           = Simple.create_google_maps_link (latitude (location r2)) (longitude (location r2))
        /\ google_maps_link (location r2)
           = create_google_maps_link (latitude (location r2)) (longitude (location r2)))
  /\ (geo_info = JOther ->
      returned (Simple.get_detailed_geolocation w str_e ip)
      = Return (Simple.ErrorResult
                  ("An unexpected error occurred: " +:+ str_e AttributeError))
      /\ returned (get_detailed_geolocation w ip) = Raise AttributeError).
Proof.
  intros V A S. unfold trace, returned.
  rewrite (single_valid w str_e ip V A).
  rewrite (get_detailed_geolocation_valid w ip V A).
  change apis with (ipapi_co :: [ipinfo_io; ip_api_com]).
  rewrite (for_apis_routed w ip _ _ _ geo_info _ _ S (normalize_ipapi_co ip _ geo_info)).
  destruct S as (r & E & Hs & Hb).
  change (format Simple.geo_api_url ip) with (endpoint ip ipapi_co).
  unfold single_result. rewrite E, Hs, Hb. simpl.
  split; [reflexivity |]. split.
  - intros g ->. eexists. eexists. repeat split.
  - intros ->. split; reflexivity.
Qed.

Lemma classes_agree_on_ipapi_answer_witness :
  trace (Simple.get_detailed_geolocation
           (Worlds.only_ipapi Worlds.united_states) (fun _ => "") "8.8.8.8")
  = trace (get_detailed_geolocation (Worlds.only_ipapi Worlds.united_states) "8.8.8.8").
Proof.
  refine (proj1 (classes_agree_on_ipapi_answer
                   (Worlds.only_ipapi Worlds.united_states) (fun _ => "") "8.8.8.8"
                   (JObject Worlds.united_states) _ _ _)).
  - vm_compute; reflexivity.
  - vm_compute; reflexivity.
  - eexists. split; [reflexivity | split; reflexivity].
Defined.

(** Every character [quote] puts out is unreserved, a slash or the
    percent sign. *)
Lemma quote_char_safe (c : ascii) : forallb url_safe (Urllib.quote_char c) = true.
Proof. destruct c as [[] [] [] [] [] [] [] []]; reflexivity. Qed.

Lemma quote_safe (s : string) : forallb url_safe (chars (Urllib.quote s)) = true.
Proof.
  unfold Urllib.quote. rewrite chars_str.
  induction (chars s) as [| c l IH]; [reflexivity |].
  simpl flat_map. rewrite forallb_app, quote_char_safe, IH. reflexivity.
Qed.

(** X12: the maps link of the single-provider class has an escaped
    query.  For coordinates that are not both 0.0 the link is the search
    URL followed by [quote] of "latitude,longitude", and that query
    consists of unreserved characters, slashes and percent escapes only:
    it holds no comma and no space. *)
Theorem single_link_has_escaped_query (latitude longitude : value) :
  (eq_zero latitude && eq_zero longitude)%bool = false ->
  let query := Urllib.quote (to_str latitude +:+ "," +:+ to_str longitude) in
  Simple.create_google_maps_link latitude longitude
  = "https://www.google.com/maps/search/?api=1&query=" +:+ query
  /\ forallb url_safe (chars query) = true
  /\ Grammar.no_char "," query
  /\ Grammar.no_char " " query.
Proof.
  intros Z query. unfold Simple.create_google_maps_link. rewrite Z.
  split; [reflexivity |].
  pose proof (quote_safe (to_str latitude +:+ "," +:+ to_str longitude)) as Q.
  fold query in Q. split; [exact Q |].
  unfold Grammar.no_char.
  split; (induction (chars query) as [| c l IH]; [reflexivity |]);
    simpl in Q |- *; apply andb_prop in Q as [Qc Ql]; rewrite (IH Ql);
    destruct c as [[] [] [] [] [] [] [] []]; try reflexivity; discriminate Qc.
Qed.

Lemma single_link_has_escaped_query_witness :
  Simple.create_google_maps_link (VFloat Worlds.f37_4) (VFloat Worlds.f122_1)
  = "https://www.google.com/maps/search/?api=1&query=37.4%2C-122.1".
Proof.
  rewrite (proj1 (single_link_has_escaped_query
                    (VFloat Worlds.f37_4) (VFloat Worlds.f122_1) eq_refl)).
  vm_compute; reflexivity.
Defined.

End Classes.

(* ===================================================================== *)
(** * Further properties of the validator *)
(* ===================================================================== *)

Section Addresses.
Import Py Ipaddress Tracker Behaviour Grammar.

Lemma hextet_starts (g : string) :
  hextet g -> exists c g', g = String c g' /\ hex_digit c = true.
Proof.
  intros (N & _ & D). destruct g as [| c g']; [congruence |].
  exists c, g'. split; [reflexivity |].
  simpl in D. now apply andb_prop in D as [D _].
Qed.

Lemma join_starts (sep : string) (c : ascii) (g' : string) (gs : list string) :
  exists rest, join sep (String c g' :: gs) = String c rest.
Proof. destruct gs; simpl join; eexists; reflexivity. Qed.

Lemma hextets_start (gs : list string) (tail : list string) :
  Forall hextet gs -> gs <> [] ->
  exists c rest, join ":" (gs ++ tail) = String c rest /\ hex_digit c = true.
Proof.
  intros F N. destruct gs as [| g gs]; [congruence |].
  inversion F as [| ? ? Hg _]; subst.
  destruct (hextet_starts g Hg) as (c & g' & -> & Hc).
  destruct (join_starts ":" c g' (gs ++ tail)) as (rest & E).
  exists c, rest. split; [exact E | exact Hc].
Qed.

Lemma ipv6_plain_starts (addr : string) :
  ipv6_plain addr ->
  exists c rest, addr = String c rest /\ (hex_digit c = true \/ c = ":"%char).
Proof.
  intros [(gs & L & F & ->) | [(gs & v4 & L & F & _ & ->)
         | [(hi & lo & Fh & _ & _ & ->) | (hi & lo & v4 & Fh & _ & _ & _ & ->)]]].
  - destruct (hextets_start gs [] F) as (c & rest & E & Hc).
    { intros ->. discriminate L. }
    rewrite app_nil_r in E. exists c, rest. auto.
  - destruct (hextets_start gs [v4] F) as (c & rest & E & Hc).
    { intros ->. discriminate L. }
    exists c, rest. auto.
  - destruct hi as [| g hi].
    + eexists. eexists. split; [reflexivity | now right].
    + destruct (hextets_start (g :: hi) [] Fh) as (c & rest & E & Hc); [discriminate |].
      rewrite app_nil_r in E. rewrite E. eexists. eexists. split; [reflexivity | now left].
  - destruct hi as [| g hi].
    + eexists. eexists. split; [reflexivity | now right].
    + destruct (hextets_start (g :: hi) [] Fh) as (c & rest & E & Hc); [discriminate |].
      rewrite app_nil_r in E. rewrite E. eexists. eexists. split; [reflexivity | now left].
Qed.

(** X13: what every accepted address looks like.  A string the validator
    accepts is not empty, begins with a hexadecimal digit or a colon, and
    holds no slash; so the empty string, a string with white space in
    front, a host name such as "localhost" and a network in prefix
    notation are all rejected. *)
Theorem accepted_address_shape (s : string) :
  validate_ip_address s = Return true ->
  (exists c rest, s = String c rest /\ (hex_digit c = true \/ c = ":"%char))
  /\ no_char "/" s.
Proof.
  unfold validate_ip_address, ip_address. intros H.
  pose proof (v4_ok s) as V4. pose proof (v6_address_ok s) as V6. unfold returns in V6.
  split.
  - destruct (new_IPv4Address s) as [e4 | n4].
    + destruct (new_IPv6Address s) as [e6 | [n6 sc]]; [discriminate H |].
      assert (L : ipv6_literal s) by (apply V6; eauto).
      destruct L as (addr & P & E).
      destruct (ipv6_plain_starts addr P) as (c & rest & -> & Hc).
      destruct E as [-> | (zone & _ & ->)]; eexists; eexists; (split; [reflexivity | exact Hc]).
    + assert (L : ipv4_literal s) by (apply V4; eauto).
      destruct L as (a & b & c & d & (Na & _ & Da & _) & _ & _ & _ & ->).
      destruct a as [| x a']; [congruence |].
      exists x. eexists. split; [reflexivity | left].
      simpl in Da. apply andb_prop in Da as [Dx _].
      unfold hex_digit. now rewrite Dx.
  - unfold new_IPv4Address, new_IPv6Address in H. unfold no_char.
    change (existsb (Ascii.eqb "/") (chars s)) with (contains "/" s).
    destruct (contains "/" s); [discriminate H | reflexivity].
Qed.

Lemma accepted_address_shape_witness :
  exists c rest, "::1" = String c rest /\ (hex_digit c = true \/ c = ":"%char).
Proof.
  refine (proj1 (accepted_address_shape "::1" _)). vm_compute; reflexivity.
Defined.

(** The decimal numerals of the octets: none has a dot or a slash, and
    each is read back by [_parse_octet]. *)
Lemma octet_numerals :
  forallb (fun n => (negb (contains "." (pretty n)) && negb (contains "/" (pretty n))
                     && match _parse_octet (pretty n) with
                        | inr m => m =? n
                        | inl _ => false
                        end)%bool)
          (map Z.of_nat (seq 0 256)) = true.
Proof. vm_compute. reflexivity. Qed.

Lemma octet_numeral (n : Z) :
  0 <= n <= 255 ->
  no_char "." (pretty n) /\ no_char "/" (pretty n) /\ _parse_octet (pretty n) = Return n.
Proof.
  intros R. pose proof octet_numerals as H.
  rewrite forallb_forall in H. specialize (H n).
  assert (I : In n (map Z.of_nat (seq 0 256))).
  { rewrite <- (Z2Nat.id n) by lia. apply in_map, in_seq. lia. }
  apply H in I. apply andb_prop in I as [I P]. apply andb_prop in I as [D S].
  apply negb_true_iff in D, S.
  repeat split; [exact D | exact S |].
  destruct (_parse_octet (pretty n)) as [e | m]; [discriminate |].
  apply Z.eqb_eq in P. now subst.
Qed.

(** X14: every dotted quad is accepted.  For four numbers between 0 and
    255, the string of their decimal numerals joined by dots is parsed by
    [ipaddress.ip_address] as the IPv4 address with those four octets, and
    the validator returns [True] on it. *)
Theorem every_dotted_quad_is_accepted (a b c d : Z) :
  0 <= a <= 255 -> 0 <= b <= 255 -> 0 <= c <= 255 -> 0 <= d <= 255 ->
  ip_address (dotted_quad a b c d) = Return (IPv4Address (from_bytes [a; b; c; d]))
  /\ validate_ip_address (dotted_quad a b c d) = Return true.
Proof.
  intros Ra Rb Rc Rd.
  destruct (octet_numeral a Ra) as (Da & Sa & Pa).
  destruct (octet_numeral b Rb) as (Db & Sb & Pb).
  destruct (octet_numeral c Rc) as (Dc & Sc & Pc).
  destruct (octet_numeral d Rd) as (Dd & Sd & Pd).
  assert (N : new_IPv4Address (dotted_quad a b c d) = Return (from_bytes [a; b; c; d])).
  { unfold new_IPv4Address, v4_ip_int_from_string.
    assert (Sl : contains "/" (dotted_quad a b c d) = false).
    { unfold dotted_quad. change (contains "/" ?x) with (existsb (Ascii.eqb "/") (chars x)).
      fold (no_char "/" (pretty a +:+ "." +:+ pretty b +:+ "." +:+ pretty c +:+ "." +:+ pretty d)).
      repeat (apply no_char_app; split; [first [assumption | reflexivity] |]).
      assumption. }
    rewrite Sl.
    assert (E : is_empty (dotted_quad a b c d) = false).
    { apply is_empty_false. unfold dotted_quad. intros E.
      apply (f_equal chars) in E. rewrite chars_app in E.
      change (chars ("." +:+ ?x)) with ("."%char :: chars x) in E.
      destruct (chars (pretty a)); discriminate E. }
    rewrite E.
    change (dotted_quad a b c d) with (join "." [pretty a; pretty b; pretty c; pretty d]).
    rewrite split_join.
    - simpl. unfold bind. rewrite Pa, Pb, Pc, Pd. reflexivity.
    - discriminate.
    - repeat (apply List.Forall_cons; [assumption |]). apply List.Forall_nil. }
  unfold validate_ip_address, ip_address. rewrite N. split; reflexivity.
Qed.

Lemma every_dotted_quad_is_accepted_witness :
  validate_ip_address "192.168.1.1" = Return true.
Proof.
  refine (proj2 (every_dotted_quad_is_accepted 192 168 1 1 _ _ _ _)); lia.
Defined.

End Addresses.

(* ===================================================================== *)
(** * Stripping white space *)
(* ===================================================================== *)

Section Stripping.

(** A class of characters and the function that removes the leading
    characters of the class, as [Py.lstrip] and [Console.lstrip_chars] do
    for theirs. *)
Variable blank : ascii -> bool.
Variable lstrip : list ascii -> list ascii.
Hypothesis lstrip_nil : lstrip [] = [].
Hypothesis lstrip_cons :
  forall c l, lstrip (c :: l) = if blank c then lstrip l else c :: l.

Lemma lstrip_blank (ws l : list ascii) :
  forallb blank ws = true -> lstrip (ws ++ l) = lstrip l.
Proof.
  induction ws as [| c ws IH]; [reflexivity |].
  simpl. intros H. apply andb_prop in H as [Hc Hws].
  now rewrite lstrip_cons, Hc, IH.
Qed.

Lemma lstrip_app (l ws : list ascii) :
  forallb blank ws = true ->
  lstrip (l ++ ws) = lstrip l ++ ws \/ (lstrip l = [] /\ lstrip (l ++ ws) = []).
Proof.
  intros H. induction l as [| c l IH].
  - right. split; [exact lstrip_nil |].
    pose proof (lstrip_blank ws [] H) as E. rewrite app_nil_r in E.
    simpl. rewrite E. exact lstrip_nil.
  - simpl. rewrite !lstrip_cons. destruct (blank c); [exact IH | now left].
Qed.

Lemma lstrip_split (l : list ascii) :
  exists ws, forallb blank ws = true /\ l = ws ++ lstrip l.
Proof.
  induction l as [| c l (ws & H & E)].
  - exists []. split; [reflexivity | now rewrite lstrip_nil].
  - rewrite lstrip_cons. destruct (blank c) eqn:B.
    + exists (c :: ws). simpl. rewrite B, H. split; [reflexivity | now rewrite <- E].
    + exists []. split; reflexivity.
Qed.

Lemma forallb_rev (ws : list ascii) : forallb blank (rev ws) = forallb blank ws.
Proof.
  induction ws as [| c ws IH]; [reflexivity |].
  simpl. rewrite forallb_app, IH. simpl. rewrite andb_true_r. apply andb_comm.
Qed.

(** Blank characters around a text do not change what stripping leaves. *)
Lemma strip_padded (ws1 l ws2 : list ascii) :
  forallb blank ws1 = true -> forallb blank ws2 = true ->
  rev (lstrip (rev (lstrip (ws1 ++ l ++ ws2)))) = rev (lstrip (rev (lstrip l))).
Proof.
  intros H1 H2. rewrite (lstrip_blank ws1 _ H1).
  destruct (lstrip_app l ws2 H2) as [E | [E1 E2]].
  - rewrite E, rev_app_distr, lstrip_blank; [reflexivity |].
    now rewrite forallb_rev.
  - now rewrite E1, E2.
Qed.

End Stripping.

(* ===================================================================== *)
(** * The console programs *)
(* ===================================================================== *)

Section Sessions.
Import Py Effects Console Behaviour.

Lemma str_strip_padded (p1 s p2 : string) :
  forallb is_whitespace (chars p1) = true ->
  forallb is_whitespace (chars p2) = true ->
  str_strip (p1 +:+ s +:+ p2) = str_strip s.
Proof.
  intros H1 H2. unfold str_strip. rewrite !chars_app.
  now rewrite (strip_padded is_whitespace lstrip_chars eq_refl (fun _ _ => eq_refl) _ _ _ H1 H2).
Qed.

Context {R : Type}.
Variable lookup : nat -> string -> M R.
Variable display : R -> list string.

(** The line is the command to leave, in any case and with white space
    around. *)
Lemma session_quit (turn : nat) (q : string) (post : list string) :
  is_quit q = true ->
  session lookup display turn (q :: post) = ([Input prompt], Break).
Proof. unfold is_quit. intros Q. simpl. now rewrite Q. Qed.

Lemma session_after_quit (q : string) (pre post : list string) :
  is_quit q = true ->
  forall turn,
    session lookup display turn (pre ++ q :: post)
    = session lookup display turn (pre ++ [q])
    /\ snd (session lookup display turn (pre ++ q :: post)) <> EOFError.
Proof.
  intros Q. induction pre as [| line pre IH]; intros turn.
  - simpl app. rewrite !(session_quit _ _ _ Q). split; [reflexivity | discriminate].
  - simpl. destruct (String.eqb (str_lower (str_strip line)) "quit").
    { split; [reflexivity | discriminate]. }
    destruct (run (lookup turn (str_strip line))) as [t [e | res]].
    { split; [reflexivity | discriminate]. }
    destruct (IH (S turn)) as [E N]. rewrite E in N |- *.
    split; [reflexivity |].
    destruct (session lookup display (S turn) (pre ++ [q])) as [t' e']. exact N.
Qed.

(** A line that is not the command to leave and on which the lookup
    returns [res] without any effect. *)
Lemma session_quiet (turn : nat) (line : string) (rest : list string) (res : R) :
  is_quit line = false ->
  run (lookup turn (str_strip line)) = ([], Return res) ->
  session lookup display turn (line :: rest)
  = (Input prompt :: map Print (display res) ++ fst (session lookup display (S turn) rest),
     snd (session lookup display (S turn) rest)).
Proof.
  unfold is_quit. intros Q E. simpl. rewrite Q, E.
  destruct (session lookup display (S turn) rest) as [t' e']. reflexivity.
Qed.

(** The loop reads a line through [strip] only. *)
Lemma session_strip (turn : nat) (l1 l2 : string) (rest : list string) :
  str_strip l1 = str_strip l2 ->
  session lookup display turn (l1 :: rest) = session lookup display turn (l2 :: rest).
Proof. intros E. simpl. now rewrite E. Qed.

(** How the loop can end. *)
Lemma session_ending (stdin : list string) :
  forall turn,
    match snd (session lookup display turn stdin) with
    | Break => existsb is_quit stdin = true
    | EOFError => existsb is_quit stdin = false
    | Uncaught e => exists n line, returned (lookup n (str_strip line)) = Raise e
    end.
Proof.
  induction stdin as [| line rest IH]; intros turn; [reflexivity |].
  cbn [session existsb]. fold (is_quit line).
  destruct (is_quit line); [reflexivity |].
  destruct (run (lookup turn (str_strip line))) as [t [e | res]] eqn:E.
  - exists turn, line. unfold returned. now rewrite E.
  - specialize (IH (S turn)).
    destruct (session lookup display (S turn) rest) as [t' e']. exact IH.
Qed.

End Sessions.

Section Programs.
Import Py Effects Console Behaviour.

Variable w : nat -> World.
Variable str_e : exn -> string.

Lemma cli_main (stdin : list string) :
  Cli.main w stdin = (banner ++ fst (Cli.loop w 0 stdin), snd (Cli.loop w 0 stdin)).
Proof. unfold Cli.main. now destruct (Cli.loop w 0 stdin). Qed.

Lemma simple_main (stdin : list string) :
  Simple.main w str_e stdin
  = (banner ++ fst (Simple.loop w str_e 0 stdin), snd (Simple.loop w str_e 0 stdin)).
Proof. unfold Simple.main. now destruct (Simple.loop w str_e 0 stdin). Qed.

Lemma is_quit_spec (line : string) :
  is_quit line = true <-> str_lower (str_strip line) = "quit".
Proof. unfold is_quit. apply String.eqb_eq. Qed.


(** The single-provider lookup returns. *)
Lemma single_returns (world : World) (ip : string) (e : exn) :
  returned (Simple.get_detailed_geolocation world str_e ip) <> Raise e.
Proof.
  unfold returned.
  destruct (validate_ip_address_total ip) as [V | V].
  - destruct (resolvable_or_refused ip) as [A | [e' A]].
    + rewrite (single_valid world str_e ip V A). discriminate.
    + rewrite (single_refused world str_e ip e' V A). discriminate.
  - rewrite (single_invalid world str_e ip V). discriminate.
Qed.

(** How the single-provider program ends. *)
Lemma simple_loop_ending (stdin : list string) (turn : nat) :
  snd (Simple.loop w str_e turn stdin) = if existsb is_quit stdin then Break else EOFError.
Proof.
  pose proof (session_ending (fun turn => Simple.get_detailed_geolocation (w turn) str_e)
                Simple.display_location_details stdin turn) as H.
  unfold Simple.loop.
  destruct (snd (session _ _ turn stdin)) as [| | e].
  - now rewrite H.
  - now rewrite H.
  - destruct H as (n & line & H). now apply single_returns in H.
Qed.

(** X15: the command to leave.  A line that reads "quit" once stripped of
    the white space around it and put in lower case ends either program:
    the lines after it are never read, so the program runs as on the input
    that ends with that line, and it does not end by the [EOFError] of an
    exhausted input.  When it is the first line nothing is looked up; the
    single-provider program always ends by its [break]. *)
Theorem quit_ends_the_program (pre post : list string) (q : string) :
  str_lower (str_strip q) = "quit" ->
  (Cli.main w (pre ++ q :: post) = Cli.main w (pre ++ [q])
   /\ snd (Cli.main w (pre ++ q :: post)) <> EOFError
   /\ Cli.main w (q :: post) = (banner ++ [Input prompt], Break))
  /\ (Simple.main w str_e (pre ++ q :: post) = Simple.main w str_e (pre ++ [q])
      /\ snd (Simple.main w str_e (pre ++ q :: post)) = Break
      /\ Simple.main w str_e (q :: post) = (banner ++ [Input prompt], Break)).
Proof.
  intros Q. apply is_quit_spec in Q. split.
  - rewrite !cli_main. unfold Cli.loop.
    destruct (session_after_quit (fun turn => Tracker.get_detailed_geolocation (w turn))
                Cli.display_location_details q pre post Q 0%nat) as [E N].
    rewrite E in N |- *. repeat split; [exact N |].
    now rewrite (session_quit _ _ 0%nat q post Q).
  - rewrite !simple_main.
    destruct (session_after_quit (fun turn => Simple.get_detailed_geolocation (w turn) str_e)
                Simple.display_location_details q pre post Q 0%nat) as [E _].
    unfold Simple.loop at 1 2 5 6. rewrite E. fold (Simple.loop w str_e 0 (pre ++ [q])).
    repeat split.
    + rewrite simple_loop_ending, existsb_app. simpl. rewrite Q.
      now rewrite orb_true_r.
    + unfold Simple.loop. now rewrite (session_quit _ _ 0%nat q post Q).
Qed.

(** X16: a line that is not an address.  When a line, stripped, is
    neither the command to leave nor a valid address (the empty line for
    one), either program prints the one line "Error: Invalid IP address
    format", does nothing else (no reverse lookup, no request) and goes on
    to read the next line. *)
Theorem invalid_line_is_reported_and_skipped (turn : nat) (line : string) (rest : list string) :
  Tracker.validate_ip_address (str_strip line) = Return false ->
  str_lower (str_strip line) <> "quit" ->
  let report := [Input prompt; Print "Error: Invalid IP address format"] in
  Cli.loop w turn (line :: rest)
  = (report ++ fst (Cli.loop w (S turn) rest), snd (Cli.loop w (S turn) rest))
  /\ Simple.loop w str_e turn (line :: rest)
     = (report ++ fst (Simple.loop w str_e (S turn) rest),
        snd (Simple.loop w str_e (S turn) rest)).
Proof.
  intros V Q report.
  assert (Q' : is_quit line = false).
  { destruct (is_quit line) eqn:E; [| reflexivity]. now apply is_quit_spec in E. }
  split.
  - unfold Cli.loop.
    rewrite (session_quiet _ _ turn line rest _ Q' (lookup_invalid (w turn) _ V)).
    reflexivity.
  - unfold Simple.loop.
    rewrite (session_quiet _ _ turn line rest _ Q' (single_invalid (w turn) str_e _ V)).
    reflexivity.
Qed.

(** X17: white space around a line is ignored.  Either program treats a
    line with white space (blanks, tabs, line ends) before and after it
    exactly like the bare line: the address looked up is the stripped
    one. *)
Theorem white_space_around_a_line_is_ignored
        (turn : nat) (p1 s p2 : string) (rest : list string) :
  forallb is_whitespace (chars p1) = true ->
  forallb is_whitespace (chars p2) = true ->
  Cli.loop w turn ((p1 +:+ s +:+ p2) :: rest) = Cli.loop w turn (s :: rest)
  /\ Simple.loop w str_e turn ((p1 +:+ s +:+ p2) :: rest)
     = Simple.loop w str_e turn (s :: rest).
Proof.
  intros H1 H2. pose proof (str_strip_padded p1 s p2 H1 H2) as E.
  split; [unfold Cli.loop | unfold Simple.loop]; now apply session_strip.
Qed.


End Programs.

Lemma quit_ends_the_program_witness :
  Cli.main (fun _ => Worlds.unreachable) [" QuIt "; "8.8.8.8"]
  = (Console.banner ++ [Console.Input Console.prompt], Console.Break).
Proof.
  refine (proj2 (proj2 (proj1 (quit_ends_the_program
                                 (fun _ => Worlds.unreachable) (fun _ => "")
                                 [] ["8.8.8.8"] " QuIt " _)))).
  vm_compute; reflexivity.
Defined.

Lemma invalid_line_is_reported_and_skipped_witness :
  Cli.loop (fun _ => Worlds.unreachable) 0 ["  "]
  = ([Console.Input Console.prompt; Console.Print "Error: Invalid IP address format";
      Console.Input Console.prompt], Console.EOFError).
Proof.
  refine (proj1 (invalid_line_is_reported_and_skipped
                   (fun _ => Worlds.unreachable) (fun _ => "") 0 "  " [] _ _)).
  - vm_compute; reflexivity.
  - vm_compute; discriminate.
Defined.

Lemma white_space_around_a_line_is_ignored_witness :
  Cli.loop (fun _ => Worlds.degraded) 0 [" 8.8.8.8 "]
  = Cli.loop (fun _ => Worlds.degraded) 0 ["8.8.8.8"].
Proof.
  refine (proj1 (white_space_around_a_line_is_ignored
                   (fun _ => Worlds.degraded) (fun _ => "") 0 " " "8.8.8.8" " " [] _ _));
    reflexivity.
Defined.

Section Display.
Import Py Console.

(** X19: what the display prints.  For an error result it prints the one
    line "Error: " followed by the message.  For a record of the
    multi-provider class it prints, in this order, the heading, the
    address, the host name, one line per location field labelled with the
    key in title case (so [country_code] shows as "Country Code" and [isp]
    as "Isp"), the maps link on a line of its own after them and not among
    them, and one line per network field; the single-provider class
    prints its two further fields, "Continent" and "Connection Type", in
    their places. *)
Theorem display_prints_every_field :
  (forall error, Cli.display_location_details (Tracker.ErrorResult error)
                 = ["Error: " +:+ error])
  /\ (forall r,
        let loc := Tracker.location r in
        let net := Tracker.network r in
        Cli.display_location_details (Tracker.LocationResult r)
        = [ nl +:+ "===== IP Location Details =====";
            "IP Address: " +:+ Tracker.ip r;
            "Hostname: " +:+ Tracker.hostname r;
            nl +:+ "Location Information:";
            "  Country: " +:+ to_str (Tracker.country loc);
            "  Country Code: " +:+ to_str (Tracker.country_code loc);
            "  City: " +:+ to_str (Tracker.city loc);
            "  Region: " +:+ to_str (Tracker.region loc);
            "  Postal Code: " +:+ to_str (Tracker.postal_code loc);
            "  Latitude: " +:+ to_str (Tracker.latitude loc);
            "  Longitude: " +:+ to_str (Tracker.longitude loc);
            "  Timezone: " +:+ to_str (Tracker.timezone loc);
            nl +:+ "Google Maps Link: " +:+ Tracker.google_maps_link loc;
            nl +:+ "Network Details:";
            "  Organization: " +:+ to_str (Tracker.organization net);
            "  Isp: " +:+ to_str (Tracker.isp net);
            "  Asn: " +:+ to_str (Tracker.asn net) ])
  /\ (forall error, Simple.display_location_details (Simple.ErrorResult error)
                    = ["Error: " +:+ error])
  /\ (forall r,
        let loc := Simple.location r in
        let net := Simple.network r in
        Simple.display_location_details (Simple.LocationResult r)
        = [ nl +:+ "===== IP Location Details =====";
            "IP Address: " +:+ Simple.ip r;
            "Hostname: " +:+ Simple.hostname r;
            nl +:+ "Location Information:";
            "  Country: " +:+ to_str (Simple.country loc);
            "  Country Code: " +:+ to_str (Simple.country_code loc);
            "  City: " +:+ to_str (Simple.city loc);
            "  Region: " +:+ to_str (Simple.region loc);
            "  Continent: " +:+ to_str (Simple.continent loc);
            "  Postal Code: " +:+ to_str (Simple.postal_code loc);
            "  Latitude: " +:+ to_str (Simple.latitude loc);
            "  Longitude: " +:+ to_str (Simple.longitude loc);
            "  Timezone: " +:+ to_str (Simple.timezone loc);
            nl +:+ "Google Maps Link: " +:+ Simple.google_maps_link loc;
            nl +:+ "Network Details:";
            "  Organization: " +:+ to_str (Simple.organization net);
            "  Isp: " +:+ to_str (Simple.isp net);
            "  Asn: " +:+ to_str (Simple.asn net);
            "  Connection Type: " +:+ to_str (Simple.connection_type net) ]).
Proof. repeat split. Qed.

End Display.

(* ===================================================================== *)
(** * Reading the coordinates of ipinfo.io *)
(* ===================================================================== *)

Section Numerals.
Import Py Tracker Behaviour Grammar.

Lemma digit_plain (c : ascii) :
  is_digit c = true ->
  is_space c = false /\ Ascii.eqb c "_" = false
  /\ (forall r, parse_sign (c :: r) = (false, c :: r))
  /\ (forall r, is_word "inf" (c :: r) = false)
  /\ (forall r, is_word "infinity" (c :: r) = false)
  /\ (forall r, is_word "nan" (c :: r) = false).
Proof.
  destruct c as [[] [] [] [] [] [] [] []]; try discriminate; intros _; repeat split.
Qed.

Lemma space_plain (c : ascii) :
  is_space c = true -> is_digit c = false /\ Ascii.eqb c "_" = false /\ Ascii.eqb "," c = false.
Proof.
  destruct c as [[] [] [] [] [] [] [] []]; try discriminate; intros _; repeat split.
Qed.

Lemma strip_underscores_prev (p p' : ascii) (l : list ascii) :
  is_digit p = is_digit p' -> Ascii.eqb p "_" = Ascii.eqb p' "_" ->
  strip_underscores p l = strip_underscores p' l.
Proof. intros Hd Hu. destruct l; simpl; rewrite ?Hd, ?Hu; reflexivity. Qed.

(** A text without underscores passes the underscore check unchanged. *)
Lemma strip_underscores_none (l : list ascii) :
  forall p, Ascii.eqb p "_" = false ->
            forallb (fun c => negb (Ascii.eqb c "_")) l = true ->
            strip_underscores p l = Some l.
Proof.
  induction l as [| c l IH]; intros p Hp H; simpl.
  - now rewrite Hp.
  - simpl in H. apply andb_prop in H as [Hc Hl]. apply negb_true_iff in Hc.
    rewrite Hc, Hp. simpl. now rewrite (IH c Hc Hl).
Qed.

Lemma strip_underscores_blank_l (ws l : list ascii) :
  forallb is_space ws = true ->
  forall p, is_digit p = false -> Ascii.eqb p "_" = false ->
            strip_underscores p (ws ++ l) = option_map (app ws) (strip_underscores p l).
Proof.
  induction ws as [| c ws IH]; intros H p Hd Hu.
  - simpl. now destruct (strip_underscores p l).
  - simpl in H. apply andb_prop in H as [Hc Hws].
    destruct (space_plain c Hc) as (Dc & Uc & _).
    simpl. rewrite Uc, Hu. simpl. rewrite (IH Hws c Dc Uc).
    rewrite (strip_underscores_prev c p l) by congruence.
    now destruct (strip_underscores p l).
Qed.

Lemma strip_underscores_blank_r (l ws : list ascii) :
  forallb is_space ws = true ->
  forall p, strip_underscores p (l ++ ws)
            = option_map (fun x => x ++ ws) (strip_underscores p l).
Proof.
  intros H. induction l as [| x l IH]; intros p.
  - simpl. destruct ws as [| c ws]; simpl.
    + now destruct (Ascii.eqb p "_").
    + simpl in H. apply andb_prop in H as [Hc Hws].
      destruct (space_plain c Hc) as (Dc & Uc & _).
      rewrite Uc, Dc. simpl. rewrite andb_true_r.
      destruct (Ascii.eqb p "_"); [reflexivity |].
      rewrite (strip_underscores_none ws c Uc); [reflexivity |].
      clear -Hws. induction ws as [| d ws IH]; [reflexivity |].
      simpl in Hws |- *. apply andb_prop in Hws as [Hd Hws].
      destruct (space_plain d Hd) as (_ & Ud & _). now rewrite Ud, (IH Hws).
  - simpl. destruct (Ascii.eqb x "_").
    + destruct (is_digit p); [apply IH | reflexivity].
    + destruct (Ascii.eqb p "_" && negb (is_digit x))%bool; [reflexivity |].
      rewrite IH. now destruct (strip_underscores x l).
Qed.

(** [float] ignores white space around its argument. *)
Lemma float_of_string_padded (p1 s p2 : string) :
  blank p1 -> blank p2 -> float_of_string (p1 +:+ s +:+ p2) = float_of_string s.
Proof.
  unfold blank, float_of_string. intros H1 H2. rewrite !chars_app.
  rewrite (strip_underscores_blank_l _ _ H1) by reflexivity.
  rewrite (strip_underscores_blank_r _ _ H2).
  destruct (strip_underscores "000" (chars s)) as [l |]; [| reflexivity].
  simpl option_map. unfold strip.
  now rewrite (strip_padded is_space lstrip eq_refl (fun _ _ => eq_refl) _ _ _ H1 H2).
Qed.

Lemma blank_no_comma (p : string) : blank p -> no_char "," p.
Proof.
  unfold blank, no_char. induction (chars p) as [| c l IH]; [reflexivity |].
  cbn [forallb existsb]. intros H. apply andb_prop in H as [Hc Hl].
  destruct (space_plain c Hc) as (_ & _ & C). now rewrite C, (IH Hl).
Qed.

(** X20: each half of [loc] may have white space around it.  An
    ipinfo.io answer whose [loc] has white space before or after either
    number (as in "51.5, -0.1") is normalized exactly like the same answer
    with the bare [loc], because [float] strips the white space around
    its argument. *)
Theorem ipinfo_loc_may_be_padded
        (ip h : string) (g : gmap string value) (p1 a p2 p3 b p4 : string) :
  Forall blank [p1; p2; p3; p4] ->
  no_char "," a -> no_char "," b ->
  g !! "loc" = Some (VStr ((p1 +:+ a +:+ p2) +:+ "," +:+ (p3 +:+ b +:+ p4))) ->
  _process_ipinfo_response ip h (JObject g)
  = _process_ipinfo_response ip h (JObject (<["loc" := VStr (a +:+ "," +:+ b)]> g)).
Proof.
  intros B Ha Hb Hl.
  inversion B as [| ? ? B1 Bx]; subst. inversion Bx as [| ? ? B2 By]; subst.
  inversion By as [| ? ? B3 Bz]; subst. inversion Bz as [| ? ? B4 _]; subst.
  assert (Na : no_char "," (p1 +:+ a +:+ p2)).
  { apply no_char_app; split; [now apply blank_no_comma |].
    apply no_char_app; split; [exact Ha | now apply blank_no_comma]. }
  assert (Nb : no_char "," (p3 +:+ b +:+ p4)).
  { apply no_char_app; split; [now apply blank_no_comma |].
    apply no_char_app; split; [exact Hb | now apply blank_no_comma]. }
  rewrite !ipinfo_object.
  rewrite (get_present _ _ _ _ Hl), get_insert.
  rewrite !get_insert_ne by discriminate.
  unfold value_split. rewrite (split_two _ _ Na Nb), (split_two a b Ha Hb).
  unfold index, bind, Return. simpl nth_error. cbv beta iota.
  rewrite (float_of_string_padded p1 a p2 B1 B2), (float_of_string_padded p3 b p4 B3 B4).
  reflexivity.
Qed.

Lemma ipinfo_loc_may_be_padded_witness :
  _process_ipinfo_response "8.8.8.8" "N/A" (JObject {[ "loc" := VStr "51.5, -0.1" ]})
  = _process_ipinfo_response "8.8.8.8" "N/A"
      (JObject (<["loc" := VStr "51.5,-0.1"]> {[ "loc" := VStr "51.5, -0.1" ]})).
Proof.
  apply (ipinfo_loc_may_be_padded "8.8.8.8" "N/A" _ "" "51.5" "" " " "-0.1" "").
  - repeat (apply List.Forall_cons; [reflexivity |]). apply List.Forall_nil.
  - reflexivity.
  - reflexivity.
  - reflexivity.
Defined.

End Numerals.

Section Decimal.
Import Py Tracker Behaviour Grammar.

Lemma digit_no_comma (c : ascii) : is_digit c = true -> Ascii.eqb "," c = false.
Proof. destruct c as [[] [] [] [] [] [] [] []]; try discriminate; reflexivity. Qed.

Lemma span_digits_all (ds : list ascii) :
  forallb is_digit ds = true -> span_digits ds = (ds, []).
Proof.
  induction ds as [| c ds IH]; [reflexivity |].
  cbn [forallb span_digits]. intros H. apply andb_prop in H as [Hc Hds].
  now rewrite Hc, (IH Hds).
Qed.

Lemma span_digits_point (ds r : list ascii) :
  forallb is_digit ds = true -> span_digits (ds ++ "."%char :: r) = (ds, "."%char :: r).
Proof.
  induction ds as [| c ds IH]; [reflexivity |].
  cbn [forallb span_digits app]. intros H. apply andb_prop in H as [Hc Hds].
  now rewrite Hc, (IH Hds).
Qed.

(** A text without white space is left as it is by [strip]. *)
Lemma strip_plain (l : list ascii) :
  forallb (fun c => negb (is_space c)) l = true -> strip l = l.
Proof.
  assert (A : forall x, forallb (fun c => negb (is_space c)) x = true -> lstrip x = x).
  { intros [| c x]; [reflexivity |]. cbn [forallb lstrip]. intros H.
    apply andb_prop in H as [Hc _]. apply negb_true_iff in Hc. now rewrite Hc. }
  intros H. unfold strip. rewrite (A l H), A, rev_involutive; [reflexivity |].
  now rewrite forallb_rev.
Qed.

(** The characters of a numeral: the minus sign, the point and digits. *)
Lemma forallb_numeral (q : ascii -> bool) (neg : bool) (int frac : list ascii) :
  q "-"%char = true -> q "."%char = true ->
  (forall c, is_digit c = true -> q c = true) ->
  numeral_digits int frac ->
  forallb q (chars (numeral neg int frac)) = true.
Proof.
  intros Qm Qp Qd (_ & Hi & Hf). unfold numeral. rewrite chars_str.
  assert (D : forall ds, forallb is_digit ds = true -> forallb q ds = true).
  { induction ds as [| c ds IH]; [reflexivity |]. cbn [forallb]. intros H.
    apply andb_prop in H as [Hc Hds]. now rewrite (Qd c Hc), (IH Hds). }
  rewrite !forallb_app. cbn [forallb]. rewrite (D int Hi), (D frac Hf), Qp.
  destruct neg; cbn [forallb]; rewrite ?Qm; reflexivity.
Qed.

Lemma parse_numeral (neg : bool) (int frac : list ascii) :
  numeral_digits int frac ->
  parse_float ((if neg then ["-"%char] else []) ++ int ++ "."%char :: frac)
  = Some (numeral_value neg int frac).
Proof.
  intros (N & Hi & Hf). destruct int as [| c int]; [congruence |].
  assert (Hc : is_digit c = true).
  { cbn [forallb] in Hi. now apply andb_prop in Hi as [Hc _]. }
  destruct (digit_plain c Hc) as (_ & _ & S & W1 & W2 & W3).
  unfold parse_float.
  assert (E : parse_sign ((if neg then ["-"%char] else []) ++ (c :: int) ++ "."%char :: frac)
              = (neg, c :: int ++ "."%char :: frac)).
  { destruct neg; [reflexivity | apply S]. }
  rewrite E. rewrite W1, W2, W3. cbn [orb].
  change (c :: int ++ "."%char :: frac) with ((c :: int) ++ "."%char :: frac).
  rewrite (span_digits_point (c :: int) frac Hi), (span_digits_all frac Hf).
  reflexivity.
Qed.

(** [float] reads a numeral as the float nearest to it. *)
Lemma float_of_numeral (neg : bool) (int frac : list ascii) :
  numeral_digits int frac ->
  float_of_string (numeral neg int frac) = Return (numeral_value neg int frac).
Proof.
  intros D. unfold float_of_string.
  rewrite strip_underscores_none; [| reflexivity |].
  2: { apply forallb_numeral; [reflexivity | reflexivity | | exact D].
       intros c Hc. destruct (digit_plain c Hc) as (_ & U & _). now rewrite U. }
  rewrite strip_plain.
  2: { apply forallb_numeral; [reflexivity | reflexivity | | exact D].
       intros c Hc. destruct (digit_plain c Hc) as (S & _). now rewrite S. }
  unfold numeral. rewrite chars_str, (parse_numeral neg int frac D). reflexivity.
Qed.

Lemma numeral_no_comma (neg : bool) (int frac : list ascii) :
  numeral_digits int frac -> no_char "," (numeral neg int frac).
Proof.
  intros D. unfold no_char.
  pose proof (forallb_numeral (fun c => negb (Ascii.eqb "," c)) neg int frac
                eq_refl eq_refl) as H.
  assert (Q : forallb (fun c => negb (Ascii.eqb "," c)) (chars (numeral neg int frac)) = true).
  { apply H; [| exact D]. intros c Hc. now rewrite (digit_no_comma c Hc). }
  clear H. induction (chars (numeral neg int frac)) as [| c l IH]; [reflexivity |].
  cbn [forallb existsb] in Q |- *. apply andb_prop in Q as [Qc Ql].
  apply negb_true_iff in Qc. now rewrite Qc, (IH Ql).
Qed.

(** X21: a [loc] of two decimal numerals is read.  When the [loc] of an
    ipinfo.io answer is two decimal numerals separated by a comma (each an
    optional minus sign, at least one digit, a point and digits, as in
    "37.4056,-122.0775"), the normalizer returns a record, and its
    latitude and longitude are the floats nearest to the two numbers. *)
Theorem ipinfo_reads_decimal_loc
        (ip h : string) (g : gmap string value)
        (neg1 neg2 : bool) (int1 frac1 int2 frac2 : list ascii) :
  numeral_digits int1 frac1 -> numeral_digits int2 frac2 ->
  g !! "loc" = Some (VStr (numeral neg1 int1 frac1 +:+ "," +:+ numeral neg2 int2 frac2)) ->
  exists r,
    _process_ipinfo_response ip h (JObject g) = Return r
    /\ latitude (location r) = VFloat (numeral_value neg1 int1 frac1)
    /\ longitude (location r) = VFloat (numeral_value neg2 int2 frac2).
Proof.
  intros D1 D2 Hl. rewrite ipinfo_object.
  rewrite (get_present _ _ _ _ Hl). unfold value_split.
  rewrite (split_two _ _ (numeral_no_comma neg1 _ _ D1) (numeral_no_comma neg2 _ _ D2)).
  unfold index, bind, Return. simpl nth_error. cbv beta iota.
  rewrite (float_of_numeral neg1 _ _ D1), (float_of_numeral neg2 _ _ D2).
  unfold Return. eexists. split; [reflexivity | split; reflexivity].
Qed.

Lemma ipinfo_reads_decimal_loc_witness :
  exists r,
    _process_ipinfo_response "8.8.8.8" "N/A" (JObject {[ "loc" := VStr "37.4,-122.1" ]})
    = Return r
    /\ latitude (location r) = VFloat Worlds.f37_4
    /\ longitude (location r) = VFloat Worlds.f122_1.
Proof.
  apply (ipinfo_reads_decimal_loc "8.8.8.8" "N/A" _ false true
           (chars "37") (chars "4") (chars "122") (chars "1")).
  - split; [discriminate | split; reflexivity].
  - split; [discriminate | split; reflexivity].
  - reflexivity.
Defined.

End Decimal.

Section Urls.
Import Py Tracker Spec.

(** X22: the request URLs hold the address as it was given.  For every
    address the three providers are asked at https://ipapi.co/ADDRESS/json/,
    https://ipinfo.io/ADDRESS/json and https://ip-api.com/json/ADDRESS, and
    the single-provider class at the first of them, with the address put
    in place verbatim, without any escaping. *)
Theorem request_urls_hold_the_address (ip : string) :
  map (endpoint ip) apis
  = [ "https://ipapi.co/" +:+ ip +:+ "/json/";
      "https://ipinfo.io/" +:+ ip +:+ "/json";
      "https://ip-api.com/json/" +:+ ip ]
  /\ format Simple.geo_api_url ip = "https://ipapi.co/" +:+ ip +:+ "/json/".
Proof. split; [apply endpoints | apply single_endpoint]. Qed.

End Urls.
